(** * claude-memory-mcp: the SQLite-backed knowledge store, embedded in Rocq

    The TypeScript sources under [src/tools] issue SQL statements against
    one SQLite database.  Each table is modelled as the list of its rows in
    rowid order, each statement as a function on those lists, and each
    exported function of the sources as the composition of its statements,
    in the order the source runs them.  A function that can throw returns
    a [result] next to the tables as the statements run so far left them.

    The wall clock is explicit: every operation takes [now], the number of
    milliseconds since the Unix epoch at the moment of the call (what
    [Date.now()] returns, and the instant SQLite formats for
    [CURRENT_TIMESTAMP]).  One call reads the clock once.

    What the sources take from their platform is modelled next to them:
    the two timestamp texts ([toISOString] and [CURRENT_TIMESTAMP]), the
    [LIKE] operator, [JSON.stringify] and [JSON.parse].  The FTS5 query
    engine is a parameter of [memorySearch].  An SQL [INTEGER] is a [Z]:
    the counters of the tables start at 0 or 1 and grow by one, far from
    the 64-bit bound where SQLite would turn them into a [REAL]. *)

From Stdlib Require Import ZArith List String Ascii Bool Lia.
From Stdlib Require Import DecimalString DecimalZ QArith_base.
From Stdlib Require Import Sorted Permutation.
Import ListNotations.

Local Open Scope string_scope.
Local Open Scope Z_scope.

(** ** Outcomes of a call *)

(** Result codes of the SQLite engine that the modelled statements can
    produce. *)
Inductive sqlite_code :=
  | SQLITE_ERROR
  | SQLITE_CONSTRAINT_FOREIGNKEY.

(** What a call can throw.  [SqliteError] is the exception of the
    better-sqlite3 binding, [RangeError] the one of [Date.prototype.toISOString]
    on an invalid date.  [ValidationError] is the caller-error kind of the
    specification's taxonomy; no statement of the sources raises it. *)
Inductive exn :=
  | SqliteError (code : sqlite_code)
  | RangeError
  | ValidationError.

Inductive result (A : Type) :=
  | Ok (a : A)
  | Throw (e : exn).
Arguments Ok {A} a.
Arguments Throw {A} e.

(** ** Time: [Date.now()], [toISOString()] and [CURRENT_TIMESTAMP] *)

Module Time.

(** Zero-padded decimal of a non-negative number, at least [w] digits. *)
Fixpoint zeros (n : nat) : string :=
  match n with
  | O => ""
  | S k => String "0" (zeros k)
  end.

Definition decimal (n : Z) : string :=
  NilZero.string_of_uint (N.to_uint (Z.to_N n)).

Definition pad (w : nat) (n : Z) : string :=
  let d := decimal n in
  zeros (w - String.length d) ++ d.

(** Civil date (proleptic Gregorian calendar, UTC) of a day number counted
    from 1970-01-01. *)
Definition civil_from_days (days : Z) : Z * Z * Z :=
  let z := days + 719468 in
  let era := z / 146097 in
  let doe := z - era * 146097 in
  let yoe := (doe - doe / 1460 + doe / 36524 - doe / 146096) / 365 in
  let y := yoe + era * 400 in
  let doy := doe - (365 * yoe + yoe / 4 - yoe / 100) in
  let mp := (5 * doy + 2) / 153 in
  let d := doy - (153 * mp + 2) / 5 + 1 in
  let m := if mp <? 10 then mp + 3 else mp - 9 in
  (if m <=? 2 then y + 1 else y, m, d).

Definition ms_per_day : Z := 86400000.

(** The date part [YYYY-MM-DD] shared by both formats, for years 0000 to
    9999. *)
Definition date_string (t : Z) : string :=
  let '(y, m, d) := civil_from_days (t / ms_per_day) in
  pad 4 y ++ "-" ++ pad 2 m ++ "-" ++ pad 2 d.

Definition hours (t : Z) : Z := (t mod ms_per_day) / 3600000.
Definition minutes (t : Z) : Z := (t mod 3600000) / 60000.
Definition seconds (t : Z) : Z := (t mod 60000) / 1000.
Definition millis (t : Z) : Z := t mod 1000.

Definition clock_string (t : Z) : string :=
  pad 2 (hours t) ++ ":" ++ pad 2 (minutes t) ++ ":" ++ pad 2 (seconds t).

(** SQLite's [CURRENT_TIMESTAMP]: the text [YYYY-MM-DD HH:MM:SS], in UTC. *)
Definition CURRENT_TIMESTAMP (now : Z) : string :=
  date_string now ++ " " ++ clock_string now.

(** The largest time value of a JavaScript [Date] (ECMAScript TimeClip). *)
Definition max_time : Z := 8640000000000000.

Definition valid_time (t : Z) : bool :=
  (- max_time <=? t) && (t <=? max_time).

(** The year of [toISOString]: four digits from 0000 to 9999, otherwise a
    sign and six digits. *)
Definition iso_date_string (t : Z) : string :=
  let '(y, m, d) := civil_from_days (t / ms_per_day) in
  (if (0 <=? y) && (y <=? 9999) then pad 4 y
   else (if y <? 0 then "-" else "+") ++ pad 6 (Z.abs y))
  ++ "-" ++ pad 2 m ++ "-" ++ pad 2 d.

(** [new Date(t).toISOString()]: [YYYY-MM-DDTHH:mm:ss.sssZ], or a
    [RangeError] when [t] is not a valid time value. *)
Definition toISOString (t : Z) : result string :=
  if valid_time t then
    Ok (iso_date_string t ++ "T" ++ clock_string t ++ "." ++ pad 3 (millis t) ++ "Z")
  else Throw RangeError.

End Time.

(** ** SQL and JavaScript helpers shared by the tools *)

Module Sql.

(** [x || null] on an optional string argument: [undefined] and the empty
    string both become [NULL]. *)
Definition or_null (x : option string) : option string :=
  match x with
  | Some "" => None
  | Some s => Some s
  | None => None
  end.

(** [x || null] on an optional number: [undefined] and [0] become [NULL]. *)
Definition or_null_num (x : option Z) : option Z :=
  match x with
  | Some 0 => None
  | Some n => Some n
  | None => None
  end.

(** [COALESCE(x, y)]. *)
Definition COALESCE {A : Type} (x : option A) (y : option A) : option A :=
  match x with
  | Some _ => x
  | None => y
  end.

(** The rowid SQLite gives a row inserted into a table with an
    [INTEGER PRIMARY KEY]: one more than the largest rowid in use, 1 in
    an empty table. *)
Definition next_rowid (ids : list Z) : Z :=
  fold_right Z.max 0 ids + 1.

(** [LIMIT n]: the first [n] rows; a negative [n] means no limit. *)
Definition LIMIT {A : Type} (n : Z) (rows : list A) : list A :=
  if n <? 0 then rows else firstn (Z.to_nat n) rows.

(** *** The [LIKE] operator

    SQLite's default [LIKE]: [%] matches any run of characters, [_] one
    character, any other pattern character matches itself, ASCII letters
    without regard to case.  Texts are UTF-8: a character is a byte, and
    after a lead byte of [0xC0] or more the continuation bytes
    ([0x80]-[0xBF]) that follow it.  This is the operator on the patterns
    SQLite accepts, those of at most 50000 bytes
    ([SQLITE_MAX_LIKE_PATTERN_LENGTH]): on a longer pattern it raises the
    error [LIKE or GLOB pattern too complex] instead of answering. *)



Definition byte (c : ascii) : Z := Z.of_nat (nat_of_ascii c).

Definition to_lower (c : ascii) : ascii :=
  if (65 <=? byte c) && (byte c <=? 90)
  then ascii_of_nat (nat_of_ascii c + 32) else c.

Definition is_continuation (c : ascii) : bool :=
  (128 <=? byte c) && (byte c <=? 191).

Definition is_lead (c : ascii) : bool := 192 <=? byte c.

Fixpoint drop_continuation (s : string) : string :=
  match s with
  | String c s' => if is_continuation c then drop_continuation s' else s
  | EmptyString => s
  end.

(** What is left of [s] after its first character. *)
Definition skip_char (s : string) : option string :=
  match s with
  | EmptyString => None
  | String c s' => Some (if is_lead c then drop_continuation s' else s')
  end.

(** [k] holds of [s] or of what is left of [s] after some of its
    characters; [inside] tells that the bytes at the head of [s] still
    continue a character begun before. *)
Fixpoint match_any (k : string -> bool) (inside : bool) (s : string) : bool :=
  match s with
  | EmptyString => k s
  | String c s' =>
      if inside && is_continuation c then match_any k true s'
      else k s || match_any k (is_lead c) s'
  end.

Fixpoint like_match (pattern : string) : string -> bool :=
  match pattern with
  | EmptyString => fun s => match s with EmptyString => true | _ => false end
  | String p pattern' =>
      if Ascii.eqb p "%" then match_any (like_match pattern') false
      else if Ascii.eqb p "_" then
        fun s => match skip_char s with
                 | Some s' => like_match pattern' s'
                 | None => false
                 end
      else
        fun s => match s with
                 | String c s' =>
                     Ascii.eqb (to_lower p) (to_lower c) && like_match pattern' s'
                 | EmptyString => false
                 end
  end.

(** [x LIKE pattern]; a [NULL] operand gives [NULL], which no [WHERE]
    accepts. *)
Definition LIKE (x : option string) (pattern : string) : bool :=
  match x with
  | Some s => like_match pattern s
  | None => false
  end.

(** A stable insertion sort, for [ORDER BY]: rows that compare equal keep
    the order they are scanned in. *)
Section Sort.
Context {A : Type} (before : A -> A -> bool).

Fixpoint insert (x : A) (l : list A) : list A :=
  match l with
  | [] => [x]
  | y :: l' => if before y x then y :: insert x l' else x :: l
  end.

Definition ORDER_BY (l : list A) : list A :=
  fold_right insert [] l.
End Sort.

(** *** Aggregates and JavaScript records *)

(** The values of a column, each once, in the order they first appear. *)
Fixpoint distinct_values {K : Type} (same : K -> K -> bool) (column : list K) : list K :=
  match column with
  | [] => []
  | k :: column' =>
      k :: filter (fun k' => negb (same k k')) (distinct_values same column')
  end.

(** [SELECT k, COUNT( * ) ... GROUP BY k] over the values of the grouping
    column: one row per value, with the number of rows that have it.
    SQLite groups by sorting, so the groups come out by ascending value. *)
Definition GROUP_COUNT {K : Type} (same before : K -> K -> bool) (column : list K)
    : list (K * Z) :=
  map (fun k => (k, Z.of_nat (List.length (filter (same k) column))))
    (ORDER_BY before (distinct_values same column)).

(** [NULL] sorts before every text, texts byte by byte. *)
Definition null_first (a b : option string) : bool :=
  match a, b with
  | None, Some _ => true
  | Some x, Some y => String.ltb x y
  | _, None => false
  end.

Definition same_text (a b : option string) : bool :=
  match a, b with
  | None, None => true
  | Some x, Some y => String.eqb x y
  | _, _ => false
  end.

(** A JavaScript object used as a record of numbers: its properties, in
    the order they were created. *)
Definition record := list (string * Z).

(** [o[k] = v] on an object made by [{}]: the property is created, or
    its value replaced.  The key [__proto__] reaches the setter of
    [Object.prototype], which ignores a number: no property is made. *)
Fixpoint set_property (k : string) (v : Z) (o : record) : record :=
  match o with
  | [] => [(k, v)]
  | (k', v') :: o' =>
      if String.eqb k' k then (k', v) :: o' else (k', v') :: set_property k v o'
  end.

Definition assign (k : string) (v : Z) (o : record) : record :=
  if String.eqb k "__proto__" then o else set_property k v o.

(** The own property [k] of [o]. *)
Fixpoint property (k : string) (o : record) : option Z :=
  match o with
  | [] => None
  | (k', v) :: o' => if String.eqb k' k then Some v else property k o'
  end.

(** [for (const row of rows) o[key(row)] = row.count], from [{}]. *)
Definition record_of {K : Type} (key : K -> string) (rows : list (K * Z)) : record :=
  fold_left (fun o row => assign (key (fst row)) (snd row) o) rows [].

End Sql.

(** ** JSON texts: [JSON.stringify] and [JSON.parse]

    The values are the JSON values whose numbers are integers (a
    JavaScript number is a double; the integers up to 2^53 - 1 in absolute
    value are the ones it holds exactly and prints without exponent).  A
    string is its UTF-8 text.  An object lists its members in property
    order.  [parse] reads the texts of these values: whitespace, the three
    literals, integers, strings with every escape, arrays and objects; a
    number with a fraction or an exponent is outside the model and is
    refused like a malformed text. *)

Module Json.

#[local] Unset Elimination Schemes.
Inductive json :=
  | JNull
  | JBool (b : bool)
  | JNum (n : Z)
  | JStr (s : string)
  | JArr (items : list json)
  | JObj (members : list (string * json)).
#[local] Set Elimination Schemes.

(** Induction on a JSON value, with the property known of every element
    and of every member. *)
Section Induction.
Variable P : json -> Prop.
Hypothesis HNull : P JNull.
Hypothesis HBool : forall b, P (JBool b).
Hypothesis HNum : forall n, P (JNum n).
Hypothesis HStr : forall s, P (JStr s).
Hypothesis HArr : forall items, Forall P items -> P (JArr items).
Hypothesis HObj :
  forall members, Forall (fun kv => P (snd kv)) members -> P (JObj members).

Fixpoint json_induction (v : json) : P v :=
  match v with
  | JNull => HNull
  | JBool b => HBool b
  | JNum n => HNum n
  | JStr s => HStr s
  | JArr items =>
    HArr items
      ((fix all (l : list json) : Forall P l :=
          match l with
          | [] => Forall_nil P
          | x :: l' => Forall_cons x (json_induction x) (all l')
          end) items)
  | JObj members =>
    HObj members
      ((fix all (l : list (string * json)) : Forall (fun kv => P (snd kv)) l :=
          match l with
          | [] => Forall_nil _
          | kv :: l' => Forall_cons kv (json_induction (snd kv)) (all l')
          end) members)
  end.
End Induction.

Definition dquote : ascii := "034"%char.
Definition backslash : ascii := "092"%char.

(** *** Printing *)

Definition hex_digit (n : Z) : ascii :=
  ascii_of_nat (Z.to_nat (if n <? 10 then 48 + n else 87 + n)).

(** The escape of one character inside a string literal (QuoteJSONString). *)
Definition escape_char (c : ascii) : string :=
  let n := Sql.byte c in
  if n =? 34 then String backslash (String dquote "")
  else if n =? 92 then String backslash (String backslash "")
  else if n =? 8 then String backslash "b"
  else if n =? 12 then String backslash "f"
  else if n =? 10 then String backslash "n"
  else if n =? 13 then String backslash "r"
  else if n =? 9 then String backslash "t"
  else if n <? 32 then
    String backslash
      (String "u" (String "0" (String "0"
        (String (hex_digit (n / 16)) (String (hex_digit (n mod 16)) "")))))
  else String c "".

Fixpoint escape (s : string) : string :=
  match s with
  | EmptyString => ""
  | String c s' => escape_char c ++ escape s'
  end.

Definition quote_string (s : string) : string :=
  String dquote (escape s ++ String dquote "").

Definition number_string (n : Z) : string :=
  NilZero.string_of_int (Z.to_int n).

Section Texts.
Variable text : json -> string.

(** The elements of an array after its opening bracket, up to and
    with the closing one. *)
Fixpoint elements_text (l : list json) : string :=
  match l with
  | [] => "]"
  | x :: l' =>
    match l' with
    | [] => text x ++ "]"
    | _ :: _ => text x ++ "," ++ elements_text l'
    end
  end.

(** The members of an object after its opening brace, up to and with
    the closing one. *)
Fixpoint members_text (l : list (string * json)) : string :=
  match l with
  | [] => "}"
  | (k, x) :: l' =>
    match l' with
    | [] => quote_string k ++ ":" ++ text x ++ "}"
    | _ :: _ => quote_string k ++ ":" ++ text x ++ "," ++ members_text l'
    end
  end.
End Texts.

(** [JSON.stringify v], without indentation. *)
Fixpoint stringify (v : json) : string :=
  match v with
  | JNull => "null"
  | JBool true => "true"
  | JBool false => "false"
  | JNum n => number_string n
  | JStr s => quote_string s
  | JArr items => "[" ++ elements_text stringify items
  | JObj members => "{" ++ members_text stringify members
  end.

(** *** Reading *)

Definition is_ws (c : ascii) : bool :=
  let n := Sql.byte c in
  (n =? 32) || (n =? 9) || (n =? 10) || (n =? 13).

Fixpoint skip_ws (s : string) : string :=
  match s with
  | String c s' => if is_ws c then skip_ws s' else s
  | EmptyString => s
  end.

Fixpoint strip_prefix (p s : string) : option string :=
  match p, s with
  | EmptyString, _ => Some s
  | String a p', String b s' => if Ascii.eqb a b then strip_prefix p' s' else None
  | String _ _, EmptyString => None
  end.

Definition is_digit (c : ascii) : bool :=
  (48 <=? Sql.byte c) && (Sql.byte c <=? 57).

Fixpoint digits_span (s : string) : string * string :=
  match s with
  | String c s' =>
      if is_digit c then let (ds, rest) := digits_span s' in (String c ds, rest)
      else ("", s)
  | EmptyString => ("", "")
  end.

Definition starts_fraction (s : string) : bool :=
  match s with
  | String c _ => Ascii.eqb c "." || Ascii.eqb c "e" || Ascii.eqb c "E"
  | EmptyString => false
  end.

Definition leading_zero (ds : string) : bool :=
  match ds with
  | String c (String _ _) => Ascii.eqb c "0"
  | _ => false
  end.

Definition parse_number (s : string) : option (Z * string) :=
  let (negative, s1) :=
    match s with
    | String c s' => if Ascii.eqb c "-" then (true, s') else (false, s)
    | EmptyString => (false, s)
    end in
  let (ds, rest) := digits_span s1 in
  if leading_zero ds || starts_fraction rest then None
  else
    match NilZero.uint_of_string ds with
    | Some u => Some (if negative then - Z.of_uint u else Z.of_uint u, rest)
    | None => None
    end.

Definition hex_value (c : ascii) : option Z :=
  let n := Sql.byte c in
  if (48 <=? n) && (n <=? 57) then Some (n - 48)
  else if (97 <=? n) && (n <=? 102) then Some (n - 87)
  else if (65 <=? n) && (n <=? 70) then Some (n - 55)
  else None.

Definition hex4 (a b c d : ascii) : option Z :=
  match hex_value a, hex_value b, hex_value c, hex_value d with
  | Some x, Some y, Some z, Some w => Some (((x * 16 + y) * 16 + z) * 16 + w)
  | _, _, _, _ => None
  end.

Definition chr (n : Z) : ascii := ascii_of_nat (Z.to_nat n).

(** UTF-8 of a code point (a lone surrogate is written like any other
    three-byte code point). *)
Definition utf8 (cp : Z) : string :=
  if cp <? 128 then String (chr cp) ""
  else if cp <? 2048 then
    String (chr (192 + cp / 64)) (String (chr (128 + cp mod 64)) "")
  else if cp <? 65536 then
    String (chr (224 + cp / 4096))
      (String (chr (128 + (cp / 64) mod 64)) (String (chr (128 + cp mod 64)) ""))
  else
    String (chr (240 + cp / 262144))
      (String (chr (128 + (cp / 4096) mod 64))
        (String (chr (128 + (cp / 64) mod 64)) (String (chr (128 + cp mod 64)) ""))).

Definition is_high_surrogate (u : Z) : bool := (55296 <=? u) && (u <=? 56319).
Definition is_low_surrogate (u : Z) : bool := (56320 <=? u) && (u <=? 57343).

(** The low surrogate escape at the head of [s], if there is one. *)
Definition low_surrogate_escape (s : string) : option Z :=
  match s with
  | String e (String u (String a (String b (String c (String d _))))) =>
      if Ascii.eqb e backslash && Ascii.eqb u "u" then
        match hex4 a b c d with
        | Some lo => if is_low_surrogate lo then Some lo else None
        | None => None
        end
      else None
  | _ => None
  end.

Definition simple_escape (c : ascii) : option ascii :=
  let n := Sql.byte c in
  if n =? 34 then Some dquote
  else if n =? 92 then Some backslash
  else if n =? 47 then Some "/"%char
  else if n =? 98 then Some (chr 8)
  else if n =? 102 then Some (chr 12)
  else if n =? 110 then Some (chr 10)
  else if n =? 114 then Some (chr 13)
  else if n =? 116 then Some (chr 9)
  else None.

(** The characters of a string literal after its opening quote, and what
    follows its closing quote.  [pending] is the high surrogate whose
    low half the text at hand must begin with. *)
Fixpoint parse_string_body (pending : option Z) (s : string) : option (string * string) :=
  match s with
  | EmptyString => None
  | String c s' =>
      match pending with
      | Some hi =>
          (* the [\] of the low surrogate escape, already checked *)
          match s' with
          | String _ (String a (String b (String c' (String d rest)))) =>
              match hex4 a b c' d with
              | Some lo =>
                  match parse_string_body None rest with
                  | Some (str, after) =>
                      Some (utf8 (65536 + (hi - 55296) * 1024 + (lo - 56320)) ++ str, after)
                  | None => None
                  end
              | None => None
              end
          | _ => None
          end
      | None =>
          if Ascii.eqb c dquote then Some ("", s')
          else if Ascii.eqb c backslash then
            match s' with
            | String e rest =>
                if Ascii.eqb e "u" then
                  match rest with
                  | String a (String b (String c' (String d rest'))) =>
                      match hex4 a b c' d with
                      | Some u =>
                          if is_high_surrogate u then
                            match low_surrogate_escape rest' with
                            | Some _ => parse_string_body (Some u) rest'
                            | None =>
                                match parse_string_body None rest' with
                                | Some (str, after) => Some (utf8 u ++ str, after)
                                | None => None
                                end
                            end
                          else
                            match parse_string_body None rest' with
                            | Some (str, after) => Some (utf8 u ++ str, after)
                            | None => None
                            end
                      | None => None
                      end
                  | _ => None
                  end
                else
                  match simple_escape e with
                  | Some x =>
                      match parse_string_body None rest with
                      | Some (str, after) => Some (String x str, after)
                      | None => None
                      end
                  | None => None
                  end
            | EmptyString => None
            end
          else if Sql.byte c <? 32 then None
          else
            match parse_string_body None s' with
            | Some (str, after) => Some (String c str, after)
            | None => None
            end
      end
  end.

(** [JSON.parse] keeps one member per key: a later member with a key
    already seen replaces the value of the earlier one. *)
Fixpoint set_member (k : string) (v : json) (l : list (string * json)) : list (string * json) :=
  match l with
  | [] => [(k, v)]
  | (k', v') :: l' =>
      if String.eqb k' k then (k', v) :: l' else (k', v') :: set_member k v l'
  end.

Definition object_of (l : list (string * json)) : list (string * json) :=
  fold_left (fun acc kv => set_member (fst kv) (snd kv) acc) l [].

Definition head_is (c : ascii) (s : string) : option string :=
  match s with
  | String c' s' => if Ascii.eqb c' c then Some s' else None
  | EmptyString => None
  end.

(** What the first character of a value announces. *)
Inductive start :=
  | StartNull | StartTrue | StartFalse | StartString | StartArray | StartObject
  | StartNumber.

Definition start_of (c : ascii) : start :=
  if Ascii.eqb c "n" then StartNull
  else if Ascii.eqb c "t" then StartTrue
  else if Ascii.eqb c "f" then StartFalse
  else if Ascii.eqb c dquote then StartString
  else if Ascii.eqb c "[" then StartArray
  else if Ascii.eqb c "{" then StartObject
  else StartNumber.

Fixpoint parse_value (fuel : nat) (s : string) : option (json * string) :=
  match fuel with
  | O => None
  | S fuel' =>
      match skip_ws s with
      | EmptyString => None
      | String c s' =>
          match start_of c with
          | StartNull => option_map (pair JNull) (strip_prefix "ull" s')
          | StartTrue => option_map (pair (JBool true)) (strip_prefix "rue" s')
          | StartFalse => option_map (pair (JBool false)) (strip_prefix "alse" s')
          | StartString =>
              match parse_string_body None s' with
              | Some (str, rest) => Some (JStr str, rest)
              | None => None
              end
          | StartArray =>
              match head_is "]" (skip_ws s') with
              | Some rest => Some (JArr [], rest)
              | None =>
                  match parse_elements fuel' s' with
                  | Some (items, rest) => Some (JArr items, rest)
                  | None => None
                  end
              end
          | StartObject =>
              match head_is "}" (skip_ws s') with
              | Some rest => Some (JObj [], rest)
              | None =>
                  match parse_members fuel' s' with
                  | Some (members, rest) => Some (JObj (object_of members), rest)
                  | None => None
                  end
              end
          | StartNumber =>
              match parse_number (String c s') with
              | Some (n, rest) => Some (JNum n, rest)
              | None => None
              end
          end
      end
  end

with parse_elements (fuel : nat) (s : string) : option (list json * string) :=
  match fuel with
  | O => None
  | S fuel' =>
      match parse_value fuel' s with
      | Some (v, rest) =>
          match skip_ws rest with
          | String c rest' =>
              if Ascii.eqb c "," then
                match parse_elements fuel' rest' with
                | Some (vs, after) => Some (v :: vs, after)
                | None => None
                end
              else if Ascii.eqb c "]" then Some ([v], rest')
              else None
          | EmptyString => None
          end
      | None => None
      end
  end

with parse_members (fuel : nat) (s : string) : option (list (string * json) * string) :=
  match fuel with
  | O => None
  | S fuel' =>
      match head_is dquote (skip_ws s) with
      | Some s1 =>
          match parse_string_body None s1 with
          | Some (k, s2) =>
              match head_is ":" (skip_ws s2) with
              | Some s3 =>
                  match parse_value fuel' s3 with
                  | Some (v, rest) =>
                      match skip_ws rest with
                      | String c rest' =>
                          if Ascii.eqb c "," then
                            match parse_members fuel' rest' with
                            | Some (kvs, after) => Some ((k, v) :: kvs, after)
                            | None => None
                            end
                          else if Ascii.eqb c "}" then Some ([(k, v)], rest')
                          else None
                      | EmptyString => None
                      end
                  | None => None
                  end
              | None => None
              end
          | None => None
          end
      | None => None
      end
  end.

(** [JSON.parse text]: [None] stands for the [SyntaxError] it throws. *)
Definition parse (text : string) : option json :=
  match parse_value (S (String.length text)) text with
  | Some (v, rest) =>
      match skip_ws rest with
      | EmptyString => Some v
      | String _ _ => None
      end
  | None => None
  end.

(** What can follow a value in a text that [stringify] writes: the end,
    or the comma, bracket or brace that closes it. *)
Definition ends_value (rest : string) : bool :=
  match rest with
  | EmptyString => true
  | String c _ => Ascii.eqb c "," || Ascii.eqb c "]" || Ascii.eqb c "}"
  end.

(** The fuel [parse_value] needs on the text of a value. *)
Section Sizes.
Variable size : json -> nat.

Fixpoint size_elements (l : list json) : nat :=
  match l with
  | [] => O
  | x :: l' => S (size x + size_elements l')
  end.

Fixpoint size_members (l : list (string * json)) : nat :=
  match l with
  | [] => O
  | kv :: l' => S (size (snd kv) + size_members l')
  end.
End Sizes.

Fixpoint size (v : json) : nat :=
  match v with
  | JArr items => S (size_elements size items)
  | JObj members => S (size_members size members)
  | _ => 1%nat
  end.

(** The values [stringify] and [parse] are inverse on: every number a
    safe integer, no object with two members of one key. *)
Definition safe_integer (n : Z) : bool := Z.abs n <=? 9007199254740991.

Fixpoint distinct (l : list string) : bool :=
  match l with
  | [] => true
  | k :: l' => negb (existsb (String.eqb k) l') && distinct l'
  end.

Fixpoint serializable (v : json) : bool :=
  match v with
  | JNull | JBool _ | JStr _ => true
  | JNum n => safe_integer n
  | JArr items => forallb serializable items
  | JObj members =>
      distinct (map fst members) && forallb (fun kv => serializable (snd kv)) members
  end.

(** *** Vocabulary of the round trip *)

Definition all_digits (s : string) : Prop :=
  forall c, In c (list_ascii_of_string s) -> is_digit c = true.

Definition no_digit_ahead (rest : string) : Prop :=
  match rest with
  | EmptyString => True
  | String c _ => is_digit c = false
  end.

(** A character that can begin the text of a value and is neither
    whitespace nor a closing bracket or brace. *)
Definition opens_value (c : ascii) : Prop :=
  is_ws c = false /\ Ascii.eqb c "]" = false /\ Ascii.eqb c "}" = false.

(** [parse_value] reads the text of [v] back, given the fuel, and leaves
    what follows it. *)
Definition round_trips (v : json) : Prop :=
  serializable v = true ->
  forall fuel rest,
    (size v <= fuel)%nat -> ends_value rest = true ->
    parse_value fuel (stringify v ++ rest) = Some (v, rest).

End Json.

(** ** tools/memory.ts *)

Module Memory.

(** A row of table [memory]. *)
Record MemoryEntry := {
  id : Z;
  key : string;
  content : string;
  tags : option string;
  scope : string;
  source : option string;
  created_at : string;
  updated_at : string
}.

Definition with_key (k : string) (row : MemoryEntry) : bool :=
  String.eqb (key row) k.

Definition in_scope (sc : string) (row : MemoryEntry) : bool :=
  String.eqb (scope row) sc.

(** [INSERT INTO memory (key, content, tags, scope, source, updated_at)
     VALUES (?, ?, ?, ?, ?, CURRENT_TIMESTAMP)
     ON CONFLICT(key) DO UPDATE SET content, tags, scope, source,
     updated_at = CURRENT_TIMESTAMP].  A new row takes [created_at] from
    the column default, [CURRENT_TIMESTAMP]. *)
Definition upsert (ts k c : string) (tg : option string) (sc src : string)
    (memory : list MemoryEntry) : list MemoryEntry :=
  if existsb (with_key k) memory then
    map (fun row =>
           if with_key k row then
             {| id := id row; key := key row; content := c; tags := tg;
                scope := sc; source := Some src;
                created_at := created_at row; updated_at := ts |}
           else row) memory
  else
    memory ++
    [ {| id := Sql.next_rowid (map id memory); key := k; content := c;
         tags := tg; scope := sc; source := Some src;
         created_at := ts; updated_at := ts |} ].

(** The answer [{ success: true, key }]. *)
Definition memoryWrite (now : Z) (key content : string)
    (tags : option (list string)) (scope source : option string)
    (memory : list MemoryEntry) : (bool * string) * list MemoryEntry :=
  let scope := match scope with Some s => s | None => "global" end in
  let source := match source with Some s => s | None => "manual" end in
  let tagsJson :=
    match tags with
    | Some l => Some (Json.stringify (Json.JArr (map Json.JStr l)))
    | None => None
    end in
  ((true, key),
   upsert (Time.CURRENT_TIMESTAMP now) key content tagsJson scope source memory).

Definition memoryRead (key : string) (memory : list MemoryEntry) : option MemoryEntry :=
  find (with_key key) memory.

Section Search.

(** The FTS5 engine.  The index [memory_fts] holds, for every row of
    [memory], its rowid with the columns [key], [content] and [tags]
    (triggers [memory_ai], [memory_ad], [memory_au] keep it so).
    [MATCH query index] is what the engine makes of a query text:
    the rowids of the documents it matches, best rank first, or the
    error code of a text it cannot read as a query. *)
Variable MATCH :
  string -> list (Z * (string * string * option string)) -> sqlite_code + list Z.

Definition memory_fts (memory : list MemoryEntry)
  : list (Z * (string * string * option string)) :=
  map (fun row => (id row, (key row, content row, tags row))) memory.

(** [SELECT m.* FROM memory m JOIN memory_fts fts ON m.id = fts.rowid
    WHERE memory_fts MATCH ? (AND m.scope = ?) ORDER BY rank LIMIT ?]. *)
Definition memorySearch (query : string) (scope : option string)
  (limit : option Z) (memory : list MemoryEntry) : result (list MemoryEntry) :=
  let limit := match limit with Some n => n | None => 20 end in
  match MATCH query (memory_fts memory) with
  | inl code => Throw (SqliteError code)
  | inr rowids =>
    let joined :=
      flat_map (fun rowid => filter (fun row => id row =? rowid) memory) rowids in
    let rows :=
      match Sql.or_null scope with
      | Some sc => filter (in_scope sc) joined
      | None => joined
      end in
    Ok (Sql.LIMIT limit rows)
  end.

End Search.

(** [ORDER BY updated_at DESC]: [a] sorts strictly before [b]. *)
Definition updated_after (a b : MemoryEntry) : bool :=
  String.ltb (updated_at b) (updated_at a).

(** [key LIKE ?] with the argument [prefix%]. *)
Definition key_like (prefix : string) (row : MemoryEntry) : bool :=
  Sql.like_match (prefix ++ "%") (key row).

(** [SELECT * FROM memory WHERE 1=1 (AND scope = ?) (AND key LIKE ?)
     ORDER BY updated_at DESC LIMIT ?]. *)
Definition memoryList (scope prefix : option string) (limit : option Z)
    (memory : list MemoryEntry) : list MemoryEntry :=
  let limit := match limit with Some n => n | None => 100 end in
  let rows :=
    match Sql.or_null scope with
    | Some sc => filter (in_scope sc) memory
    | None => memory
    end in
  let rows :=
    match Sql.or_null prefix with
    | Some p => filter (key_like p) rows
    | None => rows
    end in
  Sql.LIMIT limit (Sql.ORDER_BY updated_after rows).

(** The answer [{ success: true, deleted }] of
    [DELETE FROM memory WHERE key = ?]; [deleted] is [changes > 0]. *)
Definition memoryDelete (key : string) (memory : list MemoryEntry)
    : (bool * bool) * list MemoryEntry :=
  ((true, existsb (with_key key) memory),
   filter (fun row => negb (with_key key row)) memory).

Record MemoryStats := {
  total : Z;
  byScope : Sql.record;
  bySource : Sql.record
}.

(** [bySource[row.source || 'unknown']]. *)
Definition source_key (src : option string) : string :=
  match Sql.or_null src with
  | Some s => s
  | None => "unknown"
  end.

Definition memoryStats (memory : list MemoryEntry) : MemoryStats :=
  {| total := Z.of_nat (List.length memory);
     byScope :=
       Sql.record_of (fun sc => sc)
         (Sql.GROUP_COUNT String.eqb String.ltb (map scope memory));
     bySource :=
       Sql.record_of source_key
         (Sql.GROUP_COUNT Sql.same_text Sql.null_first (map source memory)) |}.

End Memory.

(** ** tools/failures.ts *)

Module Failures.

(** A row of table [failures]. *)
Record Failure := {
  id : Z;
  error_pattern : string;
  error_message : option string;
  solution : option string;
  skill_name : option string;
  project_path : option string;
  occurrence_count : Z;
  last_seen_at : string;
  created_at : string
}.

Definition with_pattern (p : string) (row : Failure) : bool :=
  String.eqb (error_pattern row) p.

(** [UPDATE failures SET occurrence_count = occurrence_count + 1,
    last_seen_at = CURRENT_TIMESTAMP, solution = COALESCE(?, solution),
    error_message = COALESCE(?, error_message) WHERE id = ?]. *)
Definition bumped (ts : string) (sol msg : option string) (row : Failure) : Failure :=
  {| id := id row; error_pattern := error_pattern row;
     error_message := Sql.COALESCE msg (error_message row);
     solution := Sql.COALESCE sol (solution row);
     skill_name := skill_name row; project_path := project_path row;
     occurrence_count := occurrence_count row + 1;
     last_seen_at := ts; created_at := created_at row |}.

Definition bump (ts : string) (sol msg : option string) (rowid : Z)
    (failures : list Failure) : list Failure :=
  map (fun row => if id row =? rowid then bumped ts sol msg row else row) failures.

(** [INSERT INTO failures (error_pattern, error_message, solution,
     skill_name, project_path) VALUES (?, ?, ?, ?, ?)]; the other columns
    take their defaults: [occurrence_count] 1, both timestamps
    [CURRENT_TIMESTAMP]. *)
Definition insert (ts p : string) (msg sol skill path : option string)
    (failures : list Failure) : list Failure :=
  failures ++
  [ {| id := Sql.next_rowid (map id failures); error_pattern := p;
       error_message := msg; solution := sol; skill_name := skill;
       project_path := path; occurrence_count := 1;
       last_seen_at := ts; created_at := ts |} ].

(** The answer [{ success: true, failure }], [failure] being the row the
    last [SELECT] finds ([None] for JavaScript's [undefined]). *)
Definition failureRecord (now : Z) (error_pattern : string)
    (error_message solution skill_name project_path : option string)
    (failures : list Failure) : (bool * option Failure) * list Failure :=
  let ts := Time.CURRENT_TIMESTAMP now in
  let existing := find (with_pattern error_pattern) failures in
  let failures' :=
    match existing with
    | Some row =>
        bump ts (Sql.or_null solution) (Sql.or_null error_message) (id row) failures
    | None =>
        insert ts error_pattern (Sql.or_null error_message) (Sql.or_null solution)
          (Sql.or_null skill_name) (Sql.or_null project_path) failures
    end in
  ((true, find (with_pattern error_pattern) failures'), failures').

Definition failureGet (id : Z) (failures : list Failure) : option Failure :=
  find (fun row => Failures.id row =? id) failures.

(** [ORDER BY occurrence_count DESC, last_seen_at DESC]: [a] sorts strictly
    before [b]. *)
Definition more_common (a b : Failure) : bool :=
  (occurrence_count b <? occurrence_count a)
  || ((occurrence_count a =? occurrence_count b)
      && String.ltb (last_seen_at b) (last_seen_at a)).

Definition of_skill (n : string) (row : Failure) : bool :=
  match skill_name row with
  | Some s => String.eqb s n
  | None => false
  end.

(** [SELECT * FROM failures (WHERE skill_name = ?)
     ORDER BY occurrence_count DESC, last_seen_at DESC LIMIT ?]. *)
Definition failureList (skill_name : option string) (limit : option Z)
    (failures : list Failure) : list Failure :=
  let limit := match limit with Some n => n | None => 50 end in
  match Sql.or_null skill_name with
  | Some n => Sql.LIMIT limit (Sql.ORDER_BY more_common (filter (of_skill n) failures))
  | None => Sql.LIMIT limit (Sql.ORDER_BY more_common failures)
  end.

(** [UPDATE failures SET solution = ? WHERE id = ?]. *)
Definition solved (sol : string) (row : Failure) : Failure :=
  {| id := id row; error_pattern := error_pattern row;
     error_message := error_message row; solution := Some sol;
     skill_name := skill_name row; project_path := project_path row;
     occurrence_count := occurrence_count row;
     last_seen_at := last_seen_at row; created_at := created_at row |}.

(** The answer [{ success: true }]. *)
Definition failureUpdate (id : Z) (solution : string) (failures : list Failure)
    : bool * list Failure :=
  (true, map (fun row => if Failures.id row =? id then solved solution row else row) failures).

(** The answer [{ success: true, deleted }]. *)
Definition failureDelete (id : Z) (failures : list Failure)
    : (bool * bool) * list Failure :=
  ((true, existsb (fun row => Failures.id row =? id) failures),
   filter (fun row => negb (Failures.id row =? id)) failures).

(** [ORDER BY occurrence_count DESC]: [a] sorts strictly before [b]. *)
Definition occurs_more (a b : Failure) : bool :=
  occurrence_count b <? occurrence_count a.

Record FailureStats := {
  total : Z;
  with_solution : Z;
  most_common : option Failure;
  by_skill : Sql.record
}.

(** The skill names of the rows [WHERE skill_name IS NOT NULL]. *)
Fixpoint skill_names (failures : list Failure) : list string :=
  match failures with
  | [] => []
  | row :: failures' =>
      match skill_name row with
      | Some s => s :: skill_names failures'
      | None => skill_names failures'
      end
  end.

Definition failureStats (failures : list Failure) : FailureStats :=
  {| total := Z.of_nat (List.length failures);
     with_solution :=
       Z.of_nat (List.length
                   (filter (fun row => match solution row with
                                       | Some _ => true
                                       | None => false
                                       end) failures));
     most_common := hd_error (Sql.ORDER_BY occurs_more failures);
     by_skill :=
       Sql.record_of (fun s => s)
         (Sql.GROUP_COUNT String.eqb String.ltb (skill_names failures)) |}.

Section Search.

(** The FTS5 engine over the index [failures_fts], which holds for every
    row of [failures] its rowid with [error_pattern], [error_message] and
    [solution]: the rowids of the documents a query matches, best rank
    first, or the error code of a text it cannot read as a query. *)
Variable MATCH :
  string -> list (Z * (string * option string * option string)) -> sqlite_code + list Z.



End Search.

End Failures.

(** ** tools/skills.ts *)

Module Skills.

(** A row of table [skills]. *)
Record Skill := {
  id : Z;
  name : string;
  version : string;
  source : string;
  project_path : option string;
  installed_by : option string;
  installed_at : string;
  last_used_at : option string;
  use_count : Z
}.

(** A row of table [skill_usage] (the [u] of the queries); [u_success] is
    the tri-state column [success]: [NULL], 1 or 0. *)
Record SkillUsage := {
  u_id : Z;
  u_skill_name : string;
  u_project_path : option string;
  u_started_at : option string;
  u_completed_at : option string;
  u_success : option bool;
  u_outcome : option string;
  u_tokens_used : option Z;
  u_notes : option string
}.

(** The two tables the skill tools work on.  [skill_usage.skill_name]
    is declared [REFERENCES skills(name)], and the connection is opened
    with [foreign_keys = ON]. *)
Record Tables := {
  skills : list Skill;
  skill_usage : list SkillUsage
}.

Definition named (n : string) (s : Skill) : bool := String.eqb (name s) n.

Definition usage_with_id (i : Z) (u : SkillUsage) : bool := u_id u =? i.

(** [INSERT INTO skills (name, version, source, project_path, installed_by)
    VALUES (?, ?, ?, ?, ?) ON CONFLICT(name) DO UPDATE SET version,
    source, project_path]. *)
Definition upsert (ts n v src : string) (path by_ : option string)
    (l : list Skill) : list Skill :=
  if existsb (named n) l then
    map (fun s =>
           if named n s then
             {| id := id s; name := name s; version := v; source := src;
                project_path := path; installed_by := installed_by s;
                installed_at := installed_at s; last_used_at := last_used_at s;
                use_count := use_count s |}
           else s) l
  else
    l ++
    [ {| id := Sql.next_rowid (map id l); name := n; version := v; source := src;
         project_path := path; installed_by := by_; installed_at := ts;
         last_used_at := None; use_count := 0 |} ].

Definition skillGet (name : string) (t : Tables) : option Skill :=
  find (named name) (skills t).

(** The answer [{ success: true, skill }]. *)
Definition skillRegister (now : Z) (name version source : string)
    (project_path installed_by : option string) (t : Tables)
    : (bool * option Skill) * Tables :=
  let t' :=
    {| skills := upsert (Time.CURRENT_TIMESTAMP now) name version source
                   (Sql.or_null project_path) (Sql.or_null installed_by) (skills t);
       skill_usage := skill_usage t |} in
  ((true, skillGet name t'), t').

(** [UPDATE skills SET last_used_at = CURRENT_TIMESTAMP WHERE name = ?]. *)
Definition touched (ts : string) (s : Skill) : Skill :=
  {| id := id s; name := name s; version := version s; source := source s;
     project_path := project_path s; installed_by := installed_by s;
     installed_at := installed_at s; last_used_at := Some ts;
     use_count := use_count s |}.

Definition touch (ts n : string) (l : list Skill) : list Skill :=
  map (fun s => if named n s then touched ts s else s) l.

(** [UPDATE skills SET use_count = use_count + 1 WHERE name = ?]. *)
Definition counted (s : Skill) : Skill :=
  {| id := id s; name := name s; version := version s; source := source s;
     project_path := project_path s; installed_by := installed_by s;
     installed_at := installed_at s; last_used_at := last_used_at s;
     use_count := use_count s + 1 |}.

Definition count_use (n : string) (l : list Skill) : list Skill :=
  map (fun s => if named n s then counted s else s) l.

(** The answer [{ success: true, usage_id }].  The [INSERT] into
    [skill_usage] is refused by the foreign key when no skill has the
    name; the exception leaves the function before the [UPDATE]. *)
Definition skillUsageStart (now : Z) (skill_name : string)
    (project_path : option string) (t : Tables) : result (bool * Z) * Tables :=
  let ts := Time.CURRENT_TIMESTAMP now in
  if existsb (named skill_name) (skills t) then
    let usage_id := Sql.next_rowid (map u_id (skill_usage t)) in
    let row :=
      {| u_id := usage_id; u_skill_name := skill_name;
         u_project_path := Sql.or_null project_path;
         u_started_at := Some ts; u_completed_at := None; u_success := None;
         u_outcome := None; u_tokens_used := None; u_notes := None |} in
    (Ok (true, usage_id),
     {| skills := touch ts skill_name (skills t);
        skill_usage := skill_usage t ++ [row] |})
  else (Throw (SqliteError SQLITE_CONSTRAINT_FOREIGNKEY), t).

(** [UPDATE skill_usage SET completed_at = CURRENT_TIMESTAMP, success = ?,
    outcome = ?, tokens_used = ?, notes = ? WHERE id = ?]. *)
Definition completed (ts : string) (ok : bool) (out : option string)
    (tokens : option Z) (nts : option string) (u : SkillUsage) : SkillUsage :=
  {| u_id := u_id u; u_skill_name := u_skill_name u;
     u_project_path := u_project_path u; u_started_at := u_started_at u;
     u_completed_at := Some ts; u_success := Some ok;
     u_outcome := out; u_tokens_used := tokens; u_notes := nts |}.

Definition complete (ts : string) (ok : bool) (out : option string)
    (tokens : option Z) (nts : option string) (i : Z)
    (l : list SkillUsage) : list SkillUsage :=
  map (fun u => if usage_with_id i u then completed ts ok out tokens nts u else u) l.

(** The answer [{ success: true }]. *)
Definition skillUsageEnd (now : Z) (usage_id : Z) (success : bool)
    (outcome : option string) (tokens_used : option Z) (notes : option string)
    (t : Tables) : bool * Tables :=
  let usages :=
    complete (Time.CURRENT_TIMESTAMP now) success (Sql.or_null outcome)
      (Sql.or_null_num tokens_used) (Sql.or_null notes) usage_id (skill_usage t) in
  let usage := find (usage_with_id usage_id) usages in
  (true,
   {| skills :=
        match usage with
        | Some u => count_use (u_skill_name u) (skills t)
        | None => skills t
        end;
      skill_usage := usages |}).

(** *** skillRecommend

    [success_rate] is an SQL [REAL]; the model keeps the exact quotient,
    of which SQLite returns the nearest double. *)
Record Recommendation := {
  skill : Skill;
  success_rate : Q;
  usage_count : Z
}.

(** [skills s LEFT JOIN skill_usage u ON s.name = u.skill_name], the rows
    of one [s]: its usages, or one row with every [u] column [NULL]. *)
Definition LEFT_JOIN (s : Skill) (usages : list SkillUsage) : list (option SkillUsage) :=
  match filter (fun u => String.eqb (name s) (u_skill_name u)) usages with
  | [] => [None]
  | us => map Some us
  end.

(** [WHERE u.project_path LIKE ?]. *)
Definition path_like (pattern : string) (row : option SkillUsage) : bool :=
  match row with
  | Some u => Sql.LIKE (u_project_path u) pattern
  | None => false
  end.

(** [CASE WHEN u.success THEN 1.0 ELSE 0.0 END]: a [NULL] condition
    takes the [ELSE] branch. *)
Definition success_case (row : option SkillUsage) : Z :=
  match row with
  | Some u => match u_success u with Some true => 1 | _ => 0 end
  | None => 0
  end.

(** [AVG] of non-[NULL] values: [NULL] over no row. *)
Definition AVG (values : list Z) : option Q :=
  match values with
  | [] => None
  | _ => Some (Qmake (fold_right Z.add 0 values) (Pos.of_nat (List.length values)))
  end.

(** [COUNT(u.id)]: the rows whose [u.id] is not [NULL]. *)
Definition COUNT_u_id (rows : list (option SkillUsage)) : Z :=
  Z.of_nat (List.length (filter (fun row => match row with Some _ => true | None => false end) rows)).

(** The select list over one group of [GROUP BY s.id]. *)
Definition aggregate (s : Skill) (rows : list (option SkillUsage)) : Recommendation :=
  {| skill := s;
     success_rate :=
       match Sql.COALESCE (AVG (map success_case rows)) (Some (Qmake 0 1)) with
       | Some q => q
       | None => Qmake 0 1
       end;
     usage_count := COUNT_u_id rows |}.

(** [ORDER BY success_rate DESC, usage_count DESC]: [a] sorts strictly
    before [b]. *)
Definition ranks_before (a b : Recommendation) : bool :=
  let ra := success_rate a in
  let rb := success_rate b in
  negb (Qle_bool ra rb)
  || (Qeq_bool ra rb && (usage_count b <? usage_count a)).

(** The groups of the query, one per skill that keeps a joined row. *)
Definition groups (keep : option SkillUsage -> bool) (t : Tables)
    : list (Skill * list (option SkillUsage)) :=
  filter (fun g => match snd g with [] => false | _ => true end)
    (map (fun s => (s, filter keep (LEFT_JOIN s (skill_usage t)))) (skills t)).

Definition skillRecommend (project_type : option string) (limit : option Z)
    (t : Tables) : list Recommendation :=
  let limit := match limit with Some n => n | None => 5 end in
  match Sql.or_null project_type with
  | Some project_type =>
      let pattern := "%" ++ project_type ++ "%" in
      let rows := map (fun g => aggregate (fst g) (snd g)) (groups (path_like pattern) t) in
      let having := filter (fun r => 0 <? usage_count r) rows in
      Sql.LIMIT limit (Sql.ORDER_BY ranks_before having)
  | None =>
      let rows := map (fun g => aggregate (fst g) (snd g)) (groups (fun _ => true) t) in
      Sql.LIMIT limit (Sql.ORDER_BY ranks_before rows)
  end.

(** The row of a skill after [ON CONFLICT(name) DO UPDATE SET version,
    source, project_path]. *)
Definition registered (v src : string) (path : option string) (s : Skill) : Skill :=
  {| id := id s; name := name s; version := v; source := src;
     project_path := path; installed_by := installed_by s;
     installed_at := installed_at s; last_used_at := last_used_at s;
     use_count := use_count s |}.

(** [ORDER BY use_count DESC, name]: [a] sorts strictly before [b]. *)
Definition used_more (a b : Skill) : bool :=
  (use_count b <? use_count a)
  || ((use_count a =? use_count b) && String.ltb (name a) (name b)).

(** [WHERE project_path = ? OR project_path IS NULL]. *)
Definition at_path_or_nowhere (path : string) (s : Skill) : bool :=
  match project_path s with
  | Some p => String.eqb p path
  | None => true
  end.

Definition skillList (project_path : option string) (t : Tables) : list Skill :=
  match Sql.or_null project_path with
  | Some path => Sql.ORDER_BY used_more (filter (at_path_or_nowhere path) (skills t))
  | None => Sql.ORDER_BY used_more (skills t)
  end.

Record SkillStats := {
  total_skills : Z;
  total_usages : Z;
  overall_success_rate : Q;
  most_used : option Skill
}.

(** [ORDER BY use_count DESC]: [a] sorts strictly before [b]. *)
Definition counts_more (a b : Skill) : bool :=
  use_count b <? use_count a.

(** [WHERE success IS NOT NULL]. *)
Definition has_outcome (u : SkillUsage) : bool :=
  match u_success u with
  | Some _ => true
  | None => false
  end.

(** [success_rate] is [successResult.rate || 0]: 0 for the [NULL] of an
    average over no row. *)
Definition skillStats (t : Tables) : SkillStats :=
  {| total_skills := Z.of_nat (List.length (skills t));
     total_usages := Z.of_nat (List.length (skill_usage t));
     overall_success_rate :=
       match AVG (map (fun u => success_case (Some u))
                    (filter has_outcome (skill_usage t))) with
       | Some q => q
       | None => Qmake 0 1
       end;
     most_used := hd_error (Sql.ORDER_BY counts_more (skills t)) |}.

End Skills.

(** ** tools/context.ts *)

Module Context.

(** A row of table [context]. *)
Record ContextEntry := {
  id : Z;
  session_id : string;
  key : string;
  value : string;
  skill_name : option string;
  expires_at : option string;
  created_at : string
}.

Definition at_key (sid k : string) (row : ContextEntry) : bool :=
  String.eqb (session_id row) sid && String.eqb (key row) k.

Definition in_session (sid : string) (row : ContextEntry) : bool :=
  String.eqb (session_id row) sid.

(** [INSERT INTO context (session_id, key, value, skill_name, expires_at)
    VALUES (?, ?, ?, ?, ?) ON CONFLICT(session_id, key) DO UPDATE SET
    value, skill_name, expires_at]. *)
Definition upsert (ts sid k val : string) (skill expires : option string)
    (context : list ContextEntry) : list ContextEntry :=
  if existsb (at_key sid k) context then
    map (fun row =>
           if at_key sid k row then
             {| id := id row; session_id := session_id row; key := key row;
                value := val; skill_name := skill; expires_at := expires;
                created_at := created_at row |}
           else row) context
  else
    context ++
    [ {| id := Sql.next_rowid (map id context); session_id := sid; key := k;
         value := val; skill_name := skill; expires_at := expires;
         created_at := ts |} ].

(** [expires_at IS NOT NULL AND expires_at < CURRENT_TIMESTAMP].  Both
    operands are texts (the column keeps the ISO text it was given, which
    is no number), and SQLite compares texts byte by byte. *)
Definition expired (ts : string) (row : ContextEntry) : bool :=
  match expires_at row with
  | Some e => String.ltb e ts
  | None => false
  end.

(** [DELETE FROM context WHERE expires_at IS NOT NULL
    AND expires_at < CURRENT_TIMESTAMP]. *)
Definition purge (now : Z) (context : list ContextEntry) : list ContextEntry :=
  filter (fun row => negb (expired (Time.CURRENT_TIMESTAMP now) row)) context.

(** [ORDER BY created_at DESC]: [a] sorts strictly before [b]. *)
Definition created_after (a b : ContextEntry) : bool :=
  String.ltb (created_at b) (created_at a).

Section Codec.

(** JavaScript values, with [JSON.stringify] and [JSON.parse] ([None]
    for the [SyntaxError] it throws) and the string values. *)
Context {json : Type}.
Variable JSON_stringify : json -> string.
Variable JSON_parse : string -> option json.
Variable of_string : string -> json.

(** The answer [{ success: true, key }].  [expires_in_minutes] is a
    whole number of minutes; [Date.now() + expires_in_minutes * 60 * 1000]
    is exact on these. *)
Definition contextSet (now : Z) (session_id key : string) (value : json)
  (skill_name : option string) (expires_in_minutes : option Z)
  (context : list ContextEntry) : result (bool * string) * list ContextEntry :=
  let valueJson := JSON_stringify value in
  let expiresAt :=
  match Sql.or_null_num expires_in_minutes with
  | Some minutes =>
      match Time.toISOString (now + minutes * 60 * 1000) with
      | Ok iso => Ok (Some iso)
      | Throw e => Throw e
      end
  | None => Ok None
  end in
  match expiresAt with
  | Ok expiresAt =>
    (Ok (true, key),
     upsert (Time.CURRENT_TIMESTAMP now) session_id key valueJson
       (Sql.or_null skill_name) expiresAt context)
  | Throw e => (Throw e, context)
  end.

(** The answer [{ value }], or [null] ([None]). *)
Definition contextGet (now : Z) (session_id key : string)
  (context : list ContextEntry) : option json * list ContextEntry :=
  let context := purge now context in
  let result := find (at_key session_id key) context in
  (match result with
  | None => None
  | Some row =>
     match JSON_parse (value row) with
     | Some v => Some v
     | None => Some (of_string (value row))
     end
  end,
  context).

End Codec.

Definition contextList (now : Z) (session_id : string)
    (context : list ContextEntry) : list ContextEntry * list ContextEntry :=
  let context := purge now context in
  (Sql.ORDER_BY created_after (filter (in_session session_id) context), context).

(** The answer [{ success: true, cleared }]. *)
Definition contextClear (session_id : option string)
    (context : list ContextEntry) : (bool * Z) * list ContextEntry :=
  match Sql.or_null session_id with
  | Some sid =>
      ((true, Z.of_nat (List.length (filter (in_session sid) context))),
       filter (fun row => negb (in_session sid row)) context)
  | None => ((true, Z.of_nat (List.length context)), [])
  end.

(** [WHERE session_id = ? (AND key IN (...))]: every key when [keys] is
    missing or empty. *)
Definition shared_from (from_session : string) (keys : option (list string))
    (row : ContextEntry) : bool :=
  in_session from_session row
  && match keys with
     | Some (k :: ks) => existsb (String.eqb (key row)) (k :: ks)
     | _ => true
     end.

(** The answer [{ success: true, shared }]: the entries are read first,
    then written one by one into the other session. *)
Definition contextShare (now : Z) (from_session to_session : string)
    (keys : option (list string)) (context : list ContextEntry)
    : (bool * Z) * list ContextEntry :=
  let entries := filter (shared_from from_session keys) context in
  ((true, Z.of_nat (List.length entries)),
   fold_left
     (fun table entry =>
        upsert (Time.CURRENT_TIMESTAMP now) to_session (key entry) (value entry)
          (skill_name entry) (expires_at entry) table)
     entries context).

End Context.

(** ** Vocabulary of the properties *)

Module Props.

(** A [memoryWrite] call: the clock and the arguments. *)
Record write := {
  w_now : Z;
  w_key : string;
  w_content : string;
  w_tags : option (list string);
  w_scope : option string;
  w_source : option string
}.

Definition apply_write (memory : list Memory.MemoryEntry) (w : write)
    : list Memory.MemoryEntry :=
  snd (Memory.memoryWrite (w_now w) (w_key w) (w_content w) (w_tags w)
         (w_scope w) (w_source w) memory).

(** The table after a sequence of [memoryWrite] calls. *)
Definition run_writes (ws : list write) (memory : list Memory.MemoryEntry)
    : list Memory.MemoryEntry :=
  fold_left apply_write ws memory.

(** How many rows of [memory] have the key. *)
Definition rows_with_key (k : string) (memory : list Memory.MemoryEntry) : nat :=
  List.length (filter (Memory.with_key k) memory).

(** The constraint [key TEXT UNIQUE] of table [memory]. *)
Definition unique_keys (memory : list Memory.MemoryEntry) : Prop :=
  NoDup (map Memory.key memory).


(** *** skillRecommend *)

(** All the usages of a skill. *)
Definition usages_of (s : Skills.Skill) (t : Skills.Tables) : list Skills.SkillUsage :=
  filter (fun u => String.eqb (Skills.name s) (Skills.u_skill_name u))
    (Skills.skill_usage t).

(** [project_path LIKE '%project_type%'], for a project type that is
    given and not empty; every usage otherwise. *)
Definition passes (project_type : option string) (u : Skills.SkillUsage) : bool :=
  match Sql.or_null project_type with
  | Some p => Sql.LIKE (Skills.u_project_path u) ("%" ++ p ++ "%")
  | None => true
  end.

(** The usages of a skill that a call of skillRecommend looks at. *)
Definition selected (project_type : option string) (s : Skills.Skill)
    (t : Skills.Tables) : list Skills.SkillUsage :=
  filter (passes project_type) (usages_of s t).

(** A usage is completed once skillUsageEnd has set its [success]. *)
Definition is_completed (u : Skills.SkillUsage) : bool :=
  match Skills.u_success u with
  | Some _ => true
  | None => false
  end.

Definition succeeded (u : Skills.SkillUsage) : bool :=
  match Skills.u_success u with
  | Some true => true
  | _ => false
  end.

(** The specification's success rate: the mean of the success flag over
    the completed usages, 0 when there is none. *)
Definition mean_success (usages : list Skills.SkillUsage) : Q :=
  match filter is_completed usages with
  | [] => Qmake 0 1
  | done =>
      Qmake (Z.of_nat (List.length (filter succeeded done)))
            (Pos.of_nat (List.length done))
  end.

(** *** LIKE *)

(** A text with none of the wildcards of LIKE. *)
Fixpoint plain (p : string) : bool :=
  match p with
  | EmptyString => true
  | String c p' => negb (Ascii.eqb c "%") && negb (Ascii.eqb c "_") && plain p'
  end.

(** A text in which no character takes more than one byte starts. *)
Fixpoint single_bytes (s : string) : bool :=
  match s with
  | EmptyString => true
  | String c s' => negb (Sql.is_lead c) && single_bytes s'
  end.

(** *** Orders *)

(** No row of the list sorts strictly before the row ahead of it. *)
Definition in_order {A : Type} (before : A -> A -> bool) (l : list A) : Prop :=
  Sorted (fun a b => before b a = false) l.


(** An engine that matches every document of the index, in rowid order. *)
Definition fts5_match_all {D : Type} (query : string) (index : list (Z * D))
    : sqlite_code + list Z :=
  inr (map fst index).

(** *** memoryList *)

(** The conditions of memoryList on a row: the scope, when one is given,
    and [key LIKE 'prefix%'], when a prefix is. *)
Definition listed (scope prefix : option string) (row : Memory.MemoryEntry) : bool :=
  match Sql.or_null scope with Some sc => Memory.in_scope sc row | None => true end
  && match Sql.or_null prefix with Some p => Memory.key_like p row | None => true end.

(** *** failureRecord *)

(** A [failureRecord] call: the clock and the arguments. *)
Record failure_call := {
  f_now : Z;
  f_pattern : string;
  f_message : option string;
  f_solution : option string;
  f_skill : option string;
  f_path : option string
}.

Definition apply_record (failures : list Failures.Failure) (c : failure_call)
    : list Failures.Failure :=
  snd (Failures.failureRecord (f_now c) (f_pattern c) (f_message c) (f_solution c)
         (f_skill c) (f_path c) failures).

(** The table after a sequence of [failureRecord] calls. *)
Definition run_records (calls : list failure_call) (failures : list Failures.Failure)
    : list Failures.Failure :=
  fold_left apply_record calls failures.

(** The occurrence count on record for a pattern, 0 when it has no row. *)
Definition recorded (p : string) (failures : list Failures.Failure) : Z :=
  match find (Failures.with_pattern p) failures with
  | Some row => Failures.occurrence_count row
  | None => 0
  end.

(** How many of the calls are for the pattern. *)
Definition times (p : string) (calls : list failure_call) : Z :=
  Z.of_nat (List.length (filter (fun c => String.eqb (f_pattern c) p) calls)).

(** *** The skill tables *)

(** What the schema asks of the two tables: [name] is UNIQUE, the rowid of
    a usage is its PRIMARY KEY, and every usage names a registered skill
    (the foreign key). *)
Definition skills_integrity (t : Skills.Tables) : Prop :=
  NoDup (map Skills.name (Skills.skills t)) /\
  NoDup (map Skills.u_id (Skills.skill_usage t)) /\
  forall u, In u (Skills.skill_usage t) ->
            existsb (Skills.named (Skills.u_skill_name u)) (Skills.skills t) = true.

(** A call of one of the three functions that write the skill tables. *)
Inductive skill_op :=
| OpRegister (now : Z) (name version source : string)
    (project_path installed_by : option string)
| OpStart (now : Z) (skill_name : string) (project_path : option string)
| OpEnd (now : Z) (usage_id : Z) (success : bool) (outcome : option string)
    (tokens_used : option Z) (notes : option string).

Definition apply_skill_op (t : Skills.Tables) (op : skill_op) : Skills.Tables :=
  match op with
  | OpRegister now name version source project_path installed_by =>
      snd (Skills.skillRegister now name version source project_path installed_by t)
  | OpStart now skill_name project_path =>
      snd (Skills.skillUsageStart now skill_name project_path t)
  | OpEnd now usage_id success outcome tokens_used notes =>
      snd (Skills.skillUsageEnd now usage_id success outcome tokens_used notes t)
  end.

(** The tables after a sequence of such calls. *)
Definition run_skill_ops (ops : list skill_op) (t : Skills.Tables) : Skills.Tables :=
  fold_left apply_skill_op ops t.

(** The pair a row of table [context] is identified by. *)
Definition context_key (row : Context.ContextEntry) : string * string :=
  (Context.session_id row, Context.key row).

(** [UNIQUE(session_id, key)] of table [context]. *)
Definition context_unique (context : list Context.ContextEntry) : Prop :=
  NoDup (map context_key context).

(** Two rows that carry the same value, skill_name and expires_at. *)
Definition same_content (a b : Context.ContextEntry) : Prop :=
  Context.value a = Context.value b /\
  Context.skill_name a = Context.skill_name b /\
  Context.expires_at a = Context.expires_at b.

(** One turn of the loop of contextShare: the entry is written into the
    other session. *)
Definition share_step (ts to_session : string) (table : list Context.ContextEntry)
    (entry : Context.ContextEntry) : list Context.ContextEntry :=
  Context.upsert ts to_session (Context.key entry) (Context.value entry)
    (Context.skill_name entry) (Context.expires_at entry) table.

(** The keys argument of contextShare lets key [k] through: a missing or
    empty list lets every key through. *)
Definition names_key (keys : option (list string)) (k : string) : bool :=
  match keys with
  | Some (k0 :: ks) => existsb (String.eqb k) (k0 :: ks)
  | _ => true
  end.

End Props.
(** * Properties *)

Local Open Scope list_scope.

(** ** Lists: [find], [filter], [map] and the sort *)

Section ListFacts.

Context {A : Type}.

Lemma find_none_existsb (p : A -> bool) (l : list A) :
  find p l = None <-> existsb p l = false.
Proof.
  induction l as [| x l IH]; simpl.
  - tauto.
  - destruct (p x); simpl; [split; discriminate | exact IH].
Qed.

Lemma find_some_existsb (p : A -> bool) (l : list A) (x : A) :
  find p l = Some x -> existsb p l = true.
Proof.
  intros H. destruct (existsb p l) eqn:E; [reflexivity |].
  apply find_none_existsb in E. congruence.
Qed.

(** A row found before an update that keeps the search key of every row is
    found after it, updated. *)
Lemma find_map_stable (p : A -> bool) (f : A -> A) (l : list A) (x : A) :
  (forall y, p (f y) = p y) ->
  find p l = Some x -> find p (map f l) = Some (f x).
Proof.
  intros Hp. induction l as [| y l IH]; simpl; [discriminate |].
  rewrite Hp. destruct (p y); [intros [= ->]; reflexivity | exact IH].
Qed.

Lemma find_map_none (p : A -> bool) (f : A -> A) (l : list A) :
  (forall y, p (f y) = p y) ->
  find p l = None -> find p (map f l) = None.
Proof.
  intros Hp. induction l as [| y l IH]; simpl; [reflexivity |].
  rewrite Hp. destruct (p y); [discriminate | exact IH].
Qed.

Lemma find_app_new (p : A -> bool) (l : list A) (x : A) :
  find p l = None -> p x = true -> find p (l ++ [x]) = Some x.
Proof.
  induction l as [| y l IH]; simpl; intros Hn Hx.
  - now rewrite Hx.
  - destruct (p y); [discriminate | now apply IH].
Qed.

Lemma find_app_old (p : A -> bool) (l l' : list A) (x : A) :
  find p l = Some x -> find p (l ++ l') = Some x.
Proof.
  induction l as [| y l IH]; simpl; [discriminate |].
  destruct (p y); [trivial | exact IH].
Qed.

Lemma find_app_other (p : A -> bool) (l : list A) (x : A) :
  p x = false -> find p (l ++ [x]) = find p l.
Proof.
  intros Hx. induction l as [| y l IH]; simpl.
  - now rewrite Hx.
  - now destruct (p y).
Qed.

(** A row found in a table is still the one found after a [DELETE] that
    spares it. *)
Lemma find_filter_kept (p q : A -> bool) (l : list A) (x : A) :
  find p l = Some x -> q x = true -> find p (filter q l) = Some x.
Proof.
  induction l as [| y l IH]; simpl; [discriminate |].
  destruct (p y) eqn:Py.
  - intros [= ->] Hq. rewrite Hq. simpl. now rewrite Py.
  - intros Hf Hq. destruct (q y); simpl; [rewrite Py |]; now apply IH.
Qed.

Lemma find_filter_in (p q : A -> bool) (l : list A) (x : A) :
  find p (filter q l) = Some x -> In x l /\ p x = true /\ q x = true.
Proof.
  intros H. apply find_some in H. destruct H as [Hin Hp].
  apply filter_In in Hin. tauto.
Qed.

Section SortFacts.
Variable before : A -> A -> bool.

Lemma insert_In (x y : A) (l : list A) :
  In y (Sql.insert before x l) <-> y = x \/ In y l.
Proof.
  induction l as [| z l IH]; simpl.
  - intuition.
  - destruct (before z x); simpl; rewrite ?IH; intuition.
Qed.

Lemma ORDER_BY_In (y : A) (l : list A) :
  In y (Sql.ORDER_BY before l) <-> In y l.
Proof.
  unfold Sql.ORDER_BY.
  induction l as [| x l IH]; simpl; [tauto |].
  rewrite insert_In, IH. intuition.
Qed.

Lemma insert_length (x : A) (l : list A) :
  List.length (Sql.insert before x l) = S (List.length l).
Proof.
  induction l as [| z l IH]; simpl; [reflexivity |].
  destruct (before z x); simpl; [now rewrite IH | reflexivity].
Qed.

Lemma ORDER_BY_length (l : list A) :
  List.length (Sql.ORDER_BY before l) = List.length l.
Proof.
  unfold Sql.ORDER_BY.
  induction l as [| x l IH]; simpl; [reflexivity |].
  now rewrite insert_length, IH.
Qed.
End SortFacts.

Lemma LIMIT_In (n : Z) (x : A) (l : list A) :
  In x (Sql.LIMIT n l) -> In x l.
Proof.
  unfold Sql.LIMIT. destruct (n <? 0); [trivial |].
  intros H. rewrite <- (firstn_skipn (Z.to_nat n) l).
  apply in_or_app. now left.
Qed.


End ListFacts.

(** ** Time texts *)

Example CURRENT_TIMESTAMP_2024 :
  Time.CURRENT_TIMESTAMP 1704110400000 = "2024-01-01 12:00:00".
Proof. reflexivity. Qed.

Example toISOString_2024 :
  Time.toISOString 1704110340000 = Ok "2024-01-01T11:59:00.000Z".
Proof. reflexivity. Qed.

Example toISOString_leap_day :
  Time.toISOString 951782400123 = Ok "2000-02-29T00:00:00.123Z".
Proof. reflexivity. Qed.

Example toISOString_before_epoch :
  Time.toISOString (-1) = Ok "1969-12-31T23:59:59.999Z".
Proof. reflexivity. Qed.

Example toISOString_out_of_range :
  Time.toISOString 8640000000000001 = Throw RangeError.
Proof. reflexivity. Qed.

(** ** LIKE *)

Section LikeFacts.

Lemma match_any_here (k : string -> bool) (s : string) :
  k s = true -> Sql.match_any k false s = true.
Proof.
  intros H. destruct s as [| c s]; simpl; [exact H |].
  now rewrite H.
Qed.

Lemma match_any_skip (k : string -> bool) (a s : string) :
  Props.single_bytes a = true ->
  Sql.match_any k false s = true ->
  Sql.match_any k false (a ++ s)%string = true.
Proof.
  induction a as [| c a IH]; simpl; intros Ha Hs; [exact Hs |].
  apply andb_prop in Ha. destruct Ha as [Hc Ha].
  apply negb_true_iff in Hc. rewrite Hc.
  rewrite (IH Ha Hs). apply orb_true_r.
Qed.

Lemma match_any_end (inside : bool) (s : string) :
  Sql.match_any (Sql.like_match "") inside s = true.
Proof.
  revert inside. induction s as [| c s IH]; intros inside; simpl; [reflexivity |].
  destruct (inside && Sql.is_continuation c); rewrite IH; reflexivity.
Qed.

Lemma like_match_percent (pattern s : string) :
  Sql.like_match (String "%" pattern) s = Sql.match_any (Sql.like_match pattern) false s.
Proof. reflexivity. Qed.

Lemma to_lower_refl (c : ascii) : Ascii.eqb (Sql.to_lower c) (Sql.to_lower c) = true.
Proof. apply Ascii.eqb_refl. Qed.

Lemma like_match_plain (p rest : string) :
  Props.plain p = true ->
  Sql.like_match (p ++ "%")%string (p ++ rest)%string = true.
Proof.
  induction p as [| c p IH]; intros Hp.
  - cbn [append]. rewrite like_match_percent. apply match_any_end.
  - cbn [Props.plain] in Hp.
    apply andb_prop in Hp. destruct Hp as [Hc Hp].
    apply andb_prop in Hc. destruct Hc as [H1 H2].
    apply negb_true_iff in H1, H2.
    cbn [append Sql.like_match]. rewrite H1, H2, to_lower_refl, (IH Hp).
    reflexivity.
Qed.

(** A path that contains the project type, written the same way, after a
    beginning of one-byte characters, is LIKE the pattern of the query. *)
Lemma LIKE_contains (a p b : string) :
  Props.single_bytes a = true -> Props.plain p = true ->
  Sql.LIKE (Some (a ++ p ++ b)%string) ("%" ++ p ++ "%")%string = true.
Proof.
  intros Ha Hp. unfold Sql.LIKE.
  change ("%" ++ p ++ "%")%string with (String "%" (p ++ "%")).
  rewrite like_match_percent.
  apply match_any_skip; [exact Ha |].
  apply match_any_here. now apply like_match_plain.
Qed.

End LikeFacts.

(** LIKE matches more than the texts that contain the pattern text: the
    case of ASCII letters does not count, and [%] and [_] inside the
    project type are wildcards. *)
Example LIKE_ignores_case :
  Sql.LIKE (Some "/work/TS-app") "%ts%" = true.
Proof. reflexivity. Qed.

Example LIKE_wildcard_in_project_type :
  Sql.LIKE (Some "/work/rust") "%r_st%" = true /\
  Sql.LIKE (Some "/work/rust") "%w%t%" = true /\
  Sql.LIKE (Some "/work/rust") "%python%" = false.
Proof. repeat split. Qed.

Example LIKE_null_path :
  Sql.LIKE None "%ts%" = false.
Proof. reflexivity. Qed.

(** [_] takes one character, of however many bytes. *)
Example LIKE_one_character :
  Sql.like_match "%__" "a€" = true /\ Sql.like_match "%__" "€" = false.
Proof. split; reflexivity. Qed.

(** ** The sort *)

Example ORDER_BY_is_stable :
  Sql.ORDER_BY (fun a b => fst a <? fst b)
    [(3, "a"); (1, "b"); (3, "c"); (1, "d"); (2, "e")]
  = [(1, "b"); (1, "d"); (2, "e"); (3, "a"); (3, "c")].
Proof. reflexivity. Qed.

(** ** JSON: [parse] undoes [stringify] *)

Section StringFacts.

Lemma append_assoc (a b c : string) : ((a ++ b) ++ c)%string = (a ++ (b ++ c))%string.
Proof. induction a as [| x a IH]; simpl; [reflexivity | now rewrite IH]. Qed.

Lemma append_nil_r (a : string) : (a ++ "")%string = a.
Proof. induction a as [| x a IH]; simpl; [reflexivity | now rewrite IH]. Qed.

Lemma length_append (a b : string) :
  String.length (a ++ b) = (String.length a + String.length b)%nat.
Proof. induction a as [| x a IH]; simpl; [reflexivity | now rewrite IH]. Qed.

End StringFacts.

Section JsonFacts.

Import Json.

(** *** Numbers *)

Lemma digits_of_uint (u : Decimal.uint) : all_digits (NilEmpty.string_of_uint u).
Proof.
  unfold all_digits.
  induction u; simpl; intros c H; try tauto;
    (destruct H as [<- | H]; [reflexivity | now apply IHu]).
Qed.

Lemma digits_span_app (ds rest : string) :
  all_digits ds -> no_digit_ahead rest ->
  digits_span (ds ++ rest) = (ds, rest).
Proof.
  unfold all_digits.
  induction ds as [| c ds IH]; simpl; intros Hd Hr.
  - destruct rest as [| c rest]; [reflexivity |].
    simpl in *. now rewrite Hr.
  - rewrite (Hd c) by now left.
    rewrite IH; [reflexivity | | exact Hr].
    intros c' H. apply Hd. now right.
Qed.

(** The decimal digits of a positive number do not begin with a zero. *)
Lemma to_uint_head (p : positive) (u : Decimal.uint) :
  Pos.to_uint p <> Decimal.D0 u.
Proof.
  intros H.
  pose proof (DecimalN.Unsigned.to_of (Pos.to_uint p)) as Hn.
  unfold N.of_uint in Hn. rewrite DecimalPos.Unsigned.of_to in Hn.
  simpl in Hn. rewrite H in Hn at 1.
  unfold Decimal.unorm in Hn.
  destruct (Decimal.nzhead (Pos.to_uint p)) eqn:E;
    try (symmetry in Hn; revert Hn; apply DecimalFacts.nzhead_nonzero || discriminate).
  - injection Hn as ->. now apply (DecimalPos.Unsigned.to_uint_nonzero p).
  - rewrite <- E in Hn. symmetry in Hn.
    now apply DecimalFacts.nzhead_nonzero in Hn.
Qed.

Lemma leading_zero_of_uint (u : Decimal.uint) :
  (forall u', u <> Decimal.D0 u') ->
  leading_zero (NilEmpty.string_of_uint u) = false.
Proof.
  intros H.
  destruct u; try (simpl; destruct (NilEmpty.string_of_uint u); reflexivity).
  - reflexivity.
  - now destruct (H u).
Qed.

Lemma ends_value_no_digit (rest : string) :
  ends_value rest = true -> no_digit_ahead rest /\ starts_fraction rest = false.
Proof.
  destruct rest as [| c rest]; simpl; [tauto |].
  destruct c as [[] [] [] [] [] [] [] []]; simpl; intros H;
    try discriminate; split; reflexivity.
Qed.

Lemma parse_number_positive (p : positive) (rest : string) :
  ends_value rest = true ->
  parse_number (number_string (Zpos p) ++ rest) = Some (Zpos p, rest)
  /\ exists c s, number_string (Zpos p) = String c s /\ is_digit c = true.
Proof.
  intros Hr. apply ends_value_no_digit in Hr. destruct Hr as [Hnd Hnf].
  unfold number_string. simpl.
  assert (Hnil : Pos.to_uint p <> Decimal.Nil)
    by apply DecimalPos.Unsigned.to_uint_nonnil.
  assert (Hs : NilZero.string_of_uint (Pos.to_uint p)
               = NilEmpty.string_of_uint (Pos.to_uint p))
    by (destruct (Pos.to_uint p); [congruence | reflexivity ..]).
  rewrite Hs.
  pose proof (digits_of_uint (Pos.to_uint p)) as Hd.
  destruct (NilEmpty.string_of_uint (Pos.to_uint p)) as [| c s] eqn:E.
  { destruct (Pos.to_uint p); simpl in E; congruence. }
  assert (Hc : is_digit c = true) by (apply Hd; now left).
  split; [| now exists c, s].
  unfold parse_number.
  assert (Hminus : Ascii.eqb c "-" = false).
  { destruct (Ascii.eqb_spec c "-"); [subst c; discriminate | reflexivity]. }
  cbn [append]. rewrite Hminus.
  change (String c (s ++ rest)) with (String c s ++ rest)%string.
  rewrite digits_span_app by assumption.
  rewrite <- E, leading_zero_of_uint by (intros u'; apply to_uint_head).
  rewrite Hnf. cbn [orb].
  rewrite <- E in Hs. rewrite <- Hs, NilZero.usu by exact Hnil.
  unfold Z.of_uint. now rewrite DecimalPos.Unsigned.of_to.
Qed.

Lemma parse_number_stringify (n : Z) (rest : string) :
  ends_value rest = true ->
  parse_number (number_string n ++ rest) = Some (n, rest)
  /\ exists c s, number_string n = String c s
                 /\ (is_digit c = true \/ c = "-"%char).
Proof.
  intros Hr. destruct n as [| p | p].
  - apply ends_value_no_digit in Hr. destruct Hr as [Hnd Hnf].
    split; [| exists "0"%char, ""%string; split; [reflexivity | now left]].
    unfold number_string, parse_number. cbn [Z.to_int NilZero.string_of_int].
    change (NilZero.string_of_uint Decimal.zero) with "0"%string.
    cbn [append Ascii.eqb Bool.eqb].
    change (String "0" rest) with ("0" ++ rest)%string.
    rewrite digits_span_app;
      [| intros c [<- | []]; reflexivity | exact Hnd].
    rewrite Hnf. reflexivity.
  - destruct (parse_number_positive p rest Hr) as [H [c [s [E Hc]]]].
    split; [exact H |]. exists c, s. tauto.
  - destruct (parse_number_positive p rest Hr) as [H _].
    split; [| exists "-"%char; eexists; split; [reflexivity | now right]].
    unfold number_string in *. cbn [Z.to_int NilZero.string_of_int] in *.
    unfold parse_number in *. cbn [append Ascii.eqb Bool.eqb].
    destruct (NilZero.string_of_uint (Pos.to_uint p) ++ rest)%string as [| c s] eqn:E.
    { simpl in H. discriminate. }
    destruct (Ascii.eqb c "-") eqn:Ec.
    + apply Ascii.eqb_eq in Ec. subst c. exfalso.
      destruct (parse_number_positive p "" eq_refl) as [_ [c' [s' [E' Hc']]]].
      unfold number_string in E'. cbn [Z.to_int NilZero.string_of_int] in E'.
      rewrite E' in E. injection E as -> _. discriminate.
    + destruct (digits_span (String c s)) as [ds r].
      destruct (leading_zero ds || starts_fraction r); [discriminate |].
      destruct (NilZero.uint_of_string ds); [| discriminate].
      injection H as H1 H2. subst r. f_equal. f_equal. lia.
Qed.

(** *** Strings *)

Lemma parse_escape_char (c : ascii) (tail : string) :
  parse_string_body None (escape_char c ++ tail) =
  match parse_string_body None tail with
  | Some (str, after) => Some (String c str, after)
  | None => None
  end.
Proof.
  destruct c as [[] [] [] [] [] [] [] []]; reflexivity.
Qed.

Lemma parse_escape (s rest : string) :
  parse_string_body None (escape s ++ String dquote rest) = Some (s, rest).
Proof.
  induction s as [| c s IH]; [reflexivity |].
  cbn [escape]. rewrite append_assoc, parse_escape_char, IH. reflexivity.
Qed.

Lemma quote_string_app (s rest : string) :
  (quote_string s ++ rest)%string = String dquote (escape s ++ String dquote rest).
Proof. unfold quote_string. cbn [append]. now rewrite append_assoc. Qed.

(** *** Objects *)

Lemma set_member_new (k : string) (v : json) (l : list (string * json)) :
  existsb (String.eqb k) (map fst l) = false ->
  set_member k v l = l ++ [(k, v)].
Proof.
  induction l as [| [k' v'] l IH]; simpl; [reflexivity |].
  rewrite String.eqb_sym.
  destruct (String.eqb k' k); simpl; [discriminate |].
  intros H. now rewrite IH.
Qed.

Lemma object_of_distinct_from (l acc : list (string * json)) :
  distinct (map fst l) = true ->
  (forall k, In k (map fst l) -> existsb (String.eqb k) (map fst acc) = false) ->
  fold_left (fun a kv => set_member (fst kv) (snd kv) a) l acc = acc ++ l.
Proof.
  revert acc. induction l as [| [k v] l IH]; simpl; intros acc Hd Hacc.
  - now rewrite app_nil_r.
  - apply andb_prop in Hd. destruct Hd as [Hk Hd].
    rewrite set_member_new by (apply Hacc; now left).
    rewrite IH; [now rewrite <- app_assoc | exact Hd |].
    intros k' Hk'. rewrite map_app, existsb_app. simpl.
    rewrite (Hacc k') by now right. simpl.
    rewrite orb_false_r.
    destruct (String.eqb_spec k' k) as [-> | Hne]; [| reflexivity].
    apply negb_true_iff in Hk.
    assert (Ht : existsb (String.eqb k) (map fst l) = true).
    { apply existsb_exists. exists k. split; [exact Hk' | apply String.eqb_refl]. }
    congruence.
Qed.

Lemma object_of_distinct (l : list (string * json)) :
  distinct (map fst l) = true -> object_of l = l.
Proof.
  intros H. unfold object_of.
  now rewrite object_of_distinct_from.
Qed.

(** *** Values *)

Lemma number_head (c : ascii) :
  is_digit c = true \/ c = "-"%char ->
  opens_value c /\ start_of c = StartNumber.
Proof.
  unfold opens_value.
  destruct c as [[] [] [] [] [] [] [] []]; simpl;
    intros [H | H]; try discriminate; repeat split.
Qed.

Lemma stringify_head (v : json) :
  exists c s, stringify v = String c s /\ opens_value c.
Proof.
  unfold opens_value.
  destruct v as [| [|] | n | s | items | members];
    try (eexists; eexists; split; [reflexivity | repeat split]).
  destruct (parse_number_stringify n "" eq_refl) as [_ [c [s [E Hc]]]].
  exists c, s. split; [exact E |]. now apply number_head.
Qed.

Lemma skip_ws_value (v : json) (rest : string) :
  skip_ws (stringify v ++ rest) = (stringify v ++ rest)%string
  /\ head_is "]" (skip_ws (stringify v ++ rest)) = None
  /\ head_is "}" (skip_ws (stringify v ++ rest)) = None.
Proof.
  destruct (stringify_head v) as [c [s [E [Hws [Hb Hc]]]]].
  rewrite E. cbn [append skip_ws]. rewrite Hws.
  cbn [head_is]. rewrite Hb, Hc. tauto.
Qed.

Lemma parse_elements_text (l : list json) :
  Forall round_trips l -> forallb serializable l = true -> l <> [] ->
  forall fuel rest,
    (size_elements size l <= fuel)%nat -> ends_value rest = true ->
    parse_elements fuel (elements_text stringify l ++ rest) = Some (l, rest).
Proof.
  induction 1 as [| x l Hx Hl IH]; [congruence |].
  intros Hser _ fuel rest Hfuel Hrest.
  cbn [forallb] in Hser. apply andb_prop in Hser. destruct Hser as [Hsx Hsl].
  cbn [size_elements] in Hfuel.
  destruct fuel as [| fuel]; [lia |].
  cbn [parse_elements].
  destruct l as [| y l'].
  - cbn [elements_text]. rewrite append_assoc.
    rewrite (Hx Hsx) by (try lia; reflexivity).
    reflexivity.
  - cbn [elements_text]. rewrite append_assoc.
    rewrite (Hx Hsx) by (try lia; reflexivity).
    cbn [append skip_ws]. change (is_ws ",") with false. cbv iota.
    change (Ascii.eqb "," ",") with true. cbv iota.
    rewrite (IH Hsl) by (try lia; try discriminate; assumption).
    reflexivity.
Qed.

Lemma parse_members_text (l : list (string * json)) :
  Forall (fun kv => round_trips (snd kv)) l ->
  forallb (fun kv => serializable (snd kv)) l = true -> l <> [] ->
  forall fuel rest,
    (size_members size l <= fuel)%nat -> ends_value rest = true ->
    parse_members fuel (members_text stringify l ++ rest) = Some (l, rest).
Proof.
  induction 1 as [| [k x] l Hx Hl IH]; [congruence |].
  intros Hser _ fuel rest Hfuel Hrest.
  cbn [forallb snd] in Hser. apply andb_prop in Hser. destruct Hser as [Hsx Hsl].
  cbn [size_members snd] in Hfuel. cbn [snd] in Hx.
  destruct fuel as [| fuel]; [lia |].
  cbn [parse_members].
  destruct l as [| y l'].
  - cbn [members_text]. rewrite append_assoc, quote_string_app.
    cbn [skip_ws]. change (is_ws dquote) with false. cbn [head_is].
    change (Ascii.eqb dquote dquote) with true. cbv iota.
    rewrite parse_escape.
    cbn [append skip_ws]. change (is_ws ":") with false. cbn [head_is].
    change (Ascii.eqb ":" ":") with true. cbv iota.
    rewrite append_assoc.
    rewrite (Hx Hsx) by (try lia; reflexivity).
    reflexivity.
  - cbn [members_text]. rewrite append_assoc, quote_string_app.
    cbn [skip_ws]. change (is_ws dquote) with false. cbn [head_is].
    change (Ascii.eqb dquote dquote) with true. cbv iota.
    rewrite parse_escape.
    cbn [append skip_ws]. change (is_ws ":") with false. cbn [head_is].
    change (Ascii.eqb ":" ":") with true. cbv iota.
    rewrite append_assoc.
    rewrite (Hx Hsx) by (try lia; reflexivity).
    cbn [append skip_ws]. change (is_ws ",") with false. cbv iota.
    change (Ascii.eqb "," ",") with true. cbv iota.
    rewrite (IH Hsl) by (try lia; try discriminate; assumption).
    reflexivity.
Qed.

Lemma parse_value_stringify (v : json) : round_trips v.
Proof.
  induction v using json_induction; intros Hser fuel rest Hfuel Hrest;
    (destruct fuel as [| fuel]; [simpl in Hfuel; lia |]).
  - reflexivity.
  - destruct b; reflexivity.
  - destruct (parse_number_stringify n rest Hrest) as [Hp [c [s [E Hc]]]].
    destruct (number_head c Hc) as [[Hws _] Hstart].
    cbn [stringify parse_value] in *. rewrite E in *.
    cbn [append skip_ws] in *. rewrite Hws, Hstart, Hp. reflexivity.
  - cbn [stringify parse_value]. rewrite quote_string_app.
    cbn [skip_ws]. change (is_ws dquote) with false. cbv iota.
    change (start_of dquote) with StartString. cbv iota.
    now rewrite parse_escape.
  - cbn [stringify size serializable] in *.
    cbn [append parse_value skip_ws]. change (is_ws "[") with false. cbv iota.
    change (start_of "[") with StartArray. cbv iota.
    destruct items as [| x l]; [reflexivity |].
    assert (Hhead : head_is "]" (skip_ws (elements_text stringify (x :: l) ++ rest)) = None).
    { destruct l; cbn [elements_text]; rewrite append_assoc; apply skip_ws_value. }
    rewrite Hhead.
    rewrite parse_elements_text by (try lia; try discriminate; assumption).
    reflexivity.
  - cbn [stringify size serializable] in *.
    apply andb_prop in Hser. destruct Hser as [Hkeys Hser].
    cbn [append parse_value skip_ws]. change (is_ws "{") with false. cbv iota.
    change (start_of "{") with StartObject. cbv iota.
    destruct members as [| [k x] l]; [reflexivity |].
    assert (Hhead : head_is "}" (skip_ws (members_text stringify ((k, x) :: l) ++ rest)) = None).
    { destruct l; cbn [members_text]; rewrite append_assoc, quote_string_app; reflexivity. }
    rewrite Hhead.
    rewrite parse_members_text by (try lia; try discriminate; assumption).
    now rewrite object_of_distinct.
Qed.

Lemma size_le_length (v : json) : (size v <= String.length (stringify v))%nat.
Proof.
  induction v using json_induction.
  - simpl. lia.
  - destruct b; simpl; lia.
  - destruct (stringify_head (JNum n)) as [c [s [E _]]]. rewrite E. simpl. lia.
  - simpl. lia.
  - cbn [size stringify append String.length]. apply le_n_S.
    induction H as [| x l Hx Hl IH]; [simpl; lia |].
    cbn [size_elements elements_text].
    destruct l as [| y l'].
    + rewrite length_append. simpl. lia.
    + rewrite !length_append. cbn [String.length]. lia.
  - cbn [size stringify append String.length]. apply le_n_S.
    induction H as [| [k x] l Hx Hl IH]; [simpl; lia |].
    cbn [size_members members_text snd] in *.
    destruct l as [| y l'].
    + rewrite !length_append. simpl. lia.
    + rewrite !length_append. cbn [String.length]. lia.
Qed.

(** [JSON.parse (JSON.stringify v)] is [v], for every serializable [v]. *)
Lemma parse_stringify (v : json) :
  serializable v = true -> parse (stringify v) = Some v.
Proof.
  intros Hser. unfold parse.
  pose proof (parse_value_stringify v Hser (S (String.length (stringify v))) ""
                (le_S _ _ (size_le_length v)) eq_refl) as H.
  rewrite append_nil_r in H. rewrite H. reflexivity.
Qed.

End JsonFacts.

(** ** tools/memory.ts *)

Section MemoryFacts.

Import Memory.

Lemma with_key_true (k : string) (row : MemoryEntry) :
  with_key k row = true <-> key row = k.
Proof. unfold with_key. apply String.eqb_eq. Qed.

Lemma existsb_with_key (k : string) (memory : list MemoryEntry) :
  existsb (with_key k) memory = true <-> In k (map key memory).
Proof.
  rewrite existsb_exists, in_map_iff.
  split; intros [row [H1 H2]]; exists row.
  - apply with_key_true in H2. tauto.
  - split; [tauto | now apply with_key_true].
Qed.

(** The keys of the table after the upsert: the same column, with the
    written key added at the end when it was not there. *)
Lemma upsert_keys ts k c tg sc src (memory : list MemoryEntry) :
  map key (upsert ts k c tg sc src memory) =
  if existsb (with_key k) memory then map key memory else map key memory ++ [k].
Proof.
  unfold upsert. destruct (existsb (with_key k) memory).
  - rewrite map_map. apply map_ext. intros row. now destruct (with_key k row).
  - now rewrite map_app.
Qed.

Lemma upsert_has_key ts k c tg sc src (memory : list MemoryEntry) :
  In k (map key (upsert ts k c tg sc src memory)).
Proof.
  rewrite upsert_keys. destruct (existsb (with_key k) memory) eqn:E.
  - now apply existsb_with_key.
  - apply in_or_app. right. now left.
Qed.

Lemma upsert_keeps_keys ts k c tg sc src (memory : list MemoryEntry) (k' : string) :
  In k' (map key memory) -> In k' (map key (upsert ts k c tg sc src memory)).
Proof.
  rewrite upsert_keys. destruct (existsb (with_key k) memory); [trivial |].
  intros H. apply in_or_app. now left.
Qed.

Lemma upsert_unique ts k c tg sc src (memory : list MemoryEntry) :
  Props.unique_keys memory -> Props.unique_keys (upsert ts k c tg sc src memory).
Proof.
  unfold Props.unique_keys. rewrite upsert_keys.
  destruct (existsb (with_key k) memory) eqn:E; [trivial |].
  intros H. apply NoDup_app; [exact H | repeat constructor; simpl; tauto |].
  intros x Hx [<- | []].
  apply existsb_with_key in Hx. congruence.
Qed.

Lemma rows_with_key_unique (k : string) (memory : list MemoryEntry) :
  Props.unique_keys memory -> In k (map key memory) ->
  Props.rows_with_key k memory = 1%nat.
Proof.
  unfold Props.unique_keys, Props.rows_with_key.
  induction memory as [| row memory IH]; simpl; [tauto |].
  intros Hnd Hin. apply NoDup_cons_iff in Hnd. destruct Hnd as [Hnot Hnd].
  destruct (with_key k row) eqn:E.
  - apply with_key_true in E. subst k. simpl. f_equal.
    assert (Hnone : forall l, ~ In (key row) (map key l) ->
              filter (with_key (key row)) l = []).
    { induction l as [| r l IHl]; simpl; [reflexivity |].
      intros Hn. destruct (with_key (key row) r) eqn:Er.
      - apply with_key_true in Er. tauto.
      - apply IHl. tauto. }
    now rewrite Hnone.
  - destruct Hin as [Hin | Hin].
    + apply with_key_true in Hin. congruence.
    + now apply IH.
Qed.

Lemma run_writes_unique (ws : list Props.write) (memory : list MemoryEntry) :
  Props.unique_keys memory -> Props.unique_keys (Props.run_writes ws memory).
Proof.
  revert memory. induction ws as [| w ws IH]; simpl; intros memory H; [exact H |].
  apply IH. unfold Props.apply_write, memoryWrite. simpl. now apply upsert_unique.
Qed.

Lemma run_writes_keeps_keys (ws : list Props.write) (memory : list MemoryEntry) (k : string) :
  In k (map key memory) -> In k (map key (Props.run_writes ws memory)).
Proof.
  revert memory. induction ws as [| w ws IH]; simpl; intros memory H; [exact H |].
  apply IH. unfold Props.apply_write, memoryWrite. simpl. now apply upsert_keeps_keys.
Qed.

Lemma run_writes_has_key (ws : list Props.write) (memory : list MemoryEntry) (k : string) :
  In k (map Props.w_key ws) -> In k (map key (Props.run_writes ws memory)).
Proof.
  revert memory. induction ws as [| w ws IH]; simpl; intros memory H; [tauto |].
  destruct H as [<- | H].
  - apply run_writes_keeps_keys.
    unfold Props.apply_write, memoryWrite. simpl. apply upsert_has_key.
  - now apply IH.
Qed.

End MemoryFacts.

(** C5. For every key, after any sequence of memoryWrite calls there is
    exactly one memory row with that key: starting from a table that meets
    its UNIQUE constraint, every key that was written, and every key that
    was there, has exactly one row.  A memoryWrite to a key that has a row
    keeps the number of rows and the row's id and created_at, replaces
    content, tags, scope and source by the arguments (with their defaults),
    and sets updated_at to the current timestamp. *)
Theorem C5_memoryWrite_upsert :
  forall memory : list Memory.MemoryEntry,
    Props.unique_keys memory ->
    (forall ws k,
        In k (map Props.w_key ws) \/ In k (map Memory.key memory) ->
        Props.rows_with_key k (Props.run_writes ws memory) = 1%nat)
    /\
    (forall now key content tags scope source row,
        Memory.memoryRead key memory = Some row ->
        exists row',
          Memory.memoryRead key
            (snd (Memory.memoryWrite now key content tags scope source memory))
          = Some row' /\
          Memory.content row' = content /\
          Memory.tags row' =
            option_map (fun l => Json.stringify (Json.JArr (map Json.JStr l))) tags /\
          Memory.scope row' = match scope with Some s => s | None => "global" end /\
          Memory.source row' = Some (match source with Some s => s | None => "manual" end) /\
          Memory.updated_at row' = Time.CURRENT_TIMESTAMP now /\
          Memory.created_at row' = Memory.created_at row /\
          Memory.id row' = Memory.id row /\
          Memory.key row' = key /\
          List.length (snd (Memory.memoryWrite now key content tags scope source memory))
          = List.length memory).
Proof.
  intros memory Huniq. split.
  - intros ws k Hk.
    apply rows_with_key_unique.
    + now apply run_writes_unique.
    + destruct Hk as [Hk | Hk].
      * now apply run_writes_has_key.
      * now apply run_writes_keeps_keys.
  - intros now key content tags scope source row Hread.
    unfold Memory.memoryRead in *. unfold Memory.memoryWrite. simpl.
    unfold Memory.upsert.
    rewrite (find_some_existsb _ _ _ Hread).
    eexists. split.
    + apply find_map_stable; [| exact Hread].
      intros y. destruct (Memory.with_key key y) eqn:E; [| exact E].
      unfold Memory.with_key in *. simpl. exact E.
    + apply find_some in Hread. destruct Hread as [_ Hk].
      rewrite Hk. simpl. apply with_key_true in Hk.
      rewrite length_map.
      destruct tags; simpl; repeat split; auto.
Qed.

(** The two writes of the specification's example, on the empty table. *)
Lemma C5_memoryWrite_upsert_witness :
  let first :=
    {| Props.w_now := 1704110400000; Props.w_key := "tip";
       Props.w_content := "first"; Props.w_tags := None;
       Props.w_scope := None; Props.w_source := None |} in
  let second :=
    {| Props.w_now := 1704110460000; Props.w_key := "tip";
       Props.w_content := "second"; Props.w_tags := Some ["a"];
       Props.w_scope := Some "project:x"; Props.w_source := None |} in
  Props.unique_keys [] /\
  Props.rows_with_key "tip" (Props.run_writes [first; second] []) = 1%nat /\
  Props.unique_keys (Props.run_writes [first] []) /\
  exists row',
    Memory.memoryRead "tip" (Props.run_writes [first; second] []) = Some row' /\
    Memory.content row' = "second" /\
    Memory.updated_at row' = "2024-01-01 12:01:00" /\
    Memory.created_at row' = "2024-01-01 12:00:00".
Proof.
  intros first second.
  assert (H0 : Props.unique_keys []) by apply NoDup_nil.
  assert (H1 : Props.unique_keys (Props.run_writes [first] [])).
  { unfold Props.unique_keys. simpl. repeat constructor. simpl. tauto. }
  split; [exact H0 |]. split; [| split; [exact H1 |]].
  - apply (proj1 (C5_memoryWrite_upsert [] H0) [first; second] "tip").
    left. simpl. tauto.
  - destruct (proj2 (C5_memoryWrite_upsert (Props.run_writes [first] []) H1)
                1704110460000 "tip" "second" (Some ["a"]) (Some "project:x") None
                (match Props.run_writes [first] [] with
                 | row :: _ => row
                 | [] => {| Memory.id := 0; Memory.key := ""; Memory.content := "";
                            Memory.tags := None; Memory.scope := "";
                            Memory.source := None; Memory.created_at := "";
                            Memory.updated_at := "" |}
                 end) eq_refl)
      as [row' [Hread [Hc [_ [_ [_ [Hu [Hcr _]]]]]]]].
    exists row'. split; [exact Hread |]. split; [exact Hc |].
    split; [exact Hu | exact Hcr].
Defined.

Section MemorySearchFacts.

Variable MATCH :
  string -> list (Z * (string * string * option string)) -> sqlite_code + list Z.


End MemorySearchFacts.




(** ** tools/failures.ts *)

Section FailureFacts.

Import Failures.

Lemma bump_keeps_pattern ts sol msg rowid p (row : Failure) :
  with_pattern p (if id row =? rowid then bumped ts sol msg row else row)
  = with_pattern p row.
Proof. now destruct (id row =? rowid). Qed.

(** The row found for a pattern after its own [UPDATE]. *)
Lemma find_bump ts sol msg p (failures : list Failure) (row : Failure) :
  find (with_pattern p) failures = Some row ->
  find (with_pattern p) (bump ts sol msg (id row) failures) =
  Some (bumped ts sol msg row).
Proof.
  intros H. unfold bump.
  rewrite (find_map_stable _ _ _ row (bump_keeps_pattern ts sol msg (id row) p) H).
  now rewrite Z.eqb_refl.
Qed.

Lemma find_insert ts p msg sol skill path (failures : list Failure) :
  find (with_pattern p) failures = None ->
  find (with_pattern p) (insert ts p msg sol skill path failures) =
  Some {| id := Sql.next_rowid (map id failures); error_pattern := p;
          error_message := msg; solution := sol; skill_name := skill;
          project_path := path; occurrence_count := 1;
          last_seen_at := ts; created_at := ts |}.
Proof.
  intros H. unfold insert. apply find_app_new; [exact H |].
  unfold with_pattern. simpl. apply String.eqb_refl.
Qed.

End FailureFacts.

(** C4. failureRecord on a pattern that has a row adds one to that row's
    occurrence_count, sets last_seen_at to the current timestamp, and
    replaces solution and error_message only by a non-empty argument (an
    omitted or empty one keeps the stored value); no row is added.  On a
    pattern with no row it appends a row with occurrence_count 1.  So
    record(p, solution = fix1) then record(p) with no solution, on a table
    without p, answers a row with occurrence_count 2 and solution fix1. *)
Theorem C4_failureRecord_dedup :
  forall now error_pattern error_message solution skill_name project_path
         (failures : list Failures.Failure),
    let answer :=
      Failures.failureRecord now error_pattern error_message solution
        skill_name project_path failures in
    (forall row,
        find (Failures.with_pattern error_pattern) failures = Some row ->
        exists row',
          fst answer = (true, Some row') /\
          find (Failures.with_pattern error_pattern) (snd answer) = Some row' /\
          Failures.occurrence_count row' = Failures.occurrence_count row + 1 /\
          Failures.last_seen_at row' = Time.CURRENT_TIMESTAMP now /\
          Failures.solution row' =
            match solution with
            | Some "" | None => Failures.solution row
            | Some s => Some s
            end /\
          Failures.error_message row' =
            match error_message with
            | Some "" | None => Failures.error_message row
            | Some s => Some s
            end /\
          Failures.id row' = Failures.id row /\
          Failures.error_pattern row' = Failures.error_pattern row /\
          Failures.created_at row' = Failures.created_at row /\
          List.length (snd answer) = List.length failures)
    /\
    (find (Failures.with_pattern error_pattern) failures = None ->
     exists row',
       fst answer = (true, Some row') /\
       snd answer = failures ++ [row'] /\
       Failures.error_pattern row' = error_pattern /\
       Failures.occurrence_count row' = 1)
    /\
    (find (Failures.with_pattern error_pattern) failures = None ->
     forall later message',
     exists row2,
       fst (Failures.failureRecord later error_pattern message' None None None
              (snd (Failures.failureRecord now error_pattern error_message
                      (Some "fix1") skill_name project_path failures)))
       = (true, Some row2) /\
       Failures.occurrence_count row2 = 2 /\
       Failures.solution row2 = Some "fix1").
Proof.
  intros now p msg sol skill path failures answer.
  split; [| split].
  - intros row Hrow. subst answer. unfold Failures.failureRecord.
    rewrite Hrow. simpl.
    rewrite (find_bump _ _ _ _ _ _ Hrow).
    eexists. split; [reflexivity |]. split; [reflexivity |]. simpl.
    unfold Failures.bump. rewrite length_map.
    repeat split.
    + destruct sol as [[|] |]; reflexivity.
    + destruct msg as [[|] |]; reflexivity.
  - intros Hnone. subst answer. unfold Failures.failureRecord.
    rewrite Hnone. simpl.
    rewrite (find_insert _ _ _ _ _ _ _ Hnone).
    eexists. split; [reflexivity |]. split; [reflexivity |]. simpl. tauto.
  - intros Hnone later msg'.
    unfold Failures.failureRecord at 2. rewrite Hnone. simpl.
    pose proof (find_insert (Time.CURRENT_TIMESTAMP now) p (Sql.or_null msg)
                  (Some "fix1") (Sql.or_null skill) (Sql.or_null path)
                  failures Hnone) as Hfound.
    unfold Failures.failureRecord. rewrite Hfound. simpl.
    rewrite (find_bump _ _ _ _ _ _ Hfound).
    eexists. split; [reflexivity |]. simpl. split; reflexivity.
Qed.

(** The example of the specification, on the empty table. *)
Lemma C4_failureRecord_dedup_witness :
  find (Failures.with_pattern "TypeError: x") [] = None /\
  exists row2,
    fst (Failures.failureRecord 1704110460000 "TypeError: x" None None None None
           (snd (Failures.failureRecord 1704110400000 "TypeError: x" None
                   (Some "fix1") None None [])))
    = (true, Some row2) /\
    Failures.occurrence_count row2 = 2 /\
    Failures.solution row2 = Some "fix1".
Proof.
  split; [reflexivity |].
  exact (proj2 (proj2 (C4_failureRecord_dedup 1704110400000 "TypeError: x" None None
                         None None [])) eq_refl 1704110460000 None).
Defined.

(** ** tools/skills.ts: usage tracking *)

Section SkillUsageFacts.

Import Skills.

Lemma next_rowid_fresh (ids : list Z) (i : Z) :
  In i ids -> i < Sql.next_rowid ids.
Proof.
  unfold Sql.next_rowid.
  induction ids as [| j ids IH]; simpl; [tauto |].
  intros [-> | H]; [lia |]. specialize (IH H). lia.
Qed.

Lemma find_fresh_usage (l : list SkillUsage) :
  find (usage_with_id (Sql.next_rowid (map u_id l))) l = None.
Proof.
  destruct (find _ l) as [u |] eqn:E; [| reflexivity].
  apply find_some in E. destruct E as [Hin Hid].
  unfold usage_with_id in Hid. apply Z.eqb_eq in Hid.
  pose proof (next_rowid_fresh (map u_id l) (u_id u) (in_map u_id l u Hin)). lia.
Qed.

Lemma find_complete ts ok out tokens nts i (l : list SkillUsage) :
  find (usage_with_id i) (complete ts ok out tokens nts i l) =
  option_map (completed ts ok out tokens nts) (find (usage_with_id i) l).
Proof.
  unfold complete.
  induction l as [| u l IH]; simpl; [reflexivity |].
  destruct (usage_with_id i u) eqn:E; simpl.
  - unfold usage_with_id in *. simpl. now rewrite E.
  - now rewrite E.
Qed.

Lemma skillGet_count_use (n m : string) (l : list Skill) :
  find (named n) (count_use m l) =
  option_map (fun s => if named m s then counted s else s) (find (named n) l).
Proof.
  unfold count_use.
  induction l as [| s l IH]; simpl; [reflexivity |].
  assert (H : named n (if named m s then counted s else s) = named n s)
    by now destruct (named m s).
  rewrite H.
  destruct (named n s); [reflexivity | exact IH].
Qed.

Lemma skillGet_touch (ts n m : string) (l : list Skill) (s : Skill) :
  find (named n) l = Some s ->
  exists s', find (named n) (touch ts m l) = Some s' /\
             name s' = name s /\ use_count s' = use_count s.
Proof.
  intros H. unfold touch.
  eexists. split.
  - apply find_map_stable; [| exact H].
    intros y. now destruct (named m y).
  - now destruct (named m s).
Qed.

(** What [skillUsageEnd] does to the skills, read off the usage row its
    id finds in the table the call starts from. *)
Lemma skillUsageEnd_skills now usage_id success outcome tokens_used notes (t : Tables) :
  skills (snd (skillUsageEnd now usage_id success outcome tokens_used notes t)) =
  match find (usage_with_id usage_id) (skill_usage t) with
  | Some u => count_use (u_skill_name u) (skills t)
  | None => skills t
  end.
Proof.
  unfold skillUsageEnd. simpl. rewrite find_complete.
  now destruct (find (usage_with_id usage_id) (skill_usage t)).
Qed.

Lemma skillUsageEnd_usage now usage_id success outcome tokens_used notes (t : Tables) :
  find (usage_with_id usage_id)
    (skill_usage (snd (skillUsageEnd now usage_id success outcome tokens_used notes t))) =
  option_map
    (completed (Time.CURRENT_TIMESTAMP now) success (Sql.or_null outcome)
       (Sql.or_null_num tokens_used) (Sql.or_null notes))
    (find (usage_with_id usage_id) (skill_usage t)).
Proof. unfold skillUsageEnd. simpl. apply find_complete. Qed.

(** One call on an id that has a usage row: the row stays, and the use
    count of a skill grows by one exactly when the row names it. *)
Lemma skillUsageEnd_found now usage_id success outcome tokens_used notes
      (t : Tables) (u : SkillUsage) :
  find (usage_with_id usage_id) (skill_usage t) = Some u ->
  let t' := snd (skillUsageEnd now usage_id success outcome tokens_used notes t) in
  (exists u', find (usage_with_id usage_id) (skill_usage t') = Some u' /\
              u_skill_name u' = u_skill_name u /\ u_success u' = Some success) /\
  (forall n s, skillGet n t = Some s ->
     exists s', skillGet n t' = Some s' /\ name s' = name s /\
                use_count s' =
                  if String.eqb (name s) (u_skill_name u)
                  then use_count s + 1 else use_count s).
Proof.
  intros Hu t'. split.
  - subst t'. rewrite skillUsageEnd_usage, Hu. simpl.
    eexists. split; [reflexivity |]. now split.
  - intros n s Hs. subst t'. unfold skillGet in *.
    rewrite skillUsageEnd_skills, Hu, skillGet_count_use, Hs. simpl.
    eexists. split; [reflexivity |].
    unfold named. now destruct (String.eqb (name s) (u_skill_name u)).
Qed.

End SkillUsageFacts.

(** C1, as stated, fails: a second skillUsageEnd with the same id counts
    once more.  One skill, one usage started and ended, use_count 1; the
    same id ended again, use_count 2. *)
Lemma C1_skillUsageEnd_twice_counterexample :
  let t0 :=
    {| Skills.skills :=
         [ {| Skills.id := 1; Skills.name := "skillA"; Skills.version := "1.0";
              Skills.source := "plugin"; Skills.project_path := None;
              Skills.installed_by := None;
              Skills.installed_at := "2024-01-01 12:00:00";
              Skills.last_used_at := None; Skills.use_count := 0 |} ];
       Skills.skill_usage := [] |} in
  exists t1,
    Skills.skillUsageStart 1704110400000 "skillA" None t0 = (Ok (true, 1), t1) /\
    let t2 := snd (Skills.skillUsageEnd 1704110460000 1 true None None None t1) in
    let t3 := snd (Skills.skillUsageEnd 1704110520000 1 true None None None t2) in
    option_map Skills.use_count (Skills.skillGet "skillA" t2) = Some 1 /\
    option_map Skills.use_count (Skills.skillGet "skillA" t3) = Some 2.
Proof.
  eexists. split; [reflexivity |]. split; reflexivity.
Qed.

(** C1, amended. Every skillUsageEnd on an id that has a usage row adds
    exactly one to the use_count of the skill the row names and leaves the
    other skills' counts as they are; the row stays, so the first call on
    an id made by skillUsageStart counts one and a second call with the
    same id counts one more.  A call on an id with no usage row leaves the
    skills untouched.  Every call answers success. *)
Theorem C1_skillUsageEnd_counts_each_call :
  forall (t : Skills.Tables),
    (forall now usage_id success outcome tokens_used notes,
        fst (Skills.skillUsageEnd now usage_id success outcome tokens_used notes t) = true
        /\
        (forall u,
            find (Skills.usage_with_id usage_id) (Skills.skill_usage t) = Some u ->
            forall n s,
              Skills.skillGet n t = Some s ->
              exists s',
                Skills.skillGet n
                  (snd (Skills.skillUsageEnd now usage_id success outcome tokens_used notes t))
                = Some s' /\
                Skills.use_count s' =
                  if String.eqb (Skills.name s) (Skills.u_skill_name u)
                  then Skills.use_count s + 1 else Skills.use_count s)
        /\
        (find (Skills.usage_with_id usage_id) (Skills.skill_usage t) = None ->
         Skills.skills
           (snd (Skills.skillUsageEnd now usage_id success outcome tokens_used notes t))
         = Skills.skills t))
    /\
    (forall now0 skill_name project_path usage_id t1 s,
        Skills.skillUsageStart now0 skill_name project_path t = (Ok (true, usage_id), t1) ->
        Skills.skillGet skill_name t = Some s ->
        forall now1 success1 outcome1 tokens1 notes1 now2 success2 outcome2 tokens2 notes2,
          let t2 := snd (Skills.skillUsageEnd now1 usage_id success1 outcome1 tokens1 notes1 t1) in
          let t3 := snd (Skills.skillUsageEnd now2 usage_id success2 outcome2 tokens2 notes2 t2) in
          option_map Skills.use_count (Skills.skillGet skill_name t2)
          = Some (Skills.use_count s + 1) /\
          option_map Skills.use_count (Skills.skillGet skill_name t3)
          = Some (Skills.use_count s + 2)).
Proof.
  intros t. split.
  - intros now usage_id success outcome tokens_used notes.
    split; [reflexivity |]. split.
    + intros u Hu n s Hs.
      destruct (skillUsageEnd_found now usage_id success outcome tokens_used notes t u Hu)
        as [_ H].
      destruct (H n s Hs) as [s' [H1 [_ H2]]]. now exists s'.
    + intros Hnone. now rewrite skillUsageEnd_skills, Hnone.
  - intros now0 skill_name project_path usage_id t1 s Hstart Hs
           now1 success1 outcome1 tokens1 notes1 now2 success2 outcome2 tokens2 notes2 t2 t3.
    unfold Skills.skillUsageStart in Hstart.
    destruct (existsb (Skills.named skill_name) (Skills.skills t)); [| discriminate].
    injection Hstart as Hid Ht1.
    set (row := {| Skills.u_id := Sql.next_rowid (map Skills.u_id (Skills.skill_usage t));
                   Skills.u_skill_name := skill_name |}) in Ht1.
    assert (Hrow : find (Skills.usage_with_id usage_id) (Skills.skill_usage t1) = Some row).
    { subst t1 usage_id. simpl. apply find_app_new; [apply find_fresh_usage |].
      unfold Skills.usage_with_id. simpl. apply Z.eqb_refl. }
    assert (Hname : Skills.name s = skill_name).
    { apply find_some in Hs. destruct Hs as [_ Hs]. now apply String.eqb_eq in Hs. }
    destruct (skillGet_touch (Time.CURRENT_TIMESTAMP now0) skill_name skill_name
                (Skills.skills t) s Hs) as [s0 [Hs0 [Hn0 Hc0]]].
    assert (Hget1 : Skills.skillGet skill_name t1 = Some s0)
      by (subst t1; exact Hs0).
    destruct (skillUsageEnd_found now1 usage_id success1 outcome1 tokens1 notes1 t1 row Hrow)
      as [[u' [Hu' [Hun _]]] H1].
    destruct (H1 skill_name s0 Hget1) as [s1 [Hs1 [Hn1 Hc1]]].
    fold t2 in Hu', Hs1.
    destruct (skillUsageEnd_found now2 usage_id success2 outcome2 tokens2 notes2 t2 u' Hu')
      as [_ H2].
    destruct (H2 skill_name s1 Hs1) as [s2 [Hs2 [Hn2 Hc2]]].
    fold t3 in Hs2.
    rewrite Hs1, Hs2. simpl.
    rewrite Hun, Hn1, Hn0, Hname in Hc2.
    rewrite Hn0, Hname in Hc1.
    assert (Hrn : Skills.u_skill_name row = skill_name) by reflexivity.
    rewrite Hrn, String.eqb_refl in Hc1, Hc2.
    split; f_equal; lia.
Qed.

(** One skill, one usage started: the first end counts one, the second one
    more. *)
Lemma C1_skillUsageEnd_counts_each_call_witness :
  let s :=
    {| Skills.id := 1; Skills.name := "skillA"; Skills.version := "1.0";
       Skills.source := "plugin"; Skills.project_path := None;
       Skills.installed_by := None;
       Skills.installed_at := "2024-01-01 12:00:00";
       Skills.last_used_at := None; Skills.use_count := 0 |} in
  let t0 := {| Skills.skills := [s]; Skills.skill_usage := [] |} in
  let t1 := snd (Skills.skillUsageStart 1704110400000 "skillA" None t0) in
  let t2 := snd (Skills.skillUsageEnd 1704110460000 1 true None None None t1) in
  let t3 := snd (Skills.skillUsageEnd 1704110520000 1 false None None None t2) in
  option_map Skills.use_count (Skills.skillGet "skillA" t2) = Some (0 + 1) /\
  option_map Skills.use_count (Skills.skillGet "skillA" t3) = Some (0 + 2).
Proof.
  intros s t0 t1 t2 t3.
  exact (proj2 (C1_skillUsageEnd_counts_each_call t0)
           1704110400000 "skillA" None 1 t1 s eq_refl eq_refl
           1704110460000 true None None None
           1704110520000 false None None None).
Defined.

(** C9. skillUsageStart for a skill_name that no row of skills has fails
    with the foreign-key constraint error and leaves both tables as they
    were: no usage row is created and no last_used_at is changed. *)
Theorem C9_skillUsageStart_unregistered :
  forall now skill_name project_path (t : Skills.Tables),
    Skills.skillGet skill_name t = None ->
    Skills.skillUsageStart now skill_name project_path t
    = (Throw (SqliteError SQLITE_CONSTRAINT_FOREIGNKEY), t).
Proof.
  intros now skill_name project_path t H.
  unfold Skills.skillGet in H. apply find_none_existsb in H.
  unfold Skills.skillUsageStart. now rewrite H.
Qed.

Lemma C9_skillUsageStart_unregistered_witness :
  let t :=
    {| Skills.skills :=
         [ {| Skills.id := 1; Skills.name := "skillA"; Skills.version := "1.0";
              Skills.source := "plugin"; Skills.project_path := None;
              Skills.installed_by := None;
              Skills.installed_at := "2024-01-01 12:00:00";
              Skills.last_used_at := None; Skills.use_count := 0 |} ];
       Skills.skill_usage := [] |} in
  Skills.skillGet "skillB" t = None /\
  Skills.skillUsageStart 1704110400000 "skillB" (Some "/p") t
  = (Throw (SqliteError SQLITE_CONSTRAINT_FOREIGNKEY), t).
Proof.
  intros t. split; [reflexivity |].
  apply (C9_skillUsageStart_unregistered 1704110400000 "skillB" (Some "/p") t).
  reflexivity.
Defined.

(** ** tools/skills.ts: skillRecommend *)

Section RecommendFacts.

Import Skills.

Lemma filter_andb {A : Type} (p q : A -> bool) (l : list A) :
  filter q (filter p l) = filter (fun x => p x && q x) l.
Proof.
  induction l as [| x l IH]; simpl; [reflexivity |].
  destruct (p x); simpl; [destruct (q x) |]; now rewrite IH.
Qed.

Lemma filter_map_Some (keep : SkillUsage -> bool) (l : list SkillUsage) :
  filter (fun row => match row with Some u => keep u | None => false end) (map Some l)
  = map Some (filter keep l).
Proof.
  induction l as [| u l IH]; simpl; [reflexivity |].
  destruct (keep u); simpl; now rewrite IH.
Qed.

(** The joined rows of a skill that the [WHERE] of the filtered query
    keeps are its usages with a matching path. *)
Lemma where_path_like (pattern : string) (s : Skill) (usages : list SkillUsage) :
  filter (path_like pattern) (LEFT_JOIN s usages) =
  map Some
    (filter (fun u => Sql.LIKE (u_project_path u) pattern)
       (filter (fun u => String.eqb (name s) (u_skill_name u)) usages)).
Proof.
  unfold LEFT_JOIN.
  destruct (filter _ usages) as [| u us] eqn:E; [reflexivity |].
  apply (filter_map_Some (fun u => Sql.LIKE (u_project_path u) pattern)).
Qed.

Lemma sum_success_case (l : list SkillUsage) :
  fold_right Z.add 0 (map success_case (map Some l)) =
  Z.of_nat (List.length (filter Props.succeeded l)).
Proof.
  induction l as [| u l IH]; [reflexivity |].
  cbn [map fold_right filter]. rewrite IH.
  unfold success_case at 1, Props.succeeded at 2.
  destruct (u_success u) as [[|] |]; cbn [List.length]; lia.
Qed.

Lemma COUNT_map_Some (l : list SkillUsage) :
  COUNT_u_id (map Some l) = Z.of_nat (List.length l).
Proof.
  unfold COUNT_u_id. f_equal.
  induction l as [| u l IH]; simpl; [reflexivity | now rewrite IH].
Qed.

(** The select list over the group of a skill with usages [l]. *)
Lemma aggregate_usages (s : Skill) (l : list SkillUsage) :
  l <> [] ->
  aggregate s (map Some l) =
  {| skill := s;
     success_rate :=
       Qmake (Z.of_nat (List.length (filter Props.succeeded l)))
             (Pos.of_nat (List.length l));
     usage_count := Z.of_nat (List.length l) |}.
Proof.
  intros Hl. unfold aggregate. rewrite COUNT_map_Some. f_equal.
  unfold AVG. rewrite sum_success_case, !length_map.
  destruct l; [congruence | reflexivity].
Qed.

(** The select list over the group of a skill that has no usage. *)
Lemma aggregate_null (s : Skill) :
  aggregate s [None] = {| skill := s; success_rate := Qmake 0 1; usage_count := 0 |}.
Proof. reflexivity. Qed.

Lemma filter_all {A : Type} (p : A -> bool) (l : list A) :
  forallb p l = true -> filter p l = l.
Proof.
  induction l as [| x l IH]; simpl; [reflexivity |].
  destruct (p x); simpl; [intros H; now rewrite IH | discriminate].
Qed.

Lemma filter_succeeded_completed (l : list SkillUsage) :
  filter Props.is_completed l = [] -> filter Props.succeeded l = [].
Proof.
  induction l as [| u l IH]; simpl; [reflexivity |].
  unfold Props.is_completed at 1, Props.succeeded at 1.
  destruct (u_success u) as [[|] |]; simpl; [discriminate | discriminate | exact IH].
Qed.

(** What a row of the result says, in terms of the usages the call
    selects for its skill. *)
Lemma recommendation_shape project_type limit (t : Tables) (r : Recommendation) :
  In r (skillRecommend project_type limit t) ->
  In (skill r) (skills t) /\
  (Sql.or_null project_type <> None ->
   Props.selected project_type (skill r) t <> []) /\
  usage_count r = Z.of_nat (List.length (Props.selected project_type (skill r) t)) /\
  success_rate r =
    match Props.selected project_type (skill r) t with
    | [] => Qmake 0 1
    | us => Qmake (Z.of_nat (List.length (filter Props.succeeded us)))
                  (Pos.of_nat (List.length us))
    end.
Proof.
  unfold skillRecommend, Props.selected, Props.passes, Props.usages_of.
  destruct (Sql.or_null project_type) as [p |] eqn:Ep.
  - intros H. apply LIMIT_In, ORDER_BY_In, filter_In in H. destruct H as [H _].
    apply in_map_iff in H. destruct H as [[s rows] [<- Hg]].
    unfold groups in Hg. apply filter_In in Hg. destruct Hg as [Hg Hne].
    apply in_map_iff in Hg. destruct Hg as [s' [[= -> <-] Hs]].
    cbn [fst snd] in *. rewrite where_path_like in *.
    set (sel := filter _ (filter _ (skill_usage t))) in *.
    destruct sel as [| u us] eqn:Eus; [discriminate |].
    rewrite aggregate_usages by discriminate.
    cbn [skill usage_count success_rate].
    split; [exact Hs |]. split; [discriminate |]. split; reflexivity.
  - intros H. apply LIMIT_In, ORDER_BY_In in H.
    apply in_map_iff in H. destruct H as [[s rows] [<- Hg]].
    unfold groups in Hg. apply filter_In in Hg. destruct Hg as [Hg _].
    apply in_map_iff in Hg. destruct Hg as [s' [[= -> <-] Hs]].
    cbn [fst snd].
    assert (Hrows : filter (fun _ => true) (LEFT_JOIN s (skill_usage t))
                    = LEFT_JOIN s (skill_usage t))
      by (apply filter_all, forallb_forall; reflexivity).
    rewrite Hrows.
    assert (Hsel : forall l : list SkillUsage, filter (fun _ => true) l = l)
      by (intros l; apply filter_all, forallb_forall; reflexivity).
    unfold LEFT_JOIN.
    destruct (filter _ (skill_usage t)) as [| u us] eqn:Eus.
    + rewrite aggregate_null. cbn [skill usage_count success_rate].
      cbn.
      split; [exact Hs |]. split; [congruence |]. split; reflexivity.
    + rewrite aggregate_usages by discriminate.
      cbn [skill usage_count success_rate].
      rewrite Hsel.
      split; [exact Hs |]. split; [congruence |]. split; reflexivity.
Qed.


End RecommendFacts.

(** C2, as stated, fails: with a project type the count is that of the
    matching usages only.  A skill with one usage under a path with [ts] in
    it and one under another path is reported with usage_count 1, while it
    has 2 usages. *)
Lemma C2_skillRecommend_counts_counterexample :
  let a :=
    {| Skills.id := 1; Skills.name := "skillA"; Skills.version := "1.0";
       Skills.source := "plugin"; Skills.project_path := None;
       Skills.installed_by := None;
       Skills.installed_at := "2024-01-01 12:00:00";
       Skills.last_used_at := Some "2024-01-01 12:05:00"; Skills.use_count := 1 |} in
  let t :=
    {| Skills.skills := [a];
       Skills.skill_usage :=
         [ {| Skills.u_id := 1; Skills.u_skill_name := "skillA";
              Skills.u_project_path := Some "/work/ts-app";
              Skills.u_started_at := Some "2024-01-01 12:00:00";
              Skills.u_completed_at := Some "2024-01-01 12:01:00";
              Skills.u_success := Some true; Skills.u_outcome := None;
              Skills.u_tokens_used := None; Skills.u_notes := None |};
           {| Skills.u_id := 2; Skills.u_skill_name := "skillA";
              Skills.u_project_path := Some "/work/py-app";
              Skills.u_started_at := Some "2024-01-01 12:05:00";
              Skills.u_completed_at := None;
              Skills.u_success := None; Skills.u_outcome := None;
              Skills.u_tokens_used := None; Skills.u_notes := None |} ] |} in
  exists r,
    In r (Skills.skillRecommend (Some "ts") None t) /\
    Skills.skill r = a /\
    Skills.usage_count r = 1 /\
    Z.of_nat (List.length (Props.usages_of a t)) = 2.
Proof.
  eexists. split; [left; reflexivity |]. repeat split.
Qed.

(** On the same tables without a project type: the usage that is not
    completed enters the average as a failure, so the rate is 1/2 where the
    mean over the completed usages is 1. *)
Example skillRecommend_unfinished_usage_in_average :
  let a :=
    {| Skills.id := 1; Skills.name := "skillA"; Skills.version := "1.0";
       Skills.source := "plugin"; Skills.project_path := None;
       Skills.installed_by := None;
       Skills.installed_at := "2024-01-01 12:00:00";
       Skills.last_used_at := Some "2024-01-01 12:05:00"; Skills.use_count := 1 |} in
  let t :=
    {| Skills.skills := [a];
       Skills.skill_usage :=
         [ {| Skills.u_id := 1; Skills.u_skill_name := "skillA";
              Skills.u_project_path := Some "/work/ts-app";
              Skills.u_started_at := Some "2024-01-01 12:00:00";
              Skills.u_completed_at := Some "2024-01-01 12:01:00";
              Skills.u_success := Some true; Skills.u_outcome := None;
              Skills.u_tokens_used := None; Skills.u_notes := None |};
           {| Skills.u_id := 2; Skills.u_skill_name := "skillA";
              Skills.u_project_path := Some "/work/py-app";
              Skills.u_started_at := Some "2024-01-01 12:05:00";
              Skills.u_completed_at := None;
              Skills.u_success := None; Skills.u_outcome := None;
              Skills.u_tokens_used := None; Skills.u_notes := None |} ] |} in
  map Skills.success_rate (Skills.skillRecommend None None t) = [Qmake 1 2] /\
  Props.mean_success (Props.usages_of a t) = Qmake 1 1.
Proof. split; reflexivity. Qed.

(** C2, amended. For every skill returned by skillRecommend, usage_count
    is the number of the skill's usages the call selects, completed or not:
    all of them without a project type, those whose project_path is LIKE
    %project_type% with one.  success_rate is 0 when none of the selected
    usages is completed, and is the mean of the success flag over the
    selected usages when all of them are completed. *)
Theorem C2_skillRecommend_rate_and_count :
  forall project_type limit (t : Skills.Tables) (r : Skills.Recommendation),
    In r (Skills.skillRecommend project_type limit t) ->
    Skills.usage_count r
    = Z.of_nat (List.length (Props.selected project_type (Skills.skill r) t))
    /\
    (filter Props.is_completed (Props.selected project_type (Skills.skill r) t) = [] ->
     Qeq (Skills.success_rate r) (Qmake 0 1))
    /\
    (forallb Props.is_completed (Props.selected project_type (Skills.skill r) t) = true ->
     Qeq (Skills.success_rate r)
         (Props.mean_success (Props.selected project_type (Skills.skill r) t))).
Proof.
  intros project_type limit t r Hr.
  destruct (recommendation_shape project_type limit t r Hr) as [_ [_ [Hc Hrate]]].
  split; [exact Hc |]. rewrite Hrate. clear Hc Hrate.
  destruct (Props.selected project_type (Skills.skill r) t) as [| u us].
  - split; reflexivity.
  - cbv beta iota zeta. split.
    + intros Hnone. rewrite (filter_succeeded_completed _ Hnone).
      unfold Qeq. simpl. reflexivity.
    + intros Hall. unfold Props.mean_success.
      rewrite (filter_all _ _ Hall). reflexivity.
Qed.

(** A skill with two completed usages, one of them a success: rate 1/2,
    count 2. *)
Lemma C2_skillRecommend_rate_and_count_witness :
  let a :=
    {| Skills.id := 1; Skills.name := "skillA"; Skills.version := "1.0";
       Skills.source := "plugin"; Skills.project_path := None;
       Skills.installed_by := None;
       Skills.installed_at := "2024-01-01 12:00:00";
       Skills.last_used_at := Some "2024-01-01 12:05:00"; Skills.use_count := 2 |} in
  let usage i ok :=
    {| Skills.u_id := i; Skills.u_skill_name := "skillA";
       Skills.u_project_path := Some "/work/ts-app";
       Skills.u_started_at := Some "2024-01-01 12:00:00";
       Skills.u_completed_at := Some "2024-01-01 12:01:00";
       Skills.u_success := Some ok; Skills.u_outcome := None;
       Skills.u_tokens_used := None; Skills.u_notes := None |} in
  let t := {| Skills.skills := [a]; Skills.skill_usage := [usage 1 true; usage 2 false] |} in
  let r := {| Skills.skill := a; Skills.success_rate := Qmake 1 2; Skills.usage_count := 2 |} in
  In r (Skills.skillRecommend (Some "TS") (Some 5) t) /\
  Skills.usage_count r = 2 /\
  Qeq (Skills.success_rate r) (Qmake 1 2).
Proof.
  intros a usage t r.
  assert (Hin : In r (Skills.skillRecommend (Some "TS") (Some 5) t))
    by (left; reflexivity).
  split; [exact Hin |].
  destruct (C2_skillRecommend_rate_and_count (Some "TS") (Some 5) t r Hin)
    as [Hc [_ Hm]].
  split; [exact Hc | exact (Hm eq_refl)].
Defined.




(** ** tools/context.ts *)

Section ContextFacts.

Import Context.

Context {json : Type}.
Variable JSON_stringify : json -> string.
Variable JSON_parse : string -> option json.
Variable of_string : string -> json.

(** The row a lookup finds right after the upsert of its key. *)
Lemma find_upsert ts sid k val skill expires (context : list ContextEntry) :
  exists row,
    find (at_key sid k) (upsert ts sid k val skill expires context) = Some row /\
    value row = val /\ expires_at row = expires /\ skill_name row = skill /\
    session_id row = sid /\ key row = k.
Proof.
  unfold upsert.
  destruct (existsb (at_key sid k) context) eqn:E.
  - destruct (find (at_key sid k) context) as [row |] eqn:F.
    + eexists. split.
      * apply find_map_stable; [| exact F].
        intros y. destruct (at_key sid k y) eqn:Ey; [| exact Ey].
        unfold at_key in *. exact Ey.
      * apply find_some in F. destruct F as [_ F]. rewrite F. simpl.
        unfold at_key in F. apply andb_prop in F. destruct F as [F1 F2].
        apply String.eqb_eq in F1, F2. auto.
    + apply find_none_existsb in F. congruence.
  - eexists. split.
    + apply find_app_new; [now apply find_none_existsb |].
      unfold at_key. simpl. now rewrite !String.eqb_refl.
    + simpl. auto.
Qed.

Lemma contextSet_no_expiry now sid k v skill (context : list ContextEntry) :
  contextSet JSON_stringify now sid k v skill None context =
  (Ok (true, k),
   upsert (Time.CURRENT_TIMESTAMP now) sid k (JSON_stringify v)
     (Sql.or_null skill) None context).
Proof. reflexivity. Qed.

(** A lookup after a purge that spares the row. *)
Lemma contextGet_found later sid k (context : list ContextEntry) (row : ContextEntry) :
  find (at_key sid k) context = Some row ->
  expired (Time.CURRENT_TIMESTAMP later) row = false ->
  fst (contextGet JSON_parse of_string later sid k context) =
  Some (match JSON_parse (value row) with
        | Some v => v
        | None => of_string (value row)
        end).
Proof.
  intros Hf He. unfold contextGet, purge. cbn [fst].
  rewrite (find_filter_kept _ _ _ row Hf) by now rewrite He.
  now destruct (JSON_parse (value row)).
Qed.

(** What a set and a later get of the same key give, when the row is
    not purged in between and the value's text reads back as the value. *)
Lemma contextSet_then_get now later sid k v skill minutes
      (context context' : list ContextEntry) :
  contextSet JSON_stringify now sid k v skill minutes context = (Ok (true, k), context') ->
  (forall row, find (at_key sid k) context' = Some row ->
               expired (Time.CURRENT_TIMESTAMP later) row = false) ->
  JSON_parse (JSON_stringify v) = Some v ->
  fst (contextGet JSON_parse of_string later sid k context') = Some v.
Proof.
  intros Hset Hlive Hjson.
  unfold contextSet in Hset.
  destruct (Sql.or_null_num minutes) as [m |].
  - destruct (Time.toISOString (now + m * 60 * 1000)) as [iso | e]; [| discriminate].
    injection Hset as <-.
    destruct (find_upsert (Time.CURRENT_TIMESTAMP now) sid k (JSON_stringify v)
                (Sql.or_null skill) (Some iso) context) as [row [Hf [Hv _]]].
    rewrite (contextGet_found later sid k _ row Hf (Hlive row Hf)).
    now rewrite Hv, Hjson.
  - injection Hset as <-.
    destruct (find_upsert (Time.CURRENT_TIMESTAMP now) sid k (JSON_stringify v)
                (Sql.or_null skill) None context) as [row [Hf [Hv _]]].
    rewrite (contextGet_found later sid k _ row Hf (Hlive row Hf)).
    now rewrite Hv, Hjson.
Qed.

End ContextFacts.

Section ExpiryFacts.

(** Two texts with a common beginning compare as what follows it. *)
Lemma compare_common_prefix (p a b : string) :
  String.compare (p ++ a) (p ++ b) = String.compare a b.
Proof.
  induction p as [| c p IH]; [reflexivity |].
  cbn [append String.compare].
  assert (H : Ascii.compare c c = Eq).
  { unfold Ascii.compare. apply N.compare_refl. }
  now rewrite H.
Qed.

(** An ISO text is never below a [CURRENT_TIMESTAMP] text of the same
    date: after the date, the [T] of the one is above the blank of the
    other. *)
Lemma iso_not_below_same_date (date time time' : string) :
  String.ltb (date ++ "T" ++ time) (date ++ " " ++ time') = false.
Proof.
  unfold String.ltb. rewrite compare_common_prefix. reflexivity.
Qed.

(** A row whose expiry lies on the day of the clock reading is spared by
    the purge, at whatever time of that day the expiry is. *)
Lemma same_day_not_expired (e later : Z) (iso : string) (row : Context.ContextEntry) :
  Time.toISOString e = Ok iso ->
Context.expires_at row = Some iso ->
  Time.iso_date_string e = Time.date_string later ->
Context.expired (Time.CURRENT_TIMESTAMP later) row = false.
Proof.
  intros Hiso Hrow Hdate.
  unfold Context.expired. rewrite Hrow.
  unfold Time.toISOString in Hiso.
  destruct (Time.valid_time e); [| discriminate].
  injection Hiso as <-.
  unfold Time.CURRENT_TIMESTAMP. rewrite Hdate.
  apply iso_not_below_same_date.
Qed.

End ExpiryFacts.

(** C3 fails on the code.  At 2024-01-01 12:00:00 UTC a value is set with
    expires_in_minutes = -1, so its expires_at is one minute in the past;
    a contextGet of the same session and key one second later returns the
    value, and a contextList of the session a second after that still
    lists the key: the purge compares the ISO text of expires_at with the
    text of CURRENT_TIMESTAMP, and on the same date the ISO text is the
    greater. *)
Theorem C3_contextGet_returns_expired_entry :
  let v := Json.JObj [("a", Json.JNum 1)] in
  let set :=
    Context.contextSet Json.stringify 1704110400000 "s" "k" v None (Some (-1)) [] in
  let get := Context.contextGet Json.parse Json.JStr 1704110401000 "s" "k" (snd set) in
  let list := Context.contextList 1704110402000 "s" (snd get) in
  fst set = Ok (true, "k") /\
  map Context.expires_at (snd set) = [Some "2024-01-01T11:59:00.000Z"] /\
  Time.CURRENT_TIMESTAMP 1704110401000 = "2024-01-01 12:00:01" /\
  fst get = Some v /\
  map Context.key (fst list) = ["k"].
Proof. repeat split. Qed.

(** Once the UTC date has moved on, the purge does remove the row. *)
Example contextGet_next_day_purges :
  let v := Json.JObj [("a", Json.JNum 1)] in
  let set :=
    Context.contextSet Json.stringify 1704110400000 "s" "k" v None (Some (-1)) [] in
  Context.contextGet Json.parse Json.JStr (1704110400000 + 86400000) "s" "k" (snd set)
  = (None, []).
Proof. reflexivity. Qed.

(** The same on any table and at any later instant of that UTC day: a row
    written with an expiry on the day of the read survives the purge. *)
Lemma contextGet_same_day_finds_entry :
  forall now later sid k (v : Json.json) skill minutes context context',
    Context.contextSet Json.stringify now sid k v skill (Some minutes) context
    = (Ok (true, k), context') ->
    minutes <> 0 ->
    Time.iso_date_string (now + minutes * 60 * 1000) = Time.date_string later ->
    fst (Context.contextGet Json.parse Json.JStr later sid k context') <> None.
Proof.
  intros now later sid k v skill minutes context context' Hset Hm Hdate.
  unfold Context.contextSet in Hset.
  assert (Hnum : Sql.or_null_num (Some minutes) = Some minutes)
    by (destruct minutes; [congruence | reflexivity ..]).
  rewrite Hnum in Hset.
  destruct (Time.toISOString (now + minutes * 60 * 1000)) as [iso | e] eqn:Eiso;
    [| discriminate].
  injection Hset as <-.
  destruct (find_upsert (Time.CURRENT_TIMESTAMP now) sid k (Json.stringify v)
              (Sql.or_null skill) (Some iso) context) as [row [Hf [_ [He _]]]].
  rewrite (contextGet_found Json.parse Json.JStr later sid k _ row Hf
             (same_day_not_expired _ later iso row Eiso He Hdate)).
  discriminate.
Qed.


(** C10. contextSet with expires_in_minutes = 0 does what it does with
    expires_in_minutes omitted: the row is stored with no expires_at, and
    no purge at any later time removes it, so a contextGet of its session
    and key at any later time finds the value. *)
Theorem C10_contextSet_zero_minutes_never_expires :
  forall (json : Type) (JSON_stringify : json -> string)
         (JSON_parse : string -> option json) (of_string : string -> json)
         now session_id key (value : json) skill_name
         (context : list Context.ContextEntry),
    let set :=
      Context.contextSet JSON_stringify now session_id key value skill_name (Some 0)
        context in
    set = Context.contextSet JSON_stringify now session_id key value skill_name None
            context
    /\ fst set = Ok (true, key)
    /\ (exists row,
          find (Context.at_key session_id key) (snd set) = Some row /\
          Context.expires_at row = None /\
          Context.value row = JSON_stringify value /\
          forall later, In row (Context.purge later (snd set)))
    /\ (forall later,
          fst (Context.contextGet JSON_parse of_string later session_id key (snd set))
          = Some (match JSON_parse (JSON_stringify value) with
                  | Some v => v
                  | None => of_string (JSON_stringify value)
                  end)).
Proof.
  intros json JSON_stringify JSON_parse of_string now sid k v skill context set.
  assert (Hset : set = Context.contextSet JSON_stringify now sid k v skill None context)
    by reflexivity.
  split; [exact Hset |].
  rewrite Hset, contextSet_no_expiry. cbn [fst snd].
  split; [reflexivity |].
  destruct (find_upsert (Time.CURRENT_TIMESTAMP now) sid k (JSON_stringify v)
              (Sql.or_null skill) None context) as [row [Hf [Hv [He _]]]].
  assert (Hlive : forall later, Context.expired (Time.CURRENT_TIMESTAMP later) row = false)
    by (intros later; unfold Context.expired; now rewrite He).
  split.
  - exists row. split; [exact Hf |]. split; [exact He |]. split; [exact Hv |].
    intros later. unfold Context.purge. apply filter_In.
    split; [now apply find_some in Hf | now rewrite Hlive].
  - intros later.
    rewrite (contextGet_found JSON_parse of_string later sid k _ row Hf (Hlive later)).
    now rewrite Hv.
Qed.

(** * Further properties of the tools *)

(** ** ORDER BY, LIMIT and GROUP BY *)

Section OrderFacts.

Context {A : Type}.
Variable before : A -> A -> bool.

Lemma insert_Permutation (x : A) (l : list A) :
  Permutation (Sql.insert before x l) (x :: l).
Proof.
  induction l as [| y l IH]; simpl; [reflexivity |].
  destruct (before y x); [| reflexivity].
  rewrite IH. apply perm_swap.
Qed.

(** The sort returns the rows it is given, each as often as it is there. *)
Lemma ORDER_BY_Permutation (l : list A) : Permutation (Sql.ORDER_BY before l) l.
Proof.
  unfold Sql.ORDER_BY.
  induction l as [| x l IH]; simpl; [reflexivity |].
  rewrite insert_Permutation. now constructor.
Qed.

Hypothesis before_asym : forall a b, before a b = true -> before b a = false.

Lemma insert_in_order (x : A) (l : list A) :
  Props.in_order before l -> Props.in_order before (Sql.insert before x l).
Proof.
  unfold Props.in_order.
  induction l as [| y l IH]; simpl; intros H.
  - repeat constructor.
  - destruct (before y x) eqn:E.
    + apply Sorted_inv in H. destruct H as [Hs Hh].
      constructor; [now apply IH |].
      destruct l as [| z l]; simpl.
      * constructor. now apply before_asym.
      * destruct (before z x); constructor.
        -- now apply HdRel_inv in Hh.
        -- now apply before_asym.
    + constructor; [exact H | now constructor].
Qed.

Lemma ORDER_BY_in_order (l : list A) :
  Props.in_order before (Sql.ORDER_BY before l).
Proof.
  unfold Sql.ORDER_BY.
  induction l as [| x l IH]; simpl; [constructor | now apply insert_in_order].
Qed.

End OrderFacts.

Section SortedFacts.

Context {A : Type}.

Lemma Sorted_weaken (R R' : A -> A -> Prop) (l : list A) :
  (forall a b, R a b -> R' a b) -> Sorted R l -> Sorted R' l.
Proof.
  intros H. induction 1 as [| a l Hs IH Hh]; constructor; [exact IH |].
  destruct Hh; constructor. now apply H.
Qed.

Lemma Sorted_firstn (R : A -> A -> Prop) (n : nat) (l : list A) :
  Sorted R l -> Sorted R (firstn n l).
Proof.
  revert l. induction n as [| n IH]; intros l H; [constructor |].
  destruct l as [| a l]; [constructor |].
  apply Sorted_inv in H. destruct H as [Hs Hh]. simpl.
  constructor; [now apply IH |].
  destruct l as [| b l]; [rewrite firstn_nil; constructor |].
  destruct n; simpl; constructor. now apply HdRel_inv in Hh.
Qed.

Lemma LIMIT_Sorted (R : A -> A -> Prop) (n : Z) (l : list A) :
  Sorted R l -> Sorted R (Sql.LIMIT n l).
Proof.
  unfold Sql.LIMIT. destruct (n <? 0); [trivial | apply Sorted_firstn].
Qed.

Lemma LIMIT_length (n : Z) (l : list A) :
  0 <= n -> Z.of_nat (List.length (Sql.LIMIT n l)) <= n.
Proof.
  intros Hn. unfold Sql.LIMIT.
  destruct (n <? 0) eqn:E; [apply Z.ltb_lt in E; lia |].
  rewrite length_firstn. lia.
Qed.

(** The first row of a sorted table is ahead of every row, when the order
    is transitive. *)
Lemma Sorted_head (R : A -> A -> Prop) (a : A) (l : list A) :
  (forall x y z, R x y -> R y z -> R x z) ->
  Sorted R (a :: l) -> Forall (R a) l.
Proof.
  intros Ht H. apply Sorted_StronglySorted in H; [| exact Ht].
  now apply StronglySorted_inv in H.
Qed.

End SortedFacts.

Section GroupFacts.

Context {K : Type}.
Variable same : K -> K -> bool.
Hypothesis same_eq : forall a b, same a b = true <-> a = b.

Lemma distinct_values_In (k : K) (column : list K) :
  In k (Sql.distinct_values same column) <-> In k column.
Proof.
  induction column as [| x column IH]; simpl; [tauto |].
  rewrite filter_In, IH.
  split.
  - intros [H | [H _]]; tauto.
  - intros [H | H]; [now left |].
    destruct (same x k) eqn:E.
    + left. now apply same_eq.
    + right. split; [exact H | reflexivity].
Qed.

Lemma distinct_values_NoDup (column : list K) :
  NoDup (Sql.distinct_values same column).
Proof.
  induction column as [| x column IH]; simpl; constructor.
  - rewrite filter_In. intros [_ H].
    assert (E : same x x = true) by now apply same_eq.
    rewrite E in H. discriminate.
  - now apply NoDup_filter.
Qed.

Variable before : K -> K -> bool.

(** The groups: one per value of the column, with its number of rows. *)
Lemma GROUP_COUNT_keys (column : list K) :
  NoDup (map fst (Sql.GROUP_COUNT same before column)) /\
  forall k, In k (map fst (Sql.GROUP_COUNT same before column)) <-> In k column.
Proof.
  unfold Sql.GROUP_COUNT. rewrite map_map. cbn [fst]. rewrite map_id.
  split.
  - apply (Permutation_NoDup (l := Sql.distinct_values same column)).
    + symmetry. apply ORDER_BY_Permutation.
    + apply distinct_values_NoDup.
  - intros k. rewrite ORDER_BY_In. apply distinct_values_In.
Qed.

Lemma GROUP_COUNT_count (column : list K) (k : K) (n : Z) :
  In (k, n) (Sql.GROUP_COUNT same before column) ->
  n = Z.of_nat (List.length (filter (same k) column)).
Proof.
  unfold Sql.GROUP_COUNT. intros H.
  apply in_map_iff in H. destruct H as [k' [[= -> <-] _]]. reflexivity.
Qed.

End GroupFacts.

Section RecordFacts.

Lemma property_set_same (k : string) (v : Z) (o : Sql.record) :
  Sql.property k (Sql.set_property k v o) = Some v.
Proof.
  induction o as [| [k' v'] o IH]; simpl.
  - now rewrite String.eqb_refl.
  - destruct (String.eqb k' k) eqn:E; simpl; rewrite E; [reflexivity | exact IH].
Qed.

Lemma property_set_other (k k' : string) (v : Z) (o : Sql.record) :
  k' <> k -> Sql.property k (Sql.set_property k' v o) = Sql.property k o.
Proof.
  intros Hne.
  assert (Hk : String.eqb k' k = false) by now apply String.eqb_neq.
  induction o as [| [k0 v0] o IH]; simpl.
  - now rewrite Hk.
  - destruct (String.eqb k0 k') eqn:E; simpl.
    + apply String.eqb_eq in E. subst k0. now rewrite Hk.
    + destruct (String.eqb k0 k); [reflexivity | exact IH].
Qed.

Lemma property_assign_other (k k' : string) (v : Z) (o : Sql.record) :
  k' <> k -> Sql.property k (Sql.assign k' v o) = Sql.property k o.
Proof.
  intros Hne. unfold Sql.assign.
  destruct (String.eqb k' "__proto__"); [reflexivity |].
  now apply property_set_other.
Qed.

Context {K : Type}.
Variable key : K -> string.

Lemma find_none_filter {A : Type} (p : A -> bool) (l : list A) :
  filter p l = [] -> find p l = None.
Proof.
  induction l as [| x l IH]; simpl; [reflexivity |].
  destruct (p x); [discriminate | exact IH].
Qed.

(** Reading a property of a record filled from rows: the count of the
    one row that names it, when no two rows name that property. *)
Lemma property_fold (rows : list (K * Z)) (o : Sql.record) (k : string) :
  k <> "__proto__"%string ->
  (List.length (filter (fun row => String.eqb (key (fst row)) k) rows) <= 1)%nat ->
  Sql.property k
    (fold_left (fun o row => Sql.assign (key (fst row)) (snd row) o) rows o) =
  match find (fun row => String.eqb (key (fst row)) k) rows with
  | Some row => Some (snd row)
  | None => Sql.property k o
  end.
Proof.
  intros Hp. revert o.
  induction rows as [| [k0 n0] rows IH]; intros o Hone; [reflexivity |].
  cbn [filter fold_left find fst snd] in *.
  destruct (String.eqb (key k0) k) eqn:E.
  - cbn [List.length] in Hone.
    assert (Hnone : filter (fun row => String.eqb (key (fst row)) k) rows = [])
      by (destruct (filter _ rows); [reflexivity | simpl in Hone; lia]).
    rewrite IH by (rewrite Hnone; simpl; lia).
    rewrite (find_none_filter _ _ Hnone).
    apply String.eqb_eq in E. unfold Sql.assign. rewrite E.
    assert (Hk : String.eqb k "__proto__" = false) by now apply String.eqb_neq.
    rewrite Hk. apply property_set_same.
  - rewrite (IH _ Hone).
    destruct (find (fun row => String.eqb (key (fst row)) k) rows); [reflexivity |].
    apply property_assign_other. now apply String.eqb_neq.
Qed.

End RecordFacts.

Section GroupRecordFacts.

Context {K : Type}.
Variable same : K -> K -> bool.
Hypothesis same_eq : forall a b, same a b = true <-> a = b.
Variable before : K -> K -> bool.
Variable key : K -> string.

Lemma one_row_per_key (rows : list (K * Z)) (k : string) :
  NoDup (map fst rows) ->
  (forall a b, key a = k -> key b = k -> a = b) ->
  (List.length (filter (fun row => String.eqb (key (fst row)) k) rows) <= 1)%nat.
Proof.
  intros Hnd Hinj.
  induction rows as [| [a n] rows IH]; simpl; [lia |].
  cbn [map fst] in Hnd. apply NoDup_cons_iff in Hnd. destruct Hnd as [Hnot Hnd].
  destruct (String.eqb (key a) k) eqn:E; [| now apply IH].
  apply String.eqb_eq in E.
  assert (Hnone : filter (fun row => String.eqb (key (fst row)) k) rows = []).
  { destruct (filter _ rows) as [| row rest] eqn:F; [reflexivity |].
    assert (Hin : In row (filter (fun row => String.eqb (key (fst row)) k) rows))
      by (rewrite F; now left).
    apply filter_In in Hin. destruct Hin as [Hin Hk]. apply String.eqb_eq in Hk.
    exfalso. apply Hnot. rewrite (Hinj a (fst row) E Hk). now apply in_map. }
  rewrite Hnone. simpl. lia.
Qed.

(** The property [k] of the record made from the groups of a column: the
    number of rows with the value that is written [k], when only one
    value is written so. *)
Lemma property_GROUP_COUNT (column : list K) (k : string) :
  k <> "__proto__"%string ->
  (forall a b, key a = k -> key b = k -> a = b) ->
  Sql.property k (Sql.record_of key (Sql.GROUP_COUNT same before column)) =
  match find (fun x => String.eqb (key x) k) column with
  | Some x => Some (Z.of_nat (List.length (filter (same x) column)))
  | None => None
  end.
Proof.
  intros Hp Hinj.
  destruct (GROUP_COUNT_keys same same_eq before column) as [Hnd Hkeys].
  unfold Sql.record_of.
  rewrite property_fold by (try exact Hp; now apply one_row_per_key).
  destruct (find (fun x => String.eqb (key x) k) column) as [x |] eqn:F.
  - apply find_some in F. destruct F as [Hin Hk]. apply String.eqb_eq in Hk.
    apply Hkeys in Hin. apply in_map_iff in Hin. destruct Hin as [[x' n] [Hx Hin]].
    cbn [fst] in Hx. subst x'.
    destruct (find (fun row => String.eqb (key (fst row)) k)
                (Sql.GROUP_COUNT same before column)) as [row |] eqn:G.
    + apply find_some in G. destruct G as [Hrow Hrk]. apply String.eqb_eq in Hrk.
      destruct row as [y m]. cbn [fst snd] in *.
      rewrite (Hinj y x Hrk Hk) in Hrow.
      now rewrite (GROUP_COUNT_count same before column x m Hrow).
    + exfalso.
      assert (Hfalse : String.eqb (key (fst (x, n))) k = false)
        by (apply (find_none _ _ G); exact Hin).
      cbn [fst] in Hfalse. apply String.eqb_neq in Hfalse. congruence.
  - destruct (find (fun row => String.eqb (key (fst row)) k)
                (Sql.GROUP_COUNT same before column)) as [row |] eqn:G;
      [| reflexivity].
    exfalso. apply find_some in G. destruct G as [Hrow Hrk].
    assert (Hin : In (fst row) column)
      by (apply Hkeys; now apply in_map).
    rewrite (find_none _ _ F (fst row) Hin) in Hrk. discriminate.
Qed.

End GroupRecordFacts.

(** ** tools/memory.ts: read, list, delete, stats *)

Section MoreListFacts.

Context {A : Type}.

(** An update that leaves the rows of a search as they are does not
    change what the search finds. *)
Lemma find_map_fixed (p : A -> bool) (f : A -> A) (l : list A) :
  (forall y, p y = true -> f y = y) ->
  (forall y, p (f y) = p y) ->
  find p (map f l) = find p l.
Proof.
  intros Hfix Hp. induction l as [| y l IH]; simpl; [reflexivity |].
  rewrite Hp. destruct (p y) eqn:E; [now rewrite Hfix | exact IH].
Qed.

Lemma find_filter_other (p q : A -> bool) (l : list A) :
  (forall y, p y = true -> q y = true) ->
  find p (filter q l) = find p l.
Proof.
  intros H. induction l as [| y l IH]; simpl; [reflexivity |].
  destruct (q y) eqn:Q; simpl.
  - destruct (p y); [reflexivity | exact IH].
  - destruct (p y) eqn:P; [| exact IH].
    rewrite (H y P) in Q. discriminate.
Qed.

Lemma find_filter_gone (p : A -> bool) (l : list A) :
  find p (filter (fun y => negb (p y)) l) = None.
Proof.
  induction l as [| y l IH]; simpl; [reflexivity |].
  destruct (p y) eqn:P; simpl; [exact IH | now rewrite P].
Qed.

Lemma filter_none_same (p : A -> bool) (l : list A) :
  existsb p l = false -> filter (fun y => negb (p y)) l = l.
Proof.
  induction l as [| y l IH]; simpl; [reflexivity |].
  destruct (p y); simpl; [discriminate |].
  intros H. now rewrite IH.
Qed.

Lemma existsb_find (p : A -> bool) (l : list A) :
  existsb p l = match find p l with Some _ => true | None => false end.
Proof.
  induction l as [| y l IH]; simpl; [reflexivity |].
  now destruct (p y).
Qed.

End MoreListFacts.

Section MemoryMoreFacts.

Import Memory.

Lemma string_ltb_asym (a b : string) : String.ltb a b = true -> String.ltb b a = false.
Proof.
  unfold String.ltb. rewrite (String.compare_antisym b a).
  destruct (String.compare a b); simpl; congruence.
Qed.

(** [ltb a b = false] says that [b] is at most [a]. *)
Lemma string_ltb_false_leb (a b : string) :
  String.ltb a b = false -> String.leb b a = true.
Proof.
  unfold String.ltb, String.leb. rewrite (String.compare_antisym b a).
  destruct (String.compare a b); simpl; congruence.
Qed.


Lemma upsert_read_other ts k c tg sc src (memory : list MemoryEntry) (k' : string) :
  k' <> k ->
  find (with_key k') (upsert ts k c tg sc src memory) = find (with_key k') memory.
Proof.
  intros Hne. unfold upsert.
  destruct (existsb (with_key k) memory).
  - apply find_map_fixed.
    + intros y Hy. apply with_key_true in Hy.
      destruct (with_key k y) eqn:E; [| reflexivity].
      apply with_key_true in E. congruence.
    + intros y. now destruct (with_key k y).
  - apply find_app_other. unfold with_key. simpl.
    now apply String.eqb_neq.
Qed.

Lemma upsert_read_same ts k c tg sc src (memory : list MemoryEntry) :
  exists row,
    find (with_key k) (upsert ts k c tg sc src memory) = Some row /\
    key row = k /\ content row = c /\ tags row = tg /\ scope row = sc /\
    source row = Some src /\ updated_at row = ts.
Proof.
  unfold upsert.
  destruct (find (with_key k) memory) as [old |] eqn:F.
  - rewrite (find_some_existsb _ _ _ F).
    eexists. split.
    + apply find_map_stable; [| exact F].
      intros y. now destruct (with_key k y) eqn:E.
    + apply find_some in F. destruct F as [_ F]. rewrite F. simpl.
      apply with_key_true in F. auto 10.
  - assert (E : existsb (with_key k) memory = false) by now apply find_none_existsb.
    rewrite E. eexists. split.
    + apply find_app_new; [exact F |]. unfold with_key. simpl. apply String.eqb_refl.
    + simpl. auto 10.
Qed.

End MemoryMoreFacts.

(** X1. memoryWrite then memoryRead of the same key gives a row with the
    written content, tags text, scope, source and the timestamp of the
    write; the read of any other key gives what it gave before. *)
Theorem X1_memoryWrite_then_memoryRead :
  forall now key content tags scope source (memory : list Memory.MemoryEntry),
    fst (Memory.memoryWrite now key content tags scope source memory) = (true, key)
    /\
    (exists row,
        Memory.memoryRead key
          (snd (Memory.memoryWrite now key content tags scope source memory))
        = Some row /\
        Memory.key row = key /\
        Memory.content row = content /\
        Memory.tags row =
          option_map (fun l => Json.stringify (Json.JArr (map Json.JStr l))) tags /\
        Memory.scope row = match scope with Some s => s | None => "global" end /\
        Memory.source row = Some (match source with Some s => s | None => "manual" end) /\
        Memory.updated_at row = Time.CURRENT_TIMESTAMP now)
    /\
    (forall other,
        other <> key ->
        Memory.memoryRead other
          (snd (Memory.memoryWrite now key content tags scope source memory))
        = Memory.memoryRead other memory).
Proof.
  intros now key content tags scope source memory.
  split; [reflexivity |]. split.
  - unfold Memory.memoryRead, Memory.memoryWrite. cbn [snd].
    destruct (upsert_read_same (Time.CURRENT_TIMESTAMP now) key content
                (match tags with
                 | Some l => Some (Json.stringify (Json.JArr (map Json.JStr l)))
                 | None => None
                 end)
                (match scope with Some s => s | None => "global" end)
                (match source with Some s => s | None => "manual" end) memory)
      as [row [Hf [Hk [Hc [Ht [Hs [Hsrc Hu]]]]]]].
    exists row. rewrite Hf, Hk, Hc, Ht, Hs, Hsrc, Hu.
    destruct tags; repeat split.
  - intros other Hne. unfold Memory.memoryRead, Memory.memoryWrite. cbn [snd].
    now apply upsert_read_other.
Qed.

(** X2. memoryDelete answers deleted = true exactly when the key had a
    row; afterwards the key reads as absent and every other key reads as
    before; deleting a key that has no row leaves the table as it is. *)
Theorem X2_memoryDelete :
  forall key (memory : list Memory.MemoryEntry),
    fst (Memory.memoryDelete key memory)
    = (true, match Memory.memoryRead key memory with Some _ => true | None => false end)
    /\ Memory.memoryRead key (snd (Memory.memoryDelete key memory)) = None
    /\ (forall other,
          other <> key ->
          Memory.memoryRead other (snd (Memory.memoryDelete key memory))
          = Memory.memoryRead other memory)
    /\ (Memory.memoryRead key memory = None ->
        snd (Memory.memoryDelete key memory) = memory).
Proof.
  intros key memory. unfold Memory.memoryDelete, Memory.memoryRead. cbn [fst snd].
  split; [now rewrite existsb_find |].
  split; [apply find_filter_gone |].
  split.
  - intros other Hne. apply find_filter_other.
    intros y Hy. apply with_key_true in Hy.
    destruct (Memory.with_key key y) eqn:E; [| reflexivity].
    apply with_key_true in E. congruence.
  - intros Hnone. apply filter_none_same. now apply find_none_existsb.
Qed.

Section MemoryListFacts.

Import Memory.

(** The rows [memoryList] sorts: those that pass both conditions. *)
Lemma memoryList_rows scope prefix limit (memory : list MemoryEntry) :
  memoryList scope prefix limit memory =
  Sql.LIMIT (match limit with Some n => n | None => 100 end)
    (Sql.ORDER_BY updated_after (filter (Props.listed scope prefix) memory)).
Proof.
  unfold memoryList, Props.listed. f_equal. f_equal.
  destruct (Sql.or_null scope) as [sc |], (Sql.or_null prefix) as [p |].
  - apply filter_andb.
  - apply filter_ext. intros row. now rewrite andb_true_r.
  - reflexivity.
  - symmetry. apply filter_all, forallb_forall. reflexivity.
Qed.

End MemoryListFacts.

(** X3. Every row memoryList returns is a row of the table that has the
    scope asked for and a key LIKE prefix%; the rows come newest
    updated_at first; and they are at most limit (100 when none is given)
    for a limit that is not negative. *)
Theorem X3_memoryList_filter_order_limit :
  forall scope prefix limit (memory : list Memory.MemoryEntry),
    (forall row,
        In row (Memory.memoryList scope prefix limit memory) ->
        In row memory /\
        (forall sc, Sql.or_null scope = Some sc -> Memory.scope row = sc) /\
        (forall p, Sql.or_null prefix = Some p ->
                   Sql.LIKE (Some (Memory.key row)) (p ++ "%")%string = true))
    /\
    Sorted (fun a b => String.leb (Memory.updated_at b) (Memory.updated_at a) = true)
      (Memory.memoryList scope prefix limit memory)
    /\
    (0 <= match limit with Some n => n | None => 100 end ->
     Z.of_nat (List.length (Memory.memoryList scope prefix limit memory))
     <= match limit with Some n => n | None => 100 end).
Proof.
  intros scope prefix limit memory. rewrite memoryList_rows.
  split; [| split].
  - intros row H. apply LIMIT_In, ORDER_BY_In, filter_In in H.
    destruct H as [Hin Hl]. split; [exact Hin |].
    unfold Props.listed in Hl. apply andb_prop in Hl. destruct Hl as [H1 H2].
    split.
    + intros sc Hsc. rewrite Hsc in H1. now apply String.eqb_eq in H1.
    + intros p Hp. rewrite Hp in H2. exact H2.
  - apply LIMIT_Sorted.
    apply (Sorted_weaken (fun a b => Memory.updated_after b a = false)).
    + intros a b. unfold Memory.updated_after. apply string_ltb_false_leb.
    + apply ORDER_BY_in_order.
      intros a b. unfold Memory.updated_after. apply string_ltb_asym.
  - apply LIMIT_length.
Qed.



Section MemoryStatsFacts.

Import Memory.

Lemma find_in_column {A : Type} (f : A -> string) (k : string) (l : list A) :
  find (fun x => String.eqb x k) (map f l) =
  if existsb (fun row => String.eqb (f row) k) l then Some k else None.
Proof.
  induction l as [| row l IH]; simpl; [reflexivity |].
  destruct (String.eqb (f row) k) eqn:E; [| exact IH].
  apply String.eqb_eq in E. now rewrite E.
Qed.

Lemma count_in_column {A : Type} (f : A -> string) (k : string) (l : list A) :
  List.length (filter (String.eqb k) (map f l)) =
  List.length (filter (fun row => String.eqb (f row) k) l).
Proof.
  induction l as [| row l IH]; simpl; [reflexivity |].
  rewrite (String.eqb_sym k (f row)).
  destruct (String.eqb (f row) k); simpl; now rewrite IH.
Qed.

Lemma same_text_eq (a b : option string) : Sql.same_text a b = true <-> a = b.
Proof.
  destruct a as [x |], b as [y |]; simpl; try (split; congruence).
  rewrite String.eqb_eq. split; congruence.
Qed.

Lemma source_key_named (s : string) (a : option string) :
  s <> ""%string -> s <> "unknown"%string ->
  Memory.source_key a = s <-> a = Some s.
Proof.
  intros H1 H2. unfold Memory.source_key.
  destruct a as [[| c x] |]; simpl; split; congruence.
Qed.

Lemma source_key_matches (src : string) (a : option string) :
  src <> ""%string -> src <> "unknown"%string ->
  String.eqb (Memory.source_key a) src = Sql.same_text (Some src) a.
Proof.
  intros He Hu.
  destruct (String.eqb (Memory.source_key a) src) eqn:E.
  - apply String.eqb_eq, source_key_named in E; try assumption.
    subst a. simpl. now rewrite String.eqb_refl.
  - destruct (Sql.same_text (Some src) a) eqn:S; [| reflexivity].
    apply same_text_eq in S. symmetry in S.
    apply (source_key_named src a He Hu) in S.
    apply String.eqb_neq in E. congruence.
Qed.

Lemma find_source (src : string) (memory : list MemoryEntry) :
  src <> ""%string -> src <> "unknown"%string ->
  find (fun x => String.eqb (Memory.source_key x) src) (map source memory) =
  if existsb (fun row => Sql.same_text (Some src) (source row)) memory
  then Some (Some src) else None.
Proof.
  intros He Hu. induction memory as [| row memory IH]; [reflexivity |].
  cbn [map find existsb].
  rewrite (source_key_matches src _ He Hu).
  destruct (Sql.same_text (Some src) (source row)) eqn:S; [| exact IH].
  apply same_text_eq in S. now rewrite <- S.
Qed.

Lemma count_map {A B : Type} (f : A -> B) (p : B -> bool) (l : list A) :
  List.length (filter p (map f l)) = List.length (filter (fun x => p (f x)) l).
Proof.
  induction l as [| x l IH]; simpl; [reflexivity |].
  destruct (p (f x)); simpl; now rewrite IH.
Qed.

End MemoryStatsFacts.

(** X5. memoryStats: total is the number of rows; byScope has, for every
    scope that some row has, the number of rows with it, and no property
    for a scope that no row has; bySource has the same for every source
    other than the empty text and unknown.  (The name __proto__ apart,
    which a JavaScript object does not take as a property.) *)
Theorem X5_memoryStats_counts :
  forall (memory : list Memory.MemoryEntry),
    Memory.total (Memory.memoryStats memory) = Z.of_nat (List.length memory)
    /\
    (forall sc,
        sc <> "__proto__"%string ->
        Sql.property sc (Memory.byScope (Memory.memoryStats memory)) =
        if existsb (Memory.in_scope sc) memory
        then Some (Z.of_nat (List.length (filter (Memory.in_scope sc) memory)))
        else None)
    /\
    (forall src,
        src <> "__proto__"%string -> src <> ""%string -> src <> "unknown"%string ->
        Sql.property src (Memory.bySource (Memory.memoryStats memory)) =
        if existsb (fun row => Sql.same_text (Some src) (Memory.source row)) memory
        then Some (Z.of_nat (List.length
                     (filter (fun row => Sql.same_text (Some src) (Memory.source row))
                        memory)))
        else None).
Proof.
  intros memory. split; [reflexivity |]. split.
  - intros sc Hp. unfold Memory.memoryStats. cbn [Memory.byScope].
    rewrite (property_GROUP_COUNT String.eqb String.eqb_eq)
      by (try exact Hp; congruence).
    rewrite find_in_column. unfold Memory.in_scope.
    destruct (existsb _ memory); [| reflexivity].
    now rewrite count_in_column.
  - intros src Hp He Hu. unfold Memory.memoryStats. cbn [Memory.bySource].
    rewrite (property_GROUP_COUNT Sql.same_text same_text_eq).
    + rewrite (find_source src memory He Hu).
      destruct (existsb _ memory); [| reflexivity].
      now rewrite count_map.
    + exact Hp.
    + intros a b Ha Hb.
      apply source_key_named in Ha, Hb; try assumption. congruence.
Qed.

(** X6. Whatever the full-text engine answers, the rows memorySearch
    returns are rows of table memory whose rowid the engine matched, all in
    the scope asked for, and at most limit (20 when none is given) for a
    limit that is not negative. *)
Theorem X6_memorySearch_rows :
  forall MATCH query scope limit (memory rows : list Memory.MemoryEntry),
    Memory.memorySearch MATCH query scope limit memory = Ok rows ->
    (forall row,
        In row rows ->
        In row memory /\
        (forall sc, Sql.or_null scope = Some sc -> Memory.scope row = sc) /\
        (exists rowids,
            MATCH query (Memory.memory_fts memory) = inr rowids /\
            In (Memory.id row) rowids))
    /\
    (0 <= match limit with Some n => n | None => 20 end ->
     Z.of_nat (List.length rows) <= match limit with Some n => n | None => 20 end).
Proof.
  intros MATCH query scope limit memory rows H.
  unfold Memory.memorySearch in H.
  destruct (MATCH query (Memory.memory_fts memory)) as [code | rowids] eqn:E;
    [discriminate |].
  injection H as <-. split; [| apply LIMIT_length].
  intros row Hrow. apply LIMIT_In in Hrow.
  assert (Hjoin : forall r,
             In r (flat_map (fun rowid => filter (fun row => Memory.id row =? rowid) memory)
                     rowids) ->
             In r memory /\ In (Memory.id r) rowids).
  { intros r Hr. apply in_flat_map in Hr. destruct Hr as [rowid [Hid Hr]].
    apply filter_In in Hr. destruct Hr as [Hin Heq].
    apply Z.eqb_eq in Heq. rewrite Heq. tauto. }
  destruct (Sql.or_null scope) as [sc |].
  - apply filter_In in Hrow. destruct Hrow as [Hrow Hsc].
    destruct (Hjoin row Hrow) as [Hin Hid].
    split; [exact Hin |]. split.
    + intros sc' [= <-]. now apply String.eqb_eq in Hsc.
    + now exists rowids.
  - destruct (Hjoin row Hrow) as [Hin Hid].
    split; [exact Hin |]. split; [discriminate | now exists rowids].
Qed.

(** An engine that matches every document, a table of two scopes. *)
Lemma X6_memorySearch_rows_witness :
  let entry i k sc :=
    {| Memory.id := i; Memory.key := k; Memory.content := "c"; Memory.tags := None;
       Memory.scope := sc; Memory.source := Some "manual";
       Memory.created_at := "2024-01-01 12:00:00";
       Memory.updated_at := "2024-01-01 12:00:00" |} in
  let memory := [entry 1 "a" "global"; entry 2 "b" "project:x"] in
  Memory.memorySearch Props.fts5_match_all "c" (Some "project:x") None memory
  = Ok [entry 2 "b" "project:x"] /\
  Z.of_nat (List.length [entry 2 "b" "project:x"]) <= 20.
Proof.
  intros entry memory. split; [reflexivity |].
  refine (proj2 (X6_memorySearch_rows Props.fts5_match_all "c" (Some "project:x"%string)
                   None memory _ eq_refl) _).
  lia.
Defined.

(** ** tools/failures.ts: get, list, update, delete, stats, search *)

Section FailureMoreFacts.

Import Failures.

Lemma more_common_asym (a b : Failure) :
  more_common a b = true -> more_common b a = false.
Proof.
  unfold more_common. intros H.
  apply orb_true_iff in H. apply orb_false_iff.
  destruct H as [H | H].
  - apply Z.ltb_lt in H. split.
    + apply Z.ltb_ge. lia.
    + apply andb_false_iff. left. apply Z.eqb_neq. lia.
  - apply andb_prop in H. destruct H as [He Hl]. apply Z.eqb_eq in He.
    split.
    + apply Z.ltb_ge. lia.
    + apply andb_false_iff. right. now apply string_ltb_asym.
Qed.

Lemma more_common_false (a b : Failure) :
  more_common b a = false ->
  occurrence_count b < occurrence_count a \/
  (occurrence_count b = occurrence_count a /\
   String.leb (last_seen_at b) (last_seen_at a) = true).
Proof.
  unfold more_common. intros H. apply orb_false_iff in H. destruct H as [H1 H2].
  apply Z.ltb_ge in H1. apply andb_false_iff in H2.
  destruct H2 as [H2 | H2].
  - apply Z.eqb_neq in H2. left. lia.
  - destruct (Z.eq_dec (occurrence_count b) (occurrence_count a)) as [E | E].
    + right. split; [exact E | now apply string_ltb_false_leb].
    + left. lia.
Qed.

Lemma occurs_more_asym (a b : Failure) :
  occurs_more a b = true -> occurs_more b a = false.
Proof.
  unfold occurs_more. intros H. apply Z.ltb_lt in H. apply Z.ltb_ge. lia.
Qed.

Lemma occurs_more_false (a b : Failure) :
  occurs_more b a = false -> occurrence_count b <= occurrence_count a.
Proof. unfold occurs_more. intros H. apply Z.ltb_ge in H. lia. Qed.

(** The first row of the table sorted by occurrence_count: none when the
    table is empty, otherwise a row of the table that no row exceeds. *)
Lemma most_common_max (failures : list Failure) :
  match hd_error (Sql.ORDER_BY occurs_more failures) with
  | None => failures = []
  | Some top =>
      In top failures /\
      forall row, In row failures -> occurrence_count row <= occurrence_count top
  end.
Proof.
  pose proof (ORDER_BY_in_order occurs_more occurs_more_asym failures) as Hs.
  pose proof (fun y => ORDER_BY_In occurs_more y failures) as Hin.
  pose proof (ORDER_BY_length occurs_more failures) as Hlen.
  remember (Sql.ORDER_BY occurs_more failures) as sorted eqn:Es. clear Es.
  destruct sorted as [| top rest]; simpl.
  - destruct failures; [reflexivity | discriminate].
  - split; [apply Hin; now left |].
    apply (Sorted_weaken _ (fun a b => occurrence_count b <= occurrence_count a)) in Hs;
      [| intros a b; apply occurs_more_false].
    apply Sorted_head in Hs; [| intros x y z; lia].
    intros row Hrow. apply Hin in Hrow. destruct Hrow as [<- | Hrow]; [lia |].
    rewrite Forall_forall in Hs. now apply Hs.
Qed.

End FailureMoreFacts.

Section FailureRecordFacts.

Import Failures.

Lemma NoDup_map_same {A B : Type} (f : A -> B) (l : list A) (a b : A) :
  NoDup (map f l) -> In a l -> In b l -> f a = f b -> a = b.
Proof.
  induction l as [| x l IH]; simpl; [tauto |].
  intros Hnd Ha Hb Hf. apply NoDup_cons_iff in Hnd. destruct Hnd as [Hnot Hnd].
  destruct Ha as [-> | Ha], Hb as [-> | Hb].
  - reflexivity.
  - exfalso. apply Hnot. rewrite Hf. now apply in_map.
  - exfalso. apply Hnot. rewrite <- Hf. now apply in_map.
  - now apply IH.
Qed.

Lemma bump_ids ts sol msg rowid (failures : list Failure) :
  map id (bump ts sol msg rowid failures) = map id failures.
Proof.
  unfold bump. rewrite map_map. apply map_ext.
  intros row. now destruct (id row =? rowid).
Qed.

Lemma bump_patterns ts sol msg rowid (failures : list Failure) :
  map error_pattern (bump ts sol msg rowid failures) = map error_pattern failures.
Proof.
  unfold bump. rewrite map_map. apply map_ext.
  intros row. now destruct (id row =? rowid).
Qed.

Lemma find_pattern_in (p : string) (failures : list Failure) :
  find (with_pattern p) failures = None -> ~ In p (map error_pattern failures).
Proof.
  intros H Hin. apply in_map_iff in Hin. destruct Hin as [row [Hp Hin]].
  pose proof (find_none _ _ H row Hin) as Hf.
  unfold with_pattern in Hf. rewrite Hp, String.eqb_refl in Hf. discriminate.
Qed.

(** One call: the rowids stay distinct, the patterns stay distinct, and
    the count on record grows by one for the pattern of the call and for
    no other. *)
Lemma failureRecord_step (c : Props.failure_call) (failures : list Failure) :
  NoDup (map id failures) ->
  NoDup (map id (Props.apply_record failures c)) /\
  (NoDup (map error_pattern failures) ->
   NoDup (map error_pattern (Props.apply_record failures c))) /\
  forall p,
    Props.recorded p (Props.apply_record failures c) =
    Props.recorded p failures + (if String.eqb (Props.f_pattern c) p then 1 else 0).
Proof.
  intros Hids. unfold Props.apply_record, failureRecord. cbn [snd].
  destruct (find (with_pattern (Props.f_pattern c)) failures) as [row |] eqn:F.
  - rewrite bump_ids, bump_patterns. split; [exact Hids |]. split; [trivial |].
    intros p. unfold Props.recorded, bump.
    pose proof (find_some _ _ F) as [Hrow Hcp]. apply String.eqb_eq in Hcp.
    destruct (find (with_pattern p) failures) as [r |] eqn:Fp.
    + rewrite (find_map_stable _ _ _ r
                 (bump_keeps_pattern _ _ _ (id row) p) Fp).
      pose proof (find_some _ _ Fp) as [Hr Hp]. apply String.eqb_eq in Hp.
      destruct (String.eqb (Props.f_pattern c) p) eqn:E.
      * apply String.eqb_eq in E. rewrite <- E, F in Fp. injection Fp as <-.
        rewrite Z.eqb_refl. reflexivity.
      * destruct (id r =? id row) eqn:Ei; [| simpl; lia].
        apply Z.eqb_eq in Ei.
        rewrite (NoDup_map_same id failures r row Hids Hr Hrow Ei) in Hp.
        apply String.eqb_neq in E. congruence.
    + rewrite (find_map_none _ _ _ (bump_keeps_pattern _ _ _ (id row) p) Fp).
      destruct (String.eqb (Props.f_pattern c) p) eqn:E; [| reflexivity].
      apply String.eqb_eq in E. rewrite E in F. congruence.
  - unfold insert. rewrite !map_app. cbn [map id error_pattern].
    split; [| split].
    + apply NoDup_app; [exact Hids | repeat constructor; simpl; tauto |].
      intros x Hx [<- | []].
      pose proof (next_rowid_fresh _ _ Hx). lia.
    + intros Hp. apply NoDup_app; [exact Hp | repeat constructor; simpl; tauto |].
      intros x Hx [<- | []]. now apply (find_pattern_in _ _ F).
    + intros p. unfold Props.recorded.
      destruct (String.eqb (Props.f_pattern c) p) eqn:E.
      * apply String.eqb_eq in E. subst p. rewrite F.
        rewrite find_app_new; [reflexivity | exact F |].
        unfold with_pattern. simpl. apply String.eqb_refl.
      * rewrite find_app_other; [lia |].
        unfold with_pattern. simpl. exact E.
Qed.

End FailureRecordFacts.

(** X7. failureRecord keeps one row per pattern and counts every call:
    from a table with distinct rowids, after any sequence of failureRecord
    calls the rowids are distinct, the patterns are distinct if they were,
    and the occurrence_count on record for a pattern is the one before
    (0 without a row) plus the number of calls made for it. *)
Theorem X7_failureRecord_counts_calls :
  forall (failures : list Failures.Failure) (calls : list Props.failure_call),
    NoDup (map Failures.id failures) ->
    NoDup (map Failures.id (Props.run_records calls failures))
    /\ (NoDup (map Failures.error_pattern failures) ->
        NoDup (map Failures.error_pattern (Props.run_records calls failures)))
    /\ (forall p,
          Props.recorded p (Props.run_records calls failures)
          = Props.recorded p failures + Props.times p calls).
Proof.
  intros failures calls. revert failures.
  induction calls as [| c calls IH]; intros failures Hids.
  - split; [exact Hids |]. split; [trivial |].
    intros p. unfold Props.times. simpl. lia.
  - destruct (failureRecord_step c failures Hids) as [H1 [H2 H3]].
    destruct (IH _ H1) as [I1 [I2 I3]].
    cbn [Props.run_records fold_left]. fold (Props.run_records calls).
    split; [exact I1 |]. split; [auto |].
    intros p. unfold Props.run_records in I3. rewrite I3, H3.
    unfold Props.times. cbn [filter].
    destruct (String.eqb (Props.f_pattern c) p); cbn [List.length]; lia.
Qed.

(** Three calls, two of them for the same pattern, on the empty table. *)
Lemma X7_failureRecord_counts_calls_witness :
  let call p sol :=
    {| Props.f_now := 1704110400000; Props.f_pattern := p; Props.f_message := None;
       Props.f_solution := sol; Props.f_skill := None; Props.f_path := None |} in
  let calls := [call "TypeError: x" (Some "fix1"); call "ENOENT" None;
                call "TypeError: x" None] in
  NoDup (map Failures.id []) /\
  Props.recorded "TypeError: x" (Props.run_records calls []) = 0 + 2 /\
  NoDup (map Failures.error_pattern (Props.run_records calls [])).
Proof.
  intros call calls.
  assert (H0 : NoDup (map Failures.id [])) by apply NoDup_nil.
  destruct (X7_failureRecord_counts_calls [] calls H0) as [_ [Hp Hc]].
  split; [exact H0 |]. split.
  - exact (Hc "TypeError: x"%string).
  - apply Hp. apply NoDup_nil.
Defined.

(** X8. failureUpdate stores the solution exactly as it is given (the
    empty text too) in the row of the id and changes nothing else of it;
    failureGet of any other id gives what it gave before; an id with no
    row leaves the table as it is, and the answer is success all the same. *)
Theorem X8_failureUpdate_then_failureGet :
  forall id solution (failures : list Failures.Failure),
    fst (Failures.failureUpdate id solution failures) = true
    /\ Failures.failureGet id (snd (Failures.failureUpdate id solution failures))
       = option_map (Failures.solved solution) (Failures.failureGet id failures)
    /\ (forall other,
          other <> id ->
          Failures.failureGet other (snd (Failures.failureUpdate id solution failures))
          = Failures.failureGet other failures)
    /\ (Failures.failureGet id failures = None ->
        snd (Failures.failureUpdate id solution failures) = failures)
    /\ List.length (snd (Failures.failureUpdate id solution failures))
       = List.length failures.
Proof.
  intros id solution failures.
  unfold Failures.failureUpdate, Failures.failureGet. cbn [fst snd].
  split; [reflexivity |].
  assert (Hid : forall other y,
             (Failures.id (if Failures.id y =? id then Failures.solved solution y else y)
              =? other) = (Failures.id y =? other))
    by (intros other y; now destruct (Failures.id y =? id)).
  split; [| split; [| split]].
  - destruct (find (fun row => Failures.id row =? id) failures) as [row |] eqn:F.
    + rewrite (find_map_stable _ _ _ row (Hid id) F).
      apply find_some in F. destruct F as [_ F]. now rewrite F.
    + now rewrite (find_map_none _ _ _ (Hid id) F).
  - intros other Hne. apply find_map_fixed; [| apply Hid].
    intros y Hy. apply Z.eqb_eq in Hy.
    destruct (Failures.id y =? id) eqn:E; [| reflexivity].
    apply Z.eqb_eq in E. congruence.
  - intros Hnone. rewrite <- (map_id failures) at 2. apply map_ext_in.
    intros y Hy. now rewrite (find_none _ _ Hnone y Hy).
  - apply length_map.
Qed.

(** X9. failureDelete answers deleted = true exactly when the id had a
    row; afterwards failureGet of the id gives nothing and of any other id
    what it gave before. *)
Theorem X9_failureDelete :
  forall id (failures : list Failures.Failure),
    fst (Failures.failureDelete id failures)
    = (true, match Failures.failureGet id failures with Some _ => true | None => false end)
    /\ Failures.failureGet id (snd (Failures.failureDelete id failures)) = None
    /\ (forall other,
          other <> id ->
          Failures.failureGet other (snd (Failures.failureDelete id failures))
          = Failures.failureGet other failures).
Proof.
  intros id failures. unfold Failures.failureDelete, Failures.failureGet. cbn [fst snd].
  split; [now rewrite existsb_find |].
  split; [apply (find_filter_gone (fun row => Failures.id row =? id)) |].
  intros other Hne. apply find_filter_other.
  intros y Hy. apply Z.eqb_eq in Hy.
  destruct (Failures.id y =? id) eqn:E; [| reflexivity].
  apply Z.eqb_eq in E. congruence.
Qed.

(** X10. Every row failureList returns is a row of the table, of the skill
    asked for when one is; the rows come by falling occurrence_count, and
    among equal counts latest last_seen_at first; and they are at most
    limit (50 when none is given) for a limit that is not negative. *)
Theorem X10_failureList_filter_order_limit :
  forall skill_name limit (failures : list Failures.Failure),
    (forall row,
        In row (Failures.failureList skill_name limit failures) ->
        In row failures /\
        (forall n, Sql.or_null skill_name = Some n -> Failures.skill_name row = Some n))
    /\
    Sorted (fun a b =>
              Failures.occurrence_count b < Failures.occurrence_count a \/
              (Failures.occurrence_count b = Failures.occurrence_count a /\
               String.leb (Failures.last_seen_at b) (Failures.last_seen_at a) = true))
      (Failures.failureList skill_name limit failures)
    /\
    (0 <= match limit with Some n => n | None => 50 end ->
     Z.of_nat (List.length (Failures.failureList skill_name limit failures))
     <= match limit with Some n => n | None => 50 end).
Proof.
  intros skill_name limit failures. unfold Failures.failureList.
  assert (Hsorted : forall l n,
             Sorted (fun a b =>
                       Failures.occurrence_count b < Failures.occurrence_count a \/
                       (Failures.occurrence_count b = Failures.occurrence_count a /\
                        String.leb (Failures.last_seen_at b) (Failures.last_seen_at a)
                        = true))
               (Sql.LIMIT n (Sql.ORDER_BY Failures.more_common l))).
  { intros l n. apply LIMIT_Sorted.
    apply (Sorted_weaken (fun a b => Failures.more_common b a = false)).
    - intros a b. apply more_common_false.
    - apply ORDER_BY_in_order. apply more_common_asym. }
  destruct (Sql.or_null skill_name) as [n |].
  - split; [| split; [apply Hsorted | apply LIMIT_length]].
    intros row H. apply LIMIT_In, ORDER_BY_In, filter_In in H.
    destruct H as [Hin Hs]. split; [exact Hin |].
    intros n' [= <-]. unfold Failures.of_skill in Hs.
    destruct (Failures.skill_name row) as [s |]; [| discriminate].
    apply String.eqb_eq in Hs. now subst.
  - split; [| split; [apply Hsorted | apply LIMIT_length]].
    intros row H. apply LIMIT_In, ORDER_BY_In in H.
    split; [exact H | discriminate].
Qed.

Section FailureStatsFacts.

Import Failures.

Lemma find_skill_name (s : string) (failures : list Failure) :
  find (fun x => String.eqb x s) (skill_names failures) =
  if existsb (of_skill s) failures then Some s else None.
Proof.
  induction failures as [| row failures IH]; [reflexivity |].
  cbn [skill_names existsb]. unfold of_skill at 1.
  destruct (skill_name row) as [x |]; [| exact IH].
  cbn [find]. destruct (String.eqb x s) eqn:E; [| exact IH].
  apply String.eqb_eq in E. now rewrite E.
Qed.

Lemma count_skill_name (s : string) (failures : list Failure) :
  List.length (filter (String.eqb s) (skill_names failures)) =
  List.length (filter (of_skill s) failures).
Proof.
  induction failures as [| row failures IH]; [reflexivity |].
  cbn [skill_names filter]. unfold of_skill at 1.
  destruct (skill_name row) as [x |]; [| exact IH].
  cbn [filter]. rewrite (String.eqb_sym s x).
  destruct (String.eqb x s); cbn [List.length]; now rewrite IH.
Qed.

End FailureStatsFacts.

(** X11. failureStats: total is the number of rows and with_solution is
    at most total; most_common is null exactly for the empty table and
    otherwise a row of the table that no row exceeds in occurrence_count;
    by_skill has, for every skill some row names, the number of rows that
    name it, and no property for a skill no row names (__proto__ apart). *)
Theorem X11_failureStats :
  forall (failures : list Failures.Failure),
    Failures.total (Failures.failureStats failures) = Z.of_nat (List.length failures)
    /\ 0 <= Failures.with_solution (Failures.failureStats failures)
         <= Failures.total (Failures.failureStats failures)
    /\ match Failures.most_common (Failures.failureStats failures) with
       | None => failures = []
       | Some top =>
           In top failures /\
           forall row, In row failures ->
                       Failures.occurrence_count row <= Failures.occurrence_count top
       end
    /\ (forall s,
          s <> "__proto__"%string ->
          Sql.property s (Failures.by_skill (Failures.failureStats failures)) =
          if existsb (Failures.of_skill s) failures
          then Some (Z.of_nat (List.length (filter (Failures.of_skill s) failures)))
          else None).
Proof.
  intros failures. unfold Failures.failureStats.
  cbn [Failures.total Failures.with_solution Failures.most_common Failures.by_skill].
  split; [reflexivity |]. split; [| split].
  - pose proof (filter_length_le
                  (fun row => match Failures.solution row with
                              | Some _ => true
                              | None => false
                              end) failures). lia.
  - apply most_common_max.
  - intros s Hp.
    rewrite (property_GROUP_COUNT String.eqb String.eqb_eq)
      by (try exact Hp; congruence).
    rewrite find_skill_name.
    destruct (existsb _ failures); [| reflexivity].
    now rewrite count_skill_name.
Qed.


(** ** tools/skills.ts: register, list, stats, and the tables' integrity *)

Section SkillTableFacts.

Import Skills.

Lemma named_true (n : string) (s : Skill) : named n s = true <-> name s = n.
Proof. unfold named. apply String.eqb_eq. Qed.

Lemma existsb_named (n : string) (l : list Skill) :
  existsb (named n) l = true <-> In n (map name l).
Proof.
  rewrite existsb_exists, in_map_iff.
  split; intros [s [H1 H2]]; exists s.
  - apply named_true in H2. tauto.
  - split; [tauto | now apply named_true].
Qed.

Lemma upsert_names ts n v src path by_ (l : list Skill) :
  map name (upsert ts n v src path by_ l) =
  if existsb (named n) l then map name l else map name l ++ [n].
Proof.
  unfold upsert. destruct (existsb (named n) l).
  - rewrite map_map. apply map_ext. intros s. now destruct (named n s).
  - now rewrite map_app.
Qed.

Lemma touch_names ts n (l : list Skill) : map name (touch ts n l) = map name l.
Proof.
  unfold touch. rewrite map_map. apply map_ext. intros s. now destruct (named n s).
Qed.

Lemma count_use_names n (l : list Skill) : map name (count_use n l) = map name l.
Proof.
  unfold count_use. rewrite map_map. apply map_ext. intros s. now destruct (named n s).
Qed.

Lemma complete_ids ts ok out tokens nts i (l : list SkillUsage) :
  map u_id (complete ts ok out tokens nts i l) = map u_id l.
Proof.
  unfold complete. rewrite map_map. apply map_ext.
  intros u. now destruct (usage_with_id i u).
Qed.

Lemma complete_names ts ok out tokens nts i (l : list SkillUsage) :
  map u_skill_name (complete ts ok out tokens nts i l) = map u_skill_name l.
Proof.
  unfold complete. rewrite map_map. apply map_ext.
  intros u. now destruct (usage_with_id i u).
Qed.

(** The foreign key, read on the two columns it relates. *)
Lemma references_by_columns (t : Tables) :
  (forall u, In u (skill_usage t) ->
             existsb (named (u_skill_name u)) (skills t) = true) <->
  (forall n, In n (map u_skill_name (skill_usage t)) -> In n (map name (skills t))).
Proof.
  split.
  - intros H n Hn. apply in_map_iff in Hn. destruct Hn as [u [<- Hu]].
    apply existsb_named. now apply H.
  - intros H u Hu. apply existsb_named. apply H. now apply in_map.
Qed.

Lemma integrity_step (t : Tables) (op : Props.skill_op) :
  Props.skills_integrity t -> Props.skills_integrity (Props.apply_skill_op t op).
Proof.
  unfold Props.skills_integrity.
  intros [Hn [Hi Hr]]. rewrite references_by_columns in Hr.
  rewrite references_by_columns.
  destruct op as [now n v src path by_ | now n path | now i ok out tokens nts];
    cbn [Props.apply_skill_op].
  - unfold skillRegister. cbn [snd skills skill_usage].
    rewrite upsert_names.
    destruct (existsb (named n) (skills t)) eqn:E.
    + auto.
    + split; [| split; [exact Hi |]].
      * apply NoDup_app; [exact Hn | repeat constructor; simpl; tauto |].
        intros x Hx [<- | []]. apply existsb_named in Hx. congruence.
      * intros m Hm. apply in_or_app. left. now apply Hr.
  - unfold skillUsageStart.
    destruct (existsb (named n) (skills t)) eqn:E; cbn [snd skills skill_usage].
    + rewrite touch_names, !map_app. cbn [map u_id u_skill_name].
      split; [exact Hn |]. split.
      * apply NoDup_app; [exact Hi | repeat constructor; simpl; tauto |].
        intros x Hx [<- | []].
        pose proof (next_rowid_fresh _ _ Hx). lia.
      * intros m Hm. apply in_app_or in Hm. destruct Hm as [Hm | [<- | []]].
        -- now apply Hr.
        -- now apply existsb_named.
    + auto.
  - unfold skillUsageEnd. cbn [snd skills skill_usage].
    rewrite complete_ids, complete_names.
    destruct (find _ _); [rewrite count_use_names |]; auto.
Qed.

End SkillTableFacts.

(** X13. The schema's constraints on the skill tables survive every
    sequence of skillRegister, skillUsageStart and skillUsageEnd calls,
    the refused ones included: skill names stay distinct, usage ids stay
    distinct, and every usage row names a registered skill. *)
Theorem X13_skill_tables_integrity :
  forall (ops : list Props.skill_op) (t : Skills.Tables),
    Props.skills_integrity t ->
    Props.skills_integrity (Props.run_skill_ops ops t).
Proof.
  intros ops. unfold Props.run_skill_ops.
  induction ops as [| op ops IH]; intros t H; [exact H |].
  cbn [fold_left]. apply IH. now apply integrity_step.
Qed.

(** From the empty tables: a registration, a start that is refused, a
    start and an end. *)
Lemma X13_skill_tables_integrity_witness :
  let t0 := {| Skills.skills := []; Skills.skill_usage := [] |} in
  let ops :=
    [ Props.OpRegister 1704110400000 "skillA" "1.0" "plugin" None None;
      Props.OpStart 1704110401000 "skillB" None;
      Props.OpStart 1704110402000 "skillA" (Some "/work/ts-app");
      Props.OpEnd 1704110403000 1 true None None None ] in
  Props.skills_integrity t0 /\ Props.skills_integrity (Props.run_skill_ops ops t0).
Proof.
  intros t0 ops.
  assert (H0 : Props.skills_integrity t0).
  { unfold Props.skills_integrity. simpl.
    split; [apply NoDup_nil |]. split; [apply NoDup_nil | tauto]. }
  split; [exact H0 |].
  exact (X13_skill_tables_integrity ops t0 H0).
Defined.

Section SkillRegisterFacts.

Import Skills.

Lemma upsert_get_same ts n v src path by_ (l : list Skill) :
  find (named n) (upsert ts n v src path by_ l) =
  match find (named n) l with
  | Some old => Some (Skills.registered v src path old)
  | None =>
      Some {| id := Sql.next_rowid (map id l); name := n; version := v; source := src;
              project_path := path; installed_by := by_; installed_at := ts;
              last_used_at := None; use_count := 0 |}
  end.
Proof.
  unfold upsert.
  destruct (find (named n) l) as [old |] eqn:F.
  - rewrite (find_some_existsb _ _ _ F).
    rewrite (find_map_stable (named n) _ l old); [| | exact F].
    + apply find_some in F. destruct F as [_ F]. now rewrite F.
    + intros y. now destruct (named n y) eqn:E.
  - assert (E : existsb (named n) l = false) by now apply find_none_existsb.
    rewrite E. apply find_app_new; [exact F |].
    unfold named. simpl. apply String.eqb_refl.
Qed.

Lemma upsert_get_other ts n v src path by_ (l : list Skill) (m : string) :
  m <> n ->
  find (named m) (upsert ts n v src path by_ l) = find (named m) l.
Proof.
  intros Hne. unfold upsert.
  destruct (existsb (named n) l).
  - apply find_map_fixed.
    + intros y Hy. apply named_true in Hy.
      destruct (named n y) eqn:E; [| reflexivity].
      apply named_true in E. congruence.
    + intros y. now destruct (named n y).
  - apply find_app_other. unfold named. simpl. now apply String.eqb_neq.
Qed.

End SkillRegisterFacts.

(** X14. skillRegister of a name that has a row replaces version, source
    and project_path and keeps the row's id, installed_by, installed_at,
    last_used_at and use_count; of a new name it makes a row with
    use_count 0 and no last_used_at.  The answer carries the stored row,
    every other skill reads as before, and the usages are untouched. *)
Theorem X14_skillRegister_upsert :
  forall now name version source project_path installed_by (t : Skills.Tables),
    fst (Skills.skillRegister now name version source project_path installed_by t)
    = (true,
       Skills.skillGet name
         (snd (Skills.skillRegister now name version source project_path installed_by t)))
    /\
    Skills.skillGet name
      (snd (Skills.skillRegister now name version source project_path installed_by t))
    = match Skills.skillGet name t with
      | Some old =>
          Some {| Skills.id := Skills.id old; Skills.name := Skills.name old;
                  Skills.version := version; Skills.source := source;
                  Skills.project_path := Sql.or_null project_path;
                  Skills.installed_by := Skills.installed_by old;
                  Skills.installed_at := Skills.installed_at old;
                  Skills.last_used_at := Skills.last_used_at old;
                  Skills.use_count := Skills.use_count old |}
      | None =>
          Some {| Skills.id := Sql.next_rowid (map Skills.id (Skills.skills t));
                  Skills.name := name;
                  Skills.version := version; Skills.source := source;
                  Skills.project_path := Sql.or_null project_path;
                  Skills.installed_by := Sql.or_null installed_by;
                  Skills.installed_at := Time.CURRENT_TIMESTAMP now;
                  Skills.last_used_at := None;
                  Skills.use_count := 0 |}
      end
    /\
    (forall other,
        other <> name ->
        Skills.skillGet other
          (snd (Skills.skillRegister now name version source project_path installed_by t))
        = Skills.skillGet other t)
    /\
    Skills.skill_usage
      (snd (Skills.skillRegister now name version source project_path installed_by t))
    = Skills.skill_usage t.
Proof.
  intros now name version source project_path installed_by t.
  unfold Skills.skillRegister, Skills.skillGet. cbn [fst snd Skills.skills Skills.skill_usage].
  split; [reflexivity |]. split; [apply upsert_get_same |].
  split; [| reflexivity].
  intros other Hne. now apply upsert_get_other.
Qed.

Section SkillCounterFacts.

Import Skills.

(** A skill keeps its row, its id and its install time through a call, and
    its use_count does not fall. *)
Lemma skill_kept_step (t : Tables) (op : Props.skill_op) (n : string) (s : Skill) :
  skillGet n t = Some s ->
  exists s',
    skillGet n (Props.apply_skill_op t op) = Some s' /\
    id s' = id s /\ installed_at s' = installed_at s /\
    use_count s <= use_count s'.
Proof.
  unfold skillGet. intros H.
  destruct op as [now m v src path by_ | now m path | now i ok out tokens nts];
    cbn [Props.apply_skill_op].
  - unfold skillRegister. cbn [snd skills].
    destruct (String.eqb_spec n m) as [-> | Hne].
    + rewrite upsert_get_same, H. eexists. split; [reflexivity |]. simpl. repeat split; lia.
    + rewrite upsert_get_other by exact Hne.
      exists s. split; [exact H |]. repeat split; lia.
  - unfold skillUsageStart.
    destruct (existsb (named m) (skills t)); cbn [snd skills].
    + destruct (skillGet_touch (Time.CURRENT_TIMESTAMP now) n m (skills t) s H)
        as [s' [Hs' [_ Hc]]].
      unfold touch in *.
      rewrite (find_map_stable (named n) _ (skills t) s) in Hs' |- *;
        try exact H; try (intros y; now destruct (named m y)).
      eexists. split; [reflexivity |].
      destruct (named m s); simpl; repeat split; lia.
    + exists s. split; [exact H |]. repeat split; lia.
  - rewrite skillUsageEnd_skills.
    destruct (find (usage_with_id i) (skill_usage t)) as [u |].
    + rewrite skillGet_count_use, H. simpl.
      eexists. split; [reflexivity |].
      destruct (named (u_skill_name u) s); simpl; repeat split; lia.
    + exists s. split; [exact H |]. repeat split; lia.
Qed.

End SkillCounterFacts.

(** X15. No sequence of skillRegister, skillUsageStart and skillUsageEnd
    calls removes a skill, changes its id or installed_at, or lowers its
    use_count. *)
Theorem X15_use_count_never_falls :
  forall (ops : list Props.skill_op) (t : Skills.Tables) name s,
    Skills.skillGet name t = Some s ->
    exists s',
      Skills.skillGet name (Props.run_skill_ops ops t) = Some s' /\
      Skills.id s' = Skills.id s /\
      Skills.installed_at s' = Skills.installed_at s /\
      Skills.use_count s <= Skills.use_count s'.
Proof.
  intros ops. unfold Props.run_skill_ops.
  induction ops as [| op ops IH]; intros t name s H.
  - exists s. split; [exact H |]. repeat split; lia.
  - cbn [fold_left].
    destruct (skill_kept_step t op name s H) as [s1 [H1 [Hi [Ha Hc]]]].
    destruct (IH _ name s1 H1) as [s2 [H2 [Hi2 [Ha2 Hc2]]]].
    exists s2. split; [exact H2 |]. rewrite Hi2, Ha2. repeat split; try assumption. lia.
Qed.

(** A registered skill through a re-registration, a usage and its end. *)
Lemma X15_use_count_never_falls_witness :
  let s :=
    {| Skills.id := 1; Skills.name := "skillA"; Skills.version := "1.0";
       Skills.source := "plugin"; Skills.project_path := None;
       Skills.installed_by := None;
       Skills.installed_at := "2024-01-01 12:00:00";
       Skills.last_used_at := None; Skills.use_count := 4 |} in
  let t := {| Skills.skills := [s]; Skills.skill_usage := [] |} in
  let ops :=
    [ Props.OpRegister 1704110400000 "skillA" "2.0" "plugin" (Some "/work") None;
      Props.OpStart 1704110402000 "skillA" None;
      Props.OpEnd 1704110403000 1 false None None None ] in
  Skills.skillGet "skillA" t = Some s /\
  exists s',
    Skills.skillGet "skillA" (Props.run_skill_ops ops t) = Some s' /\
    Skills.id s' = 1 /\
    Skills.installed_at s' = "2024-01-01 12:00:00"%string /\
    4 <= Skills.use_count s'.
Proof.
  intros s t ops. split; [reflexivity |].
  exact (X15_use_count_never_falls ops t "skillA" s eq_refl).
Defined.

(** X16. skillUsageStart for a registered skill answers a usage id that
    no usage row had, appends one row for it in the started state (no
    completed_at, no success) and stamps the skill's last_used_at; the
    use_count is not touched, and the other skills and usages are as
    before. *)
Theorem X16_skillUsageStart_registered :
  forall now skill_name project_path (t : Skills.Tables) s,
    Skills.skillGet skill_name t = Some s ->
    exists usage_id t',
      Skills.skillUsageStart now skill_name project_path t = (Ok (true, usage_id), t') /\
      find (Skills.usage_with_id usage_id) (Skills.skill_usage t) = None /\
      Skills.skill_usage t' =
        Skills.skill_usage t ++
        [ {| Skills.u_id := usage_id; Skills.u_skill_name := skill_name;
             Skills.u_project_path := Sql.or_null project_path;
             Skills.u_started_at := Some (Time.CURRENT_TIMESTAMP now);
             Skills.u_completed_at := None; Skills.u_success := None;
             Skills.u_outcome := None; Skills.u_tokens_used := None;
             Skills.u_notes := None |} ] /\
      Skills.skillGet skill_name t'
      = Some (Skills.touched (Time.CURRENT_TIMESTAMP now) s) /\
      (forall other,
          other <> skill_name -> Skills.skillGet other t' = Skills.skillGet other t).
Proof.
  intros now skill_name project_path t s H.
  unfold Skills.skillUsageStart.
  rewrite (find_some_existsb _ _ _ H).
  eexists. eexists. split; [reflexivity |].
  split; [apply find_fresh_usage |]. split; [reflexivity |].
  unfold Skills.skillGet in *. cbn [Skills.skills]. unfold Skills.touch. split.
  - rewrite (find_map_stable (Skills.named skill_name) _ (Skills.skills t) s);
      [| | exact H].
    + apply find_some in H. destruct H as [_ H]. now rewrite H.
    + intros y. now destruct (Skills.named skill_name y) eqn:E.
  - intros other Hne. apply find_map_fixed.
    + intros y Hy. apply named_true in Hy.
      destruct (Skills.named skill_name y) eqn:E; [| reflexivity].
      apply named_true in E. congruence.
    + intros y. now destruct (Skills.named skill_name y).
Qed.

Lemma X16_skillUsageStart_registered_witness :
  let s :=
    {| Skills.id := 1; Skills.name := "skillA"; Skills.version := "1.0";
       Skills.source := "plugin"; Skills.project_path := None;
       Skills.installed_by := None;
       Skills.installed_at := "2024-01-01 12:00:00";
       Skills.last_used_at := None; Skills.use_count := 0 |} in
  let t := {| Skills.skills := [s]; Skills.skill_usage := [] |} in
  Skills.skillGet "skillA" t = Some s /\
  exists usage_id t',
    Skills.skillUsageStart 1704110400000 "skillA" (Some "") t = (Ok (true, usage_id), t') /\
    Skills.skillGet "skillA" t' = Some (Skills.touched "2024-01-01 12:00:00" s).
Proof.
  intros s t. split; [reflexivity |].
  destruct (X16_skillUsageStart_registered 1704110400000 "skillA" (Some ""%string) t s eq_refl)
    as [usage_id [t' [H1 [_ [_ [H2 _]]]]]].
  exists usage_id, t'. split; [exact H1 | exact H2].
Defined.

Section SkillOrderFacts.

Import Skills.

Lemma used_more_asym (a b : Skill) : used_more a b = true -> used_more b a = false.
Proof.
  unfold used_more. intros H.
  apply orb_true_iff in H. apply orb_false_iff.
  destruct H as [H | H].
  - apply Z.ltb_lt in H. split.
    + apply Z.ltb_ge. lia.
    + apply andb_false_iff. left. apply Z.eqb_neq. lia.
  - apply andb_prop in H. destruct H as [He Hl]. apply Z.eqb_eq in He.
    split.
    + apply Z.ltb_ge. lia.
    + apply andb_false_iff. right. now apply string_ltb_asym.
Qed.

Lemma used_more_false (a b : Skill) :
  used_more b a = false ->
  use_count b < use_count a \/
  (use_count b = use_count a /\ String.leb (name a) (name b) = true).
Proof.
  unfold used_more. intros H. apply orb_false_iff in H. destruct H as [H1 H2].
  apply Z.ltb_ge in H1. apply andb_false_iff in H2.
  destruct H2 as [H2 | H2].
  - apply Z.eqb_neq in H2. left. lia.
  - destruct (Z.eq_dec (use_count b) (use_count a)) as [E | E].
    + right. split; [exact E | now apply string_ltb_false_leb].
    + left. lia.
Qed.

Lemma counts_more_asym (a b : Skill) : counts_more a b = true -> counts_more b a = false.
Proof.
  unfold counts_more. intros H. apply Z.ltb_lt in H. apply Z.ltb_ge. lia.
Qed.

Lemma most_used_max (l : list Skill) :
  match hd_error (Sql.ORDER_BY counts_more l) with
  | None => l = []
  | Some top => In top l /\ forall s, In s l -> use_count s <= use_count top
  end.
Proof.
  pose proof (ORDER_BY_in_order counts_more counts_more_asym l) as Hs.
  pose proof (fun y => ORDER_BY_In counts_more y l) as Hin.
  pose proof (ORDER_BY_length counts_more l) as Hlen.
  remember (Sql.ORDER_BY counts_more l) as sorted eqn:Es. clear Es.
  destruct sorted as [| top rest]; simpl.
  - destruct l; [reflexivity | discriminate].
  - split; [apply Hin; now left |].
    apply (Sorted_weaken _ (fun a b => use_count b <= use_count a)) in Hs.
    + apply Sorted_head in Hs; [| intros x y z; lia].
      intros s Hs'. apply Hin in Hs'. destruct Hs' as [<- | Hs']; [lia |].
      rewrite Forall_forall in Hs. now apply Hs.
    + intros a b. unfold counts_more. intros H. apply Z.ltb_ge in H. lia.
Qed.

Lemma Qle_bool_false (x y : Q) : Qle_bool x y = false <-> Qlt y x.
Proof.
  split.
  - intros H. apply Qnot_le_lt. intros Hle. apply Qle_bool_iff in Hle. congruence.
  - intros H. destruct (Qle_bool x y) eqn:E; [| reflexivity].
    apply Qle_bool_iff in E. apply Qlt_not_le in H. contradiction.
Qed.

Lemma Qeq_bool_false (x y : Q) : Qeq_bool x y = false <-> ~ Qeq x y.
Proof.
  split.
  - intros H He. apply Qeq_bool_iff in He. congruence.
  - intros H. destruct (Qeq_bool x y) eqn:E; [| reflexivity].
    apply Qeq_bool_iff in E. contradiction.
Qed.

Lemma ranks_before_asym (a b : Recommendation) :
  ranks_before a b = true -> ranks_before b a = false.
Proof.
  unfold ranks_before. intros H.
  apply orb_true_iff in H. apply orb_false_iff.
  destruct H as [H | H].
  - apply negb_true_iff, Qle_bool_false in H. split.
    + apply negb_false_iff, Qle_bool_iff. now apply Qlt_le_weak.
    + apply andb_false_iff. left. apply Qeq_bool_false. intros He.
      rewrite He in H. now apply Qlt_irrefl in H.
  - apply andb_prop in H. destruct H as [He Hc].
    apply Qeq_bool_iff in He. apply Z.ltb_lt in Hc. split.
    + apply negb_false_iff, Qle_bool_iff. rewrite He. apply Qle_refl.
    + apply andb_false_iff. right. apply Z.ltb_ge. lia.
Qed.

Lemma ranks_before_false (a b : Recommendation) :
  ranks_before b a = false ->
  Qlt (success_rate b) (success_rate a) \/
  (Qeq (success_rate b) (success_rate a) /\ usage_count b <= usage_count a).
Proof.
  unfold ranks_before. intros H.
  apply orb_false_iff in H. destruct H as [H1 H2].
  apply negb_false_iff, Qle_bool_iff in H1. apply andb_false_iff in H2.
  destruct (Qeq_dec (success_rate b) (success_rate a)) as [E | E].
  - right. split; [exact E |].
    destruct H2 as [H2 | H2].
    + apply Qeq_bool_false in H2. contradiction.
    + apply Z.ltb_ge in H2. lia.
  - left. apply Qle_lteq in H1. destruct H1 as [H1 | H1]; [exact H1 | contradiction].
Qed.

End SkillOrderFacts.

Section DistinctFacts.

Context {A B : Type}.
Variable f : A -> B.

Lemma NoDup_map_filter (q : A -> bool) (l : list A) :
  NoDup (map f l) -> NoDup (map f (filter q l)).
Proof.
  induction l as [| y l IH]; simpl; intros H; [constructor |].
  apply NoDup_cons_iff in H. destruct H as [Hn Hl].
  destruct (q y); simpl; [| now apply IH].
  constructor; [| now apply IH].
  intros Hin. apply Hn. apply in_map_iff in Hin.
  destruct Hin as [r [Hr Hin]]. apply filter_In in Hin.
  apply in_map_iff. exists r. tauto.
Qed.

Lemma NoDup_map_firstn (n : nat) (l : list A) :
  NoDup (map f l) -> NoDup (map f (firstn n l)).
Proof.
  revert n. induction l as [| y l IH]; intros n H.
  - rewrite firstn_nil. constructor.
  - destruct n as [| n]; simpl; [constructor |].
    simpl in H. apply NoDup_cons_iff in H. destruct H as [Hn Hl].
    constructor; [| now apply IH].
    intros Hin. apply Hn. apply in_map_iff in Hin.
    destruct Hin as [r [Hr Hin]].
    apply in_map_iff. exists r. split; [exact Hr |].
    rewrite <- (firstn_skipn n l). apply in_or_app. now left.
Qed.

Lemma NoDup_map_LIMIT (n : Z) (l : list A) :
  NoDup (map f l) -> NoDup (map f (Sql.LIMIT n l)).
Proof.
  unfold Sql.LIMIT. destruct (n <? 0); [trivial | apply NoDup_map_firstn].
Qed.

Lemma NoDup_map_ORDER_BY (before : A -> A -> bool) (l : list A) :
  NoDup (map f l) -> NoDup (map f (Sql.ORDER_BY before l)).
Proof.
  apply Permutation_NoDup. apply Permutation_map, Permutation_sym.
  apply ORDER_BY_Permutation.
Qed.

End DistinctFacts.

(** X17. skillList returns exactly the registered skills, or with a project
    path those whose project_path is that path or null; no skill comes
    twice when skill names are distinct, and with no path the answer is a
    rearrangement of the table; the skills come by falling use_count, and
    among equal counts by rising name. *)
Theorem X17_skillList_filter_order :
  forall project_path (t : Skills.Tables),
    (forall s,
        In s (Skills.skillList project_path t) <->
        In s (Skills.skills t) /\
        (forall path, Sql.or_null project_path = Some path ->
                      Skills.project_path s = None \/ Skills.project_path s = Some path))
    /\
    Sorted (fun a b =>
              Skills.use_count b < Skills.use_count a \/
              (Skills.use_count b = Skills.use_count a /\
               String.leb (Skills.name a) (Skills.name b) = true))
      (Skills.skillList project_path t)
    /\
    (Sql.or_null project_path = None ->
     Permutation (Skills.skillList project_path t) (Skills.skills t))
    /\
    (NoDup (map Skills.name (Skills.skills t)) ->
     NoDup (map Skills.name (Skills.skillList project_path t))).
Proof.
  intros project_path t. unfold Skills.skillList.
  assert (Hsorted : forall l,
             Sorted (fun a b =>
                       Skills.use_count b < Skills.use_count a \/
                       (Skills.use_count b = Skills.use_count a /\
                        String.leb (Skills.name a) (Skills.name b) = true))
               (Sql.ORDER_BY Skills.used_more l)).
  { intros l.
    apply (Sorted_weaken (fun a b => Skills.used_more b a = false)).
    - intros a b. apply used_more_false.
    - apply ORDER_BY_in_order. apply used_more_asym. }
  destruct (Sql.or_null project_path) as [path |].
  - split; [| split; [apply Hsorted | split; [discriminate |]]];
      [| intros Hn; now apply NoDup_map_ORDER_BY, NoDup_map_filter].
    intros s. rewrite ORDER_BY_In, filter_In. unfold Skills.at_path_or_nowhere.
    split.
    + intros [Hin Hp]. split; [exact Hin |]. intros path' [= <-].
      destruct (Skills.project_path s) as [p |]; [| now left].
      apply String.eqb_eq in Hp. right. now subst.
    + intros [Hin Hp]. split; [exact Hin |].
      destruct (Hp path eq_refl) as [-> | ->]; [reflexivity | apply String.eqb_refl].
  - split; [| split; [apply Hsorted | split; [intros _; apply ORDER_BY_Permutation |]]];
      [| intros Hn; now apply NoDup_map_ORDER_BY].
    intros s. rewrite ORDER_BY_In. split; [| tauto].
    intros Hin. split; [exact Hin | discriminate].
Qed.

Section SkillStatsFacts.

Import Skills.

Lemma has_outcome_is_completed (l : list SkillUsage) :
  filter has_outcome l = filter Props.is_completed l.
Proof. reflexivity. Qed.

Lemma Zpos_of_nat (n : nat) : (0 < n)%nat -> Zpos (Pos.of_nat n) = Z.of_nat n.
Proof.
  intros H. rewrite <- (Nat2Pos.id n) at 2 by lia.
  now rewrite positive_nat_Z.
Qed.

End SkillStatsFacts.

(** X18. skillStats: the totals are the numbers of rows of the two tables;
    success_rate is the mean of the success flag over the usages that have
    one (the completed ones), 0 when there is none, and lies between 0 and
    1; most_used is null exactly when no skill is registered and otherwise
    a registered skill that no skill exceeds in use_count. *)
Theorem X18_skillStats :
  forall (t : Skills.Tables),
    Skills.total_skills (Skills.skillStats t) = Z.of_nat (List.length (Skills.skills t))
    /\ Skills.total_usages (Skills.skillStats t)
       = Z.of_nat (List.length (Skills.skill_usage t))
    /\ Skills.overall_success_rate (Skills.skillStats t)
       = Props.mean_success (Skills.skill_usage t)
    /\ Qle (Qmake 0 1) (Skills.overall_success_rate (Skills.skillStats t))
    /\ Qle (Skills.overall_success_rate (Skills.skillStats t)) (Qmake 1 1)
    /\ match Skills.most_used (Skills.skillStats t) with
       | None => Skills.skills t = []
       | Some top =>
           In top (Skills.skills t) /\
           forall s, In s (Skills.skills t) -> Skills.use_count s <= Skills.use_count top
       end.
Proof.
  intros t.
  assert (Hrate : Skills.overall_success_rate (Skills.skillStats t)
                  = Props.mean_success (Skills.skill_usage t)).
  { unfold Skills.skillStats, Props.mean_success.
    cbn [Skills.overall_success_rate].
    rewrite has_outcome_is_completed.
    destruct (filter Props.is_completed (Skills.skill_usage t)) as [| u done];
      [reflexivity |].
    unfold Skills.AVG.
    rewrite <- (map_map Some Skills.success_case), sum_success_case, !length_map.
    reflexivity. }
  split; [reflexivity |]. split; [reflexivity |]. split; [exact Hrate |].
  rewrite Hrate. unfold Props.mean_success.
  split; [| split].
  - destruct (filter Props.is_completed (Skills.skill_usage t)); unfold Qle; simpl; lia.
  - destruct (filter Props.is_completed (Skills.skill_usage t)) as [| u done] eqn:E.
    + unfold Qle. simpl. lia.
    + unfold Qle. cbn [Qnum Qden].
      rewrite Zpos_of_nat by (simpl; lia).
      pose proof (filter_length_le Props.succeeded (u :: done)). lia.
  - apply most_used_max.
Qed.

Section GroupNames.

Import Skills.

Lemma groups_names keep (t : Tables) :
  NoDup (map name (skills t)) ->
  NoDup (map (fun r => name (skill r))
           (map (fun g => aggregate (fst g) (snd g)) (groups keep t))).
Proof.
  intros H. rewrite map_map. unfold groups.
  apply (NoDup_map_filter (fun g => name (skill (aggregate (fst g) (snd g))))).
  rewrite map_map. exact H.
Qed.

End GroupNames.

(** X19. The rows of skillRecommend come by falling success_rate, and among
    equal rates by falling usage_count; they are at most limit (5 when none
    is given) for a limit that is not negative, and no skill is among them
    twice when skill names are distinct. *)
Theorem X19_skillRecommend_order_limit :
  forall project_type limit (t : Skills.Tables),
    Sorted (fun a b =>
              Qlt (Skills.success_rate b) (Skills.success_rate a) \/
              (Qeq (Skills.success_rate b) (Skills.success_rate a) /\
               Skills.usage_count b <= Skills.usage_count a))
      (Skills.skillRecommend project_type limit t)
    /\
    (0 <= match limit with Some n => n | None => 5 end ->
     Z.of_nat (List.length (Skills.skillRecommend project_type limit t))
     <= match limit with Some n => n | None => 5 end)
    /\
    (NoDup (map Skills.name (Skills.skills t)) ->
     NoDup (map (fun r => Skills.name (Skills.skill r))
              (Skills.skillRecommend project_type limit t))).
Proof.
  intros project_type limit t. unfold Skills.skillRecommend.
  assert (Hsorted : forall l n,
             Sorted (fun a b =>
                       Qlt (Skills.success_rate b) (Skills.success_rate a) \/
                       (Qeq (Skills.success_rate b) (Skills.success_rate a) /\
                        Skills.usage_count b <= Skills.usage_count a))
               (Sql.LIMIT n (Sql.ORDER_BY Skills.ranks_before l))).
  { intros l n. apply LIMIT_Sorted.
    apply (Sorted_weaken (fun a b => Skills.ranks_before b a = false)).
    - intros a b. apply ranks_before_false.
    - apply ORDER_BY_in_order. apply ranks_before_asym. }
  destruct (Sql.or_null project_type); cbv zeta;
    (split; [apply Hsorted | split; [apply LIMIT_length |]]); intros Hn.
  - apply NoDup_map_LIMIT, NoDup_map_ORDER_BY, NoDup_map_filter.
    now apply groups_names.
  - apply NoDup_map_LIMIT, NoDup_map_ORDER_BY. now apply groups_names.
Qed.

(** ** tools/context.ts: the other functions *)

Section ContextTableFacts.

Import Context.

Lemma at_key_iff (sid k : string) (row : ContextEntry) :
  at_key sid k row = true <-> Props.context_key row = (sid, k).
Proof.
  unfold at_key, Props.context_key. rewrite andb_true_iff, !String.eqb_eq.
  split; [intros [-> ->]; reflexivity | intros [= -> ->]; split; reflexivity].
Qed.

Lemma at_key_other (sid k sid' k' : string) (row : ContextEntry) :
  (sid', k') <> (sid, k) -> at_key sid k row = true -> at_key sid' k' row = false.
Proof.
  intros Hne H. apply at_key_iff in H.
  destruct (at_key sid' k' row) eqn:E; [| reflexivity].
  apply at_key_iff in E. congruence.
Qed.

Lemma find_map_same {A : Type} (p : A -> bool) (f : A -> A) (l : list A) :
  (forall y, p (f y) = p y) ->
  (forall y, p y = true -> f y = y) ->
  find p (map f l) = find p l.
Proof.
  intros Hp Hf. induction l as [| y l IH]; simpl; [reflexivity |].
  rewrite Hp. destruct (p y) eqn:E; [now rewrite Hf | exact IH].
Qed.

(** The upsert leaves every other pair of session and key as it finds it. *)
Lemma find_upsert_other ts sid k val skill expires sid' k' (context : list ContextEntry) :
  (sid', k') <> (sid, k) ->
  find (at_key sid' k') (upsert ts sid k val skill expires context)
  = find (at_key sid' k') context.
Proof.
  intros Hne. unfold upsert.
  destruct (existsb (at_key sid k) context).
  - apply find_map_same.
    + intros y. destruct (at_key sid k y); reflexivity.
    + intros y Hy. destruct (at_key sid k y) eqn:E; [| reflexivity].
      apply (at_key_other sid k sid' k' y Hne) in E. congruence.
  - apply find_app_other.
    destruct (at_key sid' k' _) eqn:E; [| reflexivity].
    apply at_key_iff in E. unfold Props.context_key in E. simpl in E. congruence.
Qed.

Lemma context_upsert_keys ts sid k val skill expires (context : list ContextEntry) :
  map Props.context_key (upsert ts sid k val skill expires context)
  = if existsb (at_key sid k) context
    then map Props.context_key context
    else map Props.context_key context ++ [(sid, k)].
Proof.
  unfold upsert. destruct (existsb (at_key sid k) context).
  - rewrite map_map. apply map_ext. intros y.
    destruct (at_key sid k y); reflexivity.
  - now rewrite map_app.
Qed.

Lemma context_upsert_unique ts sid k val skill expires (context : list ContextEntry) :
  Props.context_unique context ->
  Props.context_unique (upsert ts sid k val skill expires context).
Proof.
  unfold Props.context_unique. intros H. rewrite context_upsert_keys.
  destruct (existsb (at_key sid k) context) eqn:E; [exact H |].
  apply NoDup_app; [exact H | repeat constructor; intros [] |].
  intros x Hx [<- | []].
  apply in_map_iff in Hx. destruct Hx as [row [Hk Hin]].
  apply at_key_iff in Hk.
  assert (existsb (at_key sid k) context = true)
    by (apply existsb_exists; now exists row).
  congruence.
Qed.

Lemma context_upsert_length ts sid k val skill expires (context : list ContextEntry) :
  List.length (upsert ts sid k val skill expires context)
  = if existsb (at_key sid k) context
    then List.length context
    else S (List.length context).
Proof.
  unfold upsert. destruct (existsb (at_key sid k) context).
  - apply length_map.
  - rewrite length_app. simpl. lia.
Qed.

(** On a conflict the row keeps its id and its created_at. *)
Lemma upsert_keeps_row ts sid k val skill expires (context : list ContextEntry) old :
  find (at_key sid k) context = Some old ->
  exists row,
    find (at_key sid k) (upsert ts sid k val skill expires context) = Some row /\
    id row = id old /\ created_at row = created_at old.
Proof.
  intros Hf. unfold upsert.
  rewrite (find_some_existsb _ _ _ Hf).
  eexists. split.
  - apply find_map_stable; [| exact Hf].
    intros y. destruct (at_key sid k y) eqn:Ey; exact Ey.
  - apply find_some in Hf. destruct Hf as [_ Hk]. rewrite Hk. split; reflexivity.
Qed.

Lemma filter_unique (q : ContextEntry -> bool) (context : list ContextEntry) :
  Props.context_unique context -> Props.context_unique (filter q context).
Proof.
  unfold Props.context_unique. induction context as [| y l IH]; simpl; intros H.
  - constructor.
  - inversion H as [| ? ? Hn Hl]; subst.
    destruct (q y); simpl; [| now apply IH].
    constructor; [| now apply IH].
    intros Hin. apply Hn. apply in_map_iff in Hin.
    destruct Hin as [r [Hr Hin]]. apply filter_In in Hin.
    apply in_map_iff. exists r. tauto.
Qed.

Lemma unique_row (context : list ContextEntry) (a b : ContextEntry) :
  Props.context_unique context -> In a context -> In b context ->
  Props.context_key a = Props.context_key b -> a = b.
Proof.
  unfold Props.context_unique. induction context as [| y l IH]; simpl;
    intros H Ha Hb Hk; [contradiction |].
  inversion H as [| ? ? Hn Hl]; subst.
  destruct Ha as [<- | Ha], Hb as [<- | Hb].
  - reflexivity.
  - exfalso. apply Hn. rewrite Hk. now apply in_map.
  - exfalso. apply Hn. rewrite <- Hk. now apply in_map.
  - now apply IH.
Qed.

(** What the loop of contextShare leaves at a key of the other session. *)
Lemma share_other ts to_session sid k (entries table : list ContextEntry) :
  (forall e, In e entries -> (sid, k) <> (to_session, key e)) ->
  find (at_key sid k) (fold_left (Props.share_step ts to_session) entries table)
  = find (at_key sid k) table.
Proof.
  revert table. induction entries as [| e es IH]; intros table H; simpl;
    [reflexivity |].
  rewrite IH by (intros e' He'; apply H; now right).
  apply find_upsert_other. apply H. now left.
Qed.

Lemma share_keeps ts to_session (e : ContextEntry) (entries table : list ContextEntry) :
  (forall e', In e' entries -> key e' = key e -> Props.same_content e' e) ->
  (exists row, find (at_key to_session (key e)) table = Some row /\
               Props.same_content row e) ->
  exists row,
    find (at_key to_session (key e))
      (fold_left (Props.share_step ts to_session) entries table) = Some row /\
    Props.same_content row e.
Proof.
  revert table. induction entries as [| a es IH]; intros table Hsame Hrow; simpl;
    [exact Hrow |].
  apply IH; [intros e' He'; apply Hsame; now right |].
  destruct (String.eqb (key a) (key e)) eqn:E.
  - apply String.eqb_eq in E. unfold Props.share_step. rewrite E.
    destruct (find_upsert ts to_session (key e) (value a) (skill_name a)
                (expires_at a) table) as [row [Hf [Hv [He [Hs _]]]]].
    exists row. split; [exact Hf |].
    destruct (Hsame a (or_introl eq_refl) E) as [Hv' [Hs' He']].
    unfold Props.same_content. rewrite Hv, He, Hs. auto.
  - apply String.eqb_neq in E. unfold Props.share_step.
    rewrite find_upsert_other by congruence. exact Hrow.
Qed.

Lemma share_copies ts to_session (e : ContextEntry) (entries table : list ContextEntry) :
  In e entries ->
  (forall e', In e' entries -> key e' = key e -> Props.same_content e' e) ->
  exists row,
    find (at_key to_session (key e))
      (fold_left (Props.share_step ts to_session) entries table) = Some row /\
    Props.same_content row e.
Proof.
  intros Hin Hsame. apply in_split in Hin. destruct Hin as [l1 [l2 ->]].
  rewrite fold_left_app. simpl. apply share_keeps.
  - intros e' He'. apply Hsame. apply in_or_app. right. now right.
  - unfold Props.share_step at 2.
    destruct (find_upsert ts to_session (key e) (value e) (skill_name e)
                (expires_at e) (fold_left (Props.share_step ts to_session) l1 table))
      as [row [Hf [Hv [He [Hs _]]]]].
    exists row. split; [exact Hf |]. unfold Props.same_content. auto.
Qed.

Lemma share_unique ts to_session (entries table : list ContextEntry) :
  Props.context_unique table ->
  Props.context_unique (fold_left (Props.share_step ts to_session) entries table).
Proof.
  revert table. induction entries as [| e es IH]; intros table H; simpl;
    [exact H |].
  apply IH. now apply context_upsert_unique.
Qed.

Lemma created_after_asym (a b : ContextEntry) :
  created_after a b = true -> created_after b a = false.
Proof. unfold created_after. apply string_ltb_asym. Qed.

End ContextTableFacts.

Section ContextFilterFacts.

Import Context.

Lemma find_filter_same {A : Type} (p q : A -> bool) (l : list A) :
  (forall x, p x = true -> q x = true) -> find p (filter q l) = find p l.
Proof.
  intros H. induction l as [| y l IH]; simpl; [reflexivity |].
  destruct (p y) eqn:Py.
  - rewrite (H y Py). simpl. now rewrite Py.
  - destruct (q y); simpl; [rewrite Py |]; exact IH.
Qed.

Lemma find_filter_none {A : Type} (p q : A -> bool) (l : list A) :
  (forall x, p x = true -> q x = false) -> find p (filter q l) = None.
Proof.
  intros H. induction l as [| y l IH]; simpl; [reflexivity |].
  destruct (q y) eqn:Qy; simpl; [| exact IH].
  destruct (p y) eqn:Py; [| exact IH].
  rewrite (H y Py) in Qy. discriminate.
Qed.

Lemma at_key_in_session (sid k : string) (row : ContextEntry) :
  at_key sid k row = true -> in_session sid row = true.
Proof. unfold at_key, in_session. intros H. now apply andb_prop in H. Qed.

Lemma in_session_iff (sid : string) (row : ContextEntry) :
  in_session sid row = true <-> session_id row = sid.
Proof. unfold in_session. apply String.eqb_eq. Qed.

Lemma filter_split_length {A : Type} (q : A -> bool) (l : list A) :
  (List.length (filter q l) + List.length (filter (fun x => negb (q x)) l)
   = List.length l)%nat.
Proof.
  induction l as [| y l IH]; simpl; [reflexivity |].
  destruct (q y); simpl; lia.
Qed.

Lemma shared_from_key (from_session : string) (keys : option (list string))
    (row : ContextEntry) :
  shared_from from_session keys row
  = in_session from_session row && Props.names_key keys (key row).
Proof. reflexivity. Qed.

(** The row contextShare leaves in the other session for a row it read. *)
Lemma contextShare_row now from_session to_session keys
    (context : list ContextEntry) (entry : ContextEntry) :
  Props.context_unique context ->
  In entry context ->
  session_id entry = from_session ->
  Props.names_key keys (key entry) = true ->
  exists row,
    find (at_key to_session (key entry))
      (snd (contextShare now from_session to_session keys context)) = Some row /\
    Props.same_content row entry.
Proof.
  intros Hu Hin Hs Hk. unfold contextShare. cbn [snd].
  change (fold_left _ (filter (shared_from from_session keys) context) context)
    with (fold_left (Props.share_step (Time.CURRENT_TIMESTAMP now) to_session)
            (filter (shared_from from_session keys) context) context).
  apply share_copies.
  - rewrite filter_In, shared_from_key, andb_true_iff, in_session_iff. auto.
  - intros e' He' Hkey.
    rewrite filter_In, shared_from_key, andb_true_iff, in_session_iff in He'.
    destruct He' as [Hin' [Hs' _]].
    assert (e' = entry) as ->.
    { apply (unique_row context); auto.
      unfold Props.context_key. congruence. }
    unfold Props.same_content. auto.
Qed.

End ContextFilterFacts.

(** X20. A contextSet that succeeds answers { success: true, key } and
    writes one row: a new session and key add a row stamped with the current
    time, an existing pair keeps its row, with its id and created_at, and
    gets the new value, skill_name and expires_at; every other pair of
    session and key reads as before, and no pair comes to have two rows. *)
Theorem X20_contextSet_upsert :
  forall (json : Type) (JSON_stringify : json -> string)
         now session_id key (value : json) skill_name expires_in_minutes
         (context context' : list Context.ContextEntry) answer,
    Context.contextSet JSON_stringify now session_id key value skill_name
      expires_in_minutes context = (Ok answer, context') ->
    answer = (true, key)
    /\ (exists row,
          find (Context.at_key session_id key) context' = Some row /\
          Context.value row = JSON_stringify value /\
          Context.skill_name row = Sql.or_null skill_name /\
          Context.expires_at row
          = match Sql.or_null_num expires_in_minutes with
            | Some m =>
                match Time.toISOString (now + m * 60 * 1000) with
                | Ok iso => Some iso
                | Throw _ => None
                end
            | None => None
            end /\
          match find (Context.at_key session_id key) context with
          | Some old =>
              Context.id row = Context.id old /\
              Context.created_at row = Context.created_at old /\
              List.length context' = List.length context
          | None =>
              Context.created_at row = Time.CURRENT_TIMESTAMP now /\
              List.length context' = S (List.length context)
          end)
    /\ (forall sid k,
          (sid, k) <> (session_id, key) ->
          find (Context.at_key sid k) context' = find (Context.at_key sid k) context)
    /\ (Props.context_unique context -> Props.context_unique context').
Proof.
  intros json JSON_stringify now sid k v skill minutes context context' answer Hset.
  unfold Context.contextSet in Hset.
  set (expires := match Sql.or_null_num minutes with
                  | Some m =>
                      match Time.toISOString (now + m * 60 * 1000) with
                      | Ok iso => Some iso
                      | Throw _ => None
                      end
                  | None => None
                  end).
  assert (Hup : answer = (true, k) /\
                context' = Context.upsert (Time.CURRENT_TIMESTAMP now) sid k
                             (JSON_stringify v) (Sql.or_null skill) expires context).
  { unfold expires. destruct (Sql.or_null_num minutes) as [m |].
    - destruct (Time.toISOString (now + m * 60 * 1000)) as [iso | e];
        [| discriminate].
      injection Hset as <- <-. split; reflexivity.
    - injection Hset as <- <-. split; reflexivity. }
  destruct Hup as [-> ->].
  split; [reflexivity |]. split; [| split].
  - destruct (find_upsert (Time.CURRENT_TIMESTAMP now) sid k (JSON_stringify v)
                (Sql.or_null skill) expires context) as [row [Hf [Hv [He [Hs _]]]]].
    exists row. split; [exact Hf |]. split; [exact Hv |]. split; [exact Hs |].
    split; [exact He |].
    rewrite context_upsert_length.
    destruct (find (Context.at_key sid k) context) as [old |] eqn:F.
    + destruct (upsert_keeps_row (Time.CURRENT_TIMESTAMP now) sid k (JSON_stringify v)
                  (Sql.or_null skill) expires context old F) as [row' [Hf' [Hi Hc]]].
      rewrite Hf in Hf'. injection Hf' as <-.
      rewrite (find_some_existsb _ _ _ F). auto.
    + pose proof (proj1 (find_none_existsb _ _) F) as E. rewrite E. split; [| reflexivity].
      unfold Context.upsert in Hf. rewrite E in Hf.
      destruct (Context.at_key sid k
                  {| Context.id := Sql.next_rowid (map Context.id context);
                     Context.session_id := sid; Context.key := k;
                     Context.value := JSON_stringify v;
                     Context.skill_name := Sql.or_null skill;
                     Context.expires_at := expires;
                     Context.created_at := Time.CURRENT_TIMESTAMP now |}) eqn:Ek.
      * rewrite (find_app_new _ _ _ F Ek) in Hf. injection Hf as <-. reflexivity.
      * rewrite (find_app_other _ _ _ Ek), F in Hf. discriminate.
  - intros sid' k' Hne. now apply find_upsert_other.
  - apply context_upsert_unique.
Qed.

(** A second contextSet of the same session and key: one row, the new
    value. *)
Lemma X20_contextSet_upsert_witness :
  let v1 := Json.JNum 1 in
  let v2 := Json.JStr "two" in
  let context :=
    snd (Context.contextSet Json.stringify 1704110400000 "s" "k" v1 None None []) in
  let context' :=
    snd (Context.contextSet Json.stringify 1704110460000 "s" "k" v2 None (Some 30)
           context) in
  List.length context' = 1%nat /\
  exists row,
    find (Context.at_key "s" "k") context' = Some row /\
    Context.value row = Json.stringify v2 /\
    Context.created_at row = Time.CURRENT_TIMESTAMP 1704110400000.
Proof.
  intros v1 v2 context context'.
  destruct (X20_contextSet_upsert Json.json Json.stringify 1704110460000 "s" "k" v2
              None (Some 30) context context' (true, "k") eq_refl)
    as [_ [[row [Hf [Hv [_ [_ Hold]]]]] _]].
  split; [reflexivity |].
  exists row. split; [exact Hf |]. split; [exact Hv |].
  change (find (Context.at_key "s" "k") context) with (Some (hd row context)) in Hold.
  destruct Hold as [_ [Hc _]]. rewrite Hc. reflexivity.
Defined.

(** X21. contextSet throws exactly when expires_in_minutes is a number other
    than 0 and the expiry time, now + minutes * 60 * 1000, is no valid time
    value (beyond 8.64e15 ms either side of the epoch); what it throws is the
    RangeError of toISOString, and the table is left as it was. *)
Theorem X21_contextSet_RangeError :
  forall (json : Type) (JSON_stringify : json -> string)
         now session_id key (value : json) skill_name expires_in_minutes
         (context : list Context.ContextEntry),
    let set :=
      Context.contextSet JSON_stringify now session_id key value skill_name
        expires_in_minutes context in
    let out_of_range :=
      match expires_in_minutes with
      | Some m => negb (m =? 0) && negb (Time.valid_time (now + m * 60 * 1000))
      | None => false
      end in
    if out_of_range
    then set = (Throw RangeError, context)
    else fst set = Ok (true, key).
Proof.
  intros json JSON_stringify now sid k v skill minutes context. cbv zeta.
  unfold Context.contextSet, Time.toISOString.
  destruct minutes as [m |]; [| reflexivity].
  destruct (Z.eqb_spec m 0) as [-> | Hm]; [reflexivity |].
  assert (Sql.or_null_num (Some m) = Some m) as -> by (destruct m; [contradiction | reflexivity | reflexivity]).
  destruct (Time.valid_time (now + m * 60 * 1000)); reflexivity.
Qed.

(** X22. contextClear answers success and the number of rows it deleted.
    With a session id that is not empty it deletes the rows of that session
    and no other: no key of the session is found afterwards, and every key
    of another session reads as before.  With no session id, or the empty
    one, it deletes every row. *)
Theorem X22_contextClear :
  forall session_id (context : list Context.ContextEntry),
    let answer := fst (Context.contextClear session_id context) in
    let context' := snd (Context.contextClear session_id context) in
    fst answer = true
    /\ snd answer = Z.of_nat (List.length context) - Z.of_nat (List.length context')
    /\ match Sql.or_null session_id with
       | Some sid =>
           (forall row, In row context' <->
                        In row context /\ Context.session_id row <> sid)
           /\ (forall k, find (Context.at_key sid k) context' = None)
           /\ (forall sid' k, sid' <> sid ->
                 find (Context.at_key sid' k) context'
                 = find (Context.at_key sid' k) context)
           /\ (forall now, fst (Context.contextList now sid context') = [])
       | None => context' = []
       end.
Proof.
  intros session_id context. cbv zeta. unfold Context.contextClear.
  destruct (Sql.or_null session_id) as [sid |]; cbn [fst snd].
  - split; [reflexivity |]. split.
    + pose proof (filter_split_length (Context.in_session sid) context). lia.
    + split; [| split; [| split]].
      * intros row. rewrite filter_In, negb_true_iff.
        split; intros [Hin Hs]; (split; [exact Hin |]).
        -- intros E. apply in_session_iff in E. congruence.
        -- destruct (Context.in_session sid row) eqn:E; [| reflexivity].
           apply in_session_iff in E. contradiction.
      * intros k. apply find_filter_none.
        intros x Hx. apply at_key_in_session in Hx. now rewrite Hx.
      * intros sid' k Hne. apply find_filter_same.
        intros x Hx. apply at_key_in_session, in_session_iff in Hx.
        apply negb_true_iff.
        destruct (Context.in_session sid x) eqn:E; [| reflexivity].
        apply in_session_iff in E. congruence.
      * intros now. unfold Context.contextList, Context.purge. cbn [fst].
        assert (E : filter (Context.in_session sid)
                      (filter (fun row => negb (Context.expired
                                                  (Time.CURRENT_TIMESTAMP now) row))
                         (filter (fun row => negb (Context.in_session sid row))
                            context)) = []).
        { induction context as [| y l IH]; [reflexivity |]. simpl.
          destruct (Context.in_session sid y) eqn:Ey; simpl; [exact IH |].
          destruct (Context.expired _ y); simpl; [exact IH |].
          rewrite Ey. exact IH. }
        rewrite E. reflexivity.
  - split; [reflexivity |]. split; [simpl; lia | reflexivity].
Qed.

(** X23. contextShare, on a table that has one row for each session and
    key: it answers the number of rows of from_session it read (those whose
    key is among keys, or all of them when keys is missing or empty); after
    it every such row has a row of the same key in to_session with the same
    value, skill_name and expires_at; the keys of every session other than
    to_session, and the keys of to_session that were not shared, read as
    before; and each session and key still has one row. *)
Theorem X23_contextShare_copies :
  forall now from_session to_session keys (context : list Context.ContextEntry),
    Props.context_unique context ->
    let answer := fst (Context.contextShare now from_session to_session keys context) in
    let context' := snd (Context.contextShare now from_session to_session keys context) in
    answer = (true,
              Z.of_nat (List.length
                          (filter (fun row =>
                                     String.eqb (Context.session_id row) from_session
                                     && Props.names_key keys (Context.key row))
                             context)))
    /\ (forall entry,
          In entry context ->
          Context.session_id entry = from_session ->
          Props.names_key keys (Context.key entry) = true ->
          exists row,
            find (Context.at_key to_session (Context.key entry)) context' = Some row /\
            Props.same_content row entry)
    /\ (forall sid k,
          sid <> to_session ->
          find (Context.at_key sid k) context' = find (Context.at_key sid k) context)
    /\ (forall k,
          (forall entry,
              In entry context -> Context.session_id entry = from_session ->
              Props.names_key keys (Context.key entry) = true ->
              Context.key entry <> k) ->
          find (Context.at_key to_session k) context'
          = find (Context.at_key to_session k) context)
    /\ Props.context_unique context'.
Proof.
  intros now from to keys context Hu. cbv zeta.
  unfold Context.contextShare. cbn [fst snd].
  set (ts := Time.CURRENT_TIMESTAMP now).
  set (entries := filter (Context.shared_from from keys) context).
  change (fold_left _ entries context)
    with (fold_left (Props.share_step ts to) entries context).
  assert (Hsel : forall e, In e entries <->
                           In e context /\ Context.session_id e = from /\
                           Props.names_key keys (Context.key e) = true).
  { intros e. unfold entries. rewrite filter_In, shared_from_key, andb_true_iff,
      in_session_iff. tauto. }
  split; [reflexivity |]. split; [| split; [| split]].
  - intros e Hin Hs Hk.
    apply (contextShare_row now from to keys context e Hu Hin Hs Hk).
  - intros sid k Hne. apply share_other. intros e _. congruence.
  - intros k Hk. apply share_other. intros e He. apply Hsel in He.
    destruct He as [Hin [Hs Hn]]. specialize (Hk e Hin Hs Hn). congruence.
  - now apply share_unique.
Qed.

(** Two entries of session a, one of them shared into session b where the
    key already has a value. *)
Lemma X23_contextShare_copies_witness :
  let context :=
    [ {| Context.id := 1; Context.session_id := "a"; Context.key := "k";
         Context.value := "1"; Context.skill_name := None;
         Context.expires_at := None;
         Context.created_at := "2024-01-01 12:00:00" |};
      {| Context.id := 2; Context.session_id := "a"; Context.key := "other";
         Context.value := "2"; Context.skill_name := None;
         Context.expires_at := None;
         Context.created_at := "2024-01-01 12:00:01" |};
      {| Context.id := 3; Context.session_id := "b"; Context.key := "k";
         Context.value := "0"; Context.skill_name := Some "x";
         Context.expires_at := None;
         Context.created_at := "2024-01-01 12:00:02" |} ] in
  let shared :=
    Context.contextShare 1704110460000 "a" "b" (Some ["k"]) context in
  Props.context_unique context /\
  fst shared = (true, 1) /\
  find (Context.at_key "a" "k") (snd shared) = find (Context.at_key "a" "k") context /\
  Props.context_unique (snd shared).
Proof.
  intros context shared.
  assert (Hu : Props.context_unique context).
  { unfold Props.context_unique. simpl.
    repeat constructor; simpl; intros H;
      repeat (destruct H as [H | H]; [discriminate H |]); exact H. }
  destruct (X23_contextShare_copies 1704110460000 "a" "b" (Some ["k"]) context Hu)
    as [Ha [_ [Ho [_ Hu']]]].
  split; [exact Hu |]. split; [exact Ha |].
  split; [apply Ho; discriminate | exact Hu'].
Defined.

(** X24. contextList first deletes the rows whose expires_at sorts before
    the current timestamp, from every session, and returns the rows of the
    session that are left, each once, by falling created_at. *)
Theorem X24_contextList_rows_and_order :
  forall now session_id (context : list Context.ContextEntry),
    let rows := fst (Context.contextList now session_id context) in
    let context' := snd (Context.contextList now session_id context) in
    (forall row,
        In row context' <->
        In row context /\ Context.expired (Time.CURRENT_TIMESTAMP now) row = false)
    /\ (forall row,
          In row rows <-> In row context' /\ Context.session_id row = session_id)
    /\ Permutation rows
         (filter (fun row => String.eqb (Context.session_id row) session_id) context')
    /\ Sorted (fun a b => String.leb (Context.created_at b) (Context.created_at a) = true)
         rows
    /\ (Props.context_unique context -> Props.context_unique context').
Proof.
  intros now sid context. cbv zeta. unfold Context.contextList. cbn [fst snd].
  split; [| split; [| split; [| split]]].
  - intros row. unfold Context.purge. rewrite filter_In, negb_true_iff. tauto.
  - intros row. rewrite ORDER_BY_In, filter_In, in_session_iff. tauto.
  - apply ORDER_BY_Permutation.
  - apply (Sorted_weaken (fun a b => Context.created_after b a = false)).
    + intros a b. unfold Context.created_after. apply string_ltb_false_leb.
    + apply ORDER_BY_in_order. apply created_after_asym.
  - apply filter_unique.
Qed.

(** X25. A value set in one session with no expiry and then shared to
    another session reads there, at any later time, as it reads in the
    session it was set in, when the key is let through by keys: contextGet
    returns in both what JSON.parse makes of the text JSON.stringify wrote
    (the text itself, as a string, if JSON.parse refuses it), and so the
    value itself whenever JSON.parse reads that text back as the value. *)
Theorem X25_contextSet_contextShare_contextGet :
  forall (json : Type) (JSON_stringify : json -> string)
         (JSON_parse : string -> option json) (of_string : string -> json)
         now shared_at from_session to_session key (value : json)
         skill_name keys (context : list Context.ContextEntry),
    Props.context_unique context ->
    Props.names_key keys key = true ->
    let context1 :=
      snd (Context.contextSet JSON_stringify now from_session key value skill_name
             None context) in
    let context2 :=
      snd (Context.contextShare shared_at from_session to_session keys context1) in
    forall later,
      fst (Context.contextGet JSON_parse of_string later to_session key context2)
      = fst (Context.contextGet JSON_parse of_string later from_session key context1)
      /\ fst (Context.contextGet JSON_parse of_string later to_session key context2)
         = Some (match JSON_parse (JSON_stringify value) with
                 | Some v => v
                 | None => of_string (JSON_stringify value)
                 end)
      /\ (JSON_parse (JSON_stringify value) = Some value ->
          fst (Context.contextGet JSON_parse of_string later to_session key context2)
          = Some value).
Proof.
  intros json JSON_stringify JSON_parse of_string now shared_at from to k v skill keys
    context Hu Hkeys. cbv zeta.
  unfold Context.contextSet. cbn [Sql.or_null_num snd].
  set (context1 := Context.upsert (Time.CURRENT_TIMESTAMP now) from k (JSON_stringify v)
                     (Sql.or_null skill) None context).
  assert (Hu1 : Props.context_unique context1) by now apply context_upsert_unique.
  destruct (find_upsert (Time.CURRENT_TIMESTAMP now) from k (JSON_stringify v)
              (Sql.or_null skill) None context) as [row1 [Hf [Hv [He [_ [Hs Hk]]]]]].
  fold context1 in Hf.
  pose proof (find_some _ _ Hf) as [Hin _].
  destruct (contextShare_row shared_at from to keys context1 row1 Hu1 Hin Hs)
    as [row [Hrow [Hv' [_ He']]]]; [now rewrite Hk |].
  rewrite Hk in Hrow.
  intros later.
  assert (Hto : fst (Context.contextGet JSON_parse of_string later to k
                       (snd (Context.contextShare shared_at from to keys context1)))
                = Some (match JSON_parse (JSON_stringify v) with
                        | Some x => x
                        | None => of_string (JSON_stringify v)
                        end)).
  { rewrite (contextGet_found JSON_parse of_string later to k _ row Hrow).
    - now rewrite Hv', Hv.
    - unfold Context.expired. now rewrite He', He. }
  assert (Hfrom : fst (Context.contextGet JSON_parse of_string later from k context1)
                  = Some (match JSON_parse (JSON_stringify v) with
                          | Some x => x
                          | None => of_string (JSON_stringify v)
                          end)).
  { rewrite (contextGet_found JSON_parse of_string later from k _ row1 Hf).
    - now rewrite Hv.
    - unfold Context.expired. now rewrite He. }
  split; [now rewrite Hto, Hfrom |]. split; [exact Hto |].
  intros Hjson. now rewrite Hto, Hjson.
Qed.

(** The example: { a: 1 } set in session s1, shared to s2, read there. *)
Lemma X25_contextSet_contextShare_contextGet_witness :
  let v := Json.JObj [("a", Json.JNum 1)] in
  let context1 :=
    snd (Context.contextSet Json.stringify 1704110400000 "s1" "k" v None None []) in
  let context2 := snd (Context.contextShare 1704110460000 "s1" "s2" None context1) in
  fst (Context.contextGet Json.parse Json.JStr 1704196800000 "s2" "k" context2) = Some v.
Proof.
  intros v context1 context2.
  destruct (X25_contextSet_contextShare_contextGet Json.json Json.stringify Json.parse
              Json.JStr 1704110400000 1704110460000 "s1" "s2" "k" v None None []
              (NoDup_nil _) eq_refl 1704196800000) as [_ [_ Hid]].
  apply Hid. reflexivity.
Defined.

